(** * react-querybuilder: the export/import transcoder for the PostgREST
      dialect and the shared [formatQuery] skeleton

    A shallow embedding of
    - [defaultRuleProcessorPostgREST], the rule processor of the
      "postgrest" export format,
    - [formatQuery], the export entry point with its thirteen formats,
    - [parsePostgREST] and the type guards it dispatches on,
    followed by the properties of the natural-language specification that
    concern them. *)

From Stdlib Require Import String Ascii List ZArith Bool Lia.
From Stdlib Require Import DecimalString DecimalZ.
Import ListNotations.
Local Open Scope string_scope.
Local Open Scope Z_scope.
Set Warnings "-register-all".

(** ** JavaScript values

    Plain JS data as the transcoder sees it.  Objects are association
    lists in insertion order ([Object.entries] is order sensitive).
    Numbers are decimal numbers kept exactly, without the rounding and
    the overflow of doubles: [JNum n] is the integer [n], [JFrac d] a
    number with a fractional part.  [JUndef] is [undefined]. *)

(** A digit other than zero. *)
Inductive NonZeroDigit : Type :=
| D1 | D2 | D3 | D4 | D5 | D6 | D7 | D8 | D9.

(** A decimal number that is no integer, written the one way there is
    without a trailing zero: its sign, its digits up to the last one
    read as a number, its last digit, and the count of digits behind the
    decimal point.  [-12.75] is [mkFraction true 127 D5 2]. *)
Record Fraction : Type := mkFraction {
  fr_negative : bool;
  fr_leading : N;
  fr_last : NonZeroDigit;
  fr_places : positive
}.

Inductive json : Type :=
| JUndef
| JNull
| JBool (b : bool)
| JNum (n : Z)
| JFrac (d : Fraction)
| JStr (s : string)
| JArr (l : list json)
| JObj (o : list (string * json)).

Module JS.

(** [ToBoolean]: what [Array.prototype.filter(Boolean)] and [x ? a : b]
    look at. *)
Definition truthy (v : json) : bool :=
  match v with
  | JUndef | JNull => false
  | JBool b => b
  | JNum n => negb (n =? 0)
  | JFrac _ => true
  | JStr s => negb (s =? "")%string
  | JArr _ | JObj _ => true
  end.

Definition string_of_Z (n : Z) : string :=
  NilEmpty.string_of_int (Z.to_int n).

(** Number to string; zero prints as ["0"]. *)
Definition num_toString (n : Z) : string :=
  if n =? 0 then "0" else string_of_Z n.

Definition digitValue (d : NonZeroDigit) : Z :=
  match d with
  | D1 => 1 | D2 => 2 | D3 => 3 | D4 => 4 | D5 => 5
  | D6 => 6 | D7 => 7 | D8 => 8 | D9 => 9
  end.

Definition digitOf (n : Z) : NonZeroDigit :=
  if n =? 2 then D2 else if n =? 3 then D3 else if n =? 4 then D4
  else if n =? 5 then D5 else if n =? 6 then D6 else if n =? 7 then D7
  else if n =? 8 then D8 else if n =? 9 then D9 else D1.

(** All the digits of a fraction as one signed number: [-12.75] has the
    mantissa [-1275]. *)
Definition mantissa (d : Fraction) : Z :=
  let m := 10 * Z.of_N (fr_leading d) + digitValue (fr_last d) in
  if fr_negative d then - m else m.

(** The number [m / 10 ^ k] as a value. *)
Fixpoint decimal (m : Z) (k : nat) : json :=
  match k with
  | O => JNum m
  | S k' =>
      if m mod 10 =? 0 then decimal (m / 10) k'
      else JFrac (mkFraction (m <? 0) (Z.to_N (Z.abs m / 10))
                             (digitOf (Z.abs m mod 10))
                             (Pos.of_succ_nat k'))
  end.

(** A number as its mantissa and its count of decimal places. *)
Definition numberParts (v : json) : option (Z * Z) :=
  match v with
  | JNum n => Some (n, 0)
  | JFrac d => Some (mantissa d, Zpos (fr_places d))
  | _ => None
  end.

(** [a < b] and [a <= b] on numbers. *)
Definition lessThan (a b : json) : bool :=
  match numberParts a, numberParts b with
  | Some (m1, k1), Some (m2, k2) => m1 * 10 ^ k2 <? m2 * 10 ^ k1
  | _, _ => false
  end.

Definition lessOrEqual (a b : json) : bool :=
  match numberParts a, numberParts b with
  | Some (m1, k1), Some (m2, k2) => m1 * 10 ^ k2 <=? m2 * 10 ^ k1
  | _, _ => false
  end.

Fixpoint zeros (n : nat) : string :=
  match n with
  | O => EmptyString
  | S n' => String "0"%char (zeros n')
  end.

(** [Number::toString] on a fraction: with [n] digits before the point,
    plain notation for [-6 < n <= 21] and exponential notation
    otherwise. *)
Definition frac_toString (d : Fraction) : string :=
  let digits := string_of_Z (Z.abs (mantissa d)) in
  let k := String.length digits in
  let n := Z.of_nat k - Zpos (fr_places d) in
  let exponential (e : Z) :=
    match digits with
    | String c rest =>
        String c (if (rest =? "")%string then "" else "." ++ rest)
        ++ "e" ++ (if e <? 0 then "-" else "+") ++ string_of_Z (Z.abs e)
    | EmptyString => ""
    end in
  (if fr_negative d then "-" else "")
  ++ (if ((0 <? n) && (n <=? 21))%bool then
        substring 0 (Z.to_nat n) digits ++ "."
        ++ substring (Z.to_nat n) (k - Z.to_nat n) digits
      else if ((-6 <? n) && (n <=? 0))%bool then
        "0." ++ zeros (Z.to_nat (- n)) ++ digits
      else exponential (n - 1)).

(** [Array.prototype.join] on strings. *)
Definition join (sep : string) (l : list string) : string :=
  String.concat sep l.

(** [String(v)], as template literals and [join] apply it.  Inside an
    array [null] and [undefined] print as the empty string. *)
Fixpoint toString (v : json) : string :=
  match v with
  | JUndef => "undefined"
  | JNull => "null"
  | JBool true => "true"
  | JBool false => "false"
  | JNum n => num_toString n
  | JFrac d => frac_toString d
  | JStr s => s
  | JArr l =>
      join ","
        (map (fun x => match x with
                       | JUndef | JNull => ""
                       | _ => toString x
                       end) l)
  | JObj _ => "[object Object]"
  end.

(** [arr.filter(Boolean)] *)
Definition filterBoolean (l : list json) : list json := filter truthy l.

(** [arr.filter(Boolean).join(sep)] read back as strings. *)
Definition joinValues (sep : string) (l : list json) : string :=
  join sep (map (fun x => match x with
                          | JUndef | JNull => ""
                          | _ => toString x
                          end) l).

(** [key in obj] *)
Fixpoint hasKey (k : string) (o : list (string * json)) : bool :=
  match o with
  | [] => false
  | (k', _) :: o' => (k =? k')%string || hasKey k o'
  end.

(** [obj[key]]; [undefined] when the key is absent. *)
Fixpoint get (k : string) (o : list (string * json)) : json :=
  match o with
  | [] => JUndef
  | (k', v) :: o' => if (k =? k')%string then v else get k o'
  end.

(** [isPojo]: a plain object (not an array, not [null]). *)
Definition isPojo (v : json) : bool :=
  match v with JObj _ => true | _ => false end.

Definition isArray (v : json) : bool :=
  match v with JArr _ => true | _ => false end.

(** [v.length] of an array or a string, as a number. *)
Definition lengthOf (v : json) : option nat :=
  match v with
  | JArr l => Some (List.length l)
  | JStr s => Some (String.length s)
  | _ => None
  end.

(** [arr[i]] *)
Definition index (v : json) (i : nat) : json :=
  match v with
  | JArr l => nth i l JUndef
  | _ => JUndef
  end.

End JS.

(** ** The canonical query model ([types/ruleGroups.ts], [ruleGroupsIC.ts])

    A rule group holds rules, nested groups and, in the independent
    combinator variant, combinator tokens between siblings.  Optional JS
    properties are [option]s: a standard group has [Some] combinator, an
    IC group has none.  A rule carries a [not] property only where
    [parsePostgREST] spreads one into it ([{...rule, not: true}]). *)

Inductive ValueSource : Type := VSValue | VSField.

Record RuleType : Type := mkRule {
  r_id : option string;
  field : string;
  operator : string;
  value : json;
  valueSource : option ValueSource;
  r_not : option bool
}.

Inductive RuleGroup : Type :=
  mkGroup (g_id : option string) (g_combinator : option string)
          (g_not : option bool) (g_rules : list RuleOrGroup)
with RuleOrGroup : Type :=
| RRule (r : RuleType)
| RGroup (g : RuleGroup)
| RComb (c : string).

Definition rg_id (rg : RuleGroup) : option string :=
  let '(mkGroup i _ _ _) := rg in i.
Definition combinator (rg : RuleGroup) : option string :=
  let '(mkGroup _ c _ _) := rg in c.
Definition rg_not (rg : RuleGroup) : option bool :=
  let '(mkGroup _ _ n _) := rg in n.
Definition rules (rg : RuleGroup) : list RuleOrGroup :=
  let '(mkGroup _ _ _ rs) := rg in rs.

(** [isRuleGroup] is decided by the constructor here; [isRuleGroupType]
    additionally asks for a string [combinator]. *)
Definition isRuleGroupType (rg : RuleGroup) : bool :=
  match combinator rg with Some _ => true | None => false end.

(** [rg.not] used as a condition. *)
Definition notFlag (rg : RuleGroup) : bool :=
  match rg_not rg with Some b => b | None => false end.

(** ** Validation ([types/validation.ts]) *)

Inductive ValidationResult : Type :=
| VBool (b : bool)
| VRes (valid : bool) (reasons : list json).

Definition ValidationMap : Type := list (string * ValidationResult).

Inductive QueryValidatorResult : Type :=
| QVBool (b : bool)
| QVMap (m : ValidationMap).

Definition QueryValidator : Type := RuleGroup -> QueryValidatorResult.
Definition RuleValidator : Type := RuleType -> ValidationResult.

(** [validationMap[id]] *)
Fixpoint vm_get (m : ValidationMap) (k : string) : option ValidationResult :=
  match m with
  | [] => None
  | (k', v) :: m' => if (k =? k')%string then Some v else vm_get m' k
  end.

Definition vr_valid (vr : ValidationResult) : bool :=
  match vr with VBool b => b | VRes b _ => b end.

(** Modelled from the spec: [isRuleOrGroupValid] of
    [utils/isRuleOrGroupValid.ts], which is not among the sources.  A
    node is valid unless an explicit invalidity is recorded for it; for
    a rule without a recorded result the validator attached to its field,
    when there is one, decides. *)
Definition isRuleOrGroupValid_rule (r : RuleType)
    (validationResult : option ValidationResult)
    (validator : option RuleValidator) : bool :=
  match validationResult with
  | Some vr => vr_valid vr
  | None =>
      match validator with
      | Some f => vr_valid (f r)
      | None => true
      end
  end.

Definition isRuleOrGroupValid_group (rg : RuleGroup)
    (validationResult : option ValidationResult) : bool :=
  match validationResult with
  | Some vr => vr_valid vr
  | None => true
  end.

(** ** Export formats and processor options ([types/importExport.ts]) *)

Inductive ExportFormat : Type :=
| json_fmt | sql | json_without_ids | parameterized | parameterized_named
| mongodb | cel | jsonlogic | spel | elasticsearch | jsonata
| natural_language | postgrest.

Definition ExportFormat_eqb (a b : ExportFormat) : bool :=
  match a, b with
  | json_fmt, json_fmt | sql, sql | json_without_ids, json_without_ids
  | parameterized, parameterized
  | parameterized_named, parameterized_named
  | mongodb, mongodb | cel, cel | jsonlogic, jsonlogic | spel, spel
  | elasticsearch, elasticsearch | jsonata, jsonata
  | natural_language, natural_language | postgrest, postgrest => true
  | _, _ => false
  end.

Record FullField : Type := mkField {
  f_name : string;
  f_value : option string;
  f_label : string;
  f_validator : option RuleValidator
}.

(** The options object handed to rule and value processors
    ([ValueProcessorOptions]); every property is optional.  The
    [valueProcessor] property is passed beside the record. *)
Record ProcOptions : Type := mkProcOptions {
  po_parseNumbers : option bool;
  po_escapeQuotes : option bool;
  po_quoteFieldNamesWith : option (string * string);
  po_fieldIdentifierSeparator : option string;
  po_fieldData : option FullField;
  po_format : option ExportFormat;
  po_quoteValuesWith : option string;
  po_concatOperator : option string;
  po_fields : option (list FullField);
  po_getOperators : option (string -> FullField -> list json);
  po_fieldParamNames : option (list (string * list string));
  po_paramPrefix : option string;
  po_paramsKeepPrefix : option bool;
  po_numberedParams : option bool;
  po_fallbackExpression : option string;
  po_placeholderFieldName : option string;
  po_placeholderOperatorName : option string;
  po_validator : option QueryValidator
}.

Definition noProcOptions : ProcOptions :=
  mkProcOptions None None None None None None None None None None None None
                None None None None None None.

(** ** Character helpers *)

Module Chars.

Definition isWhite (c : ascii) : bool :=
  let n := nat_of_ascii c in
  (Nat.eqb n 32 || Nat.eqb n 9 || Nat.eqb n 10 || Nat.eqb n 11
   || Nat.eqb n 12 || Nat.eqb n 13)%bool.

Definition isDigit (c : ascii) : bool :=
  let n := nat_of_ascii c in (Nat.leb 48 n && Nat.leb n 57)%bool.

Definition lower (c : ascii) : ascii :=
  let n := nat_of_ascii c in
  if (Nat.leb 65 n && Nat.leb n 90)%bool then ascii_of_nat (n + 32) else c.

(** [s.toLowerCase()] on ASCII text. *)
Fixpoint toLowerCase (s : string) : string :=
  match s with
  | EmptyString => EmptyString
  | String c s' => String (lower c) (toLowerCase s')
  end.

Fixpoint trimStart (s : string) : string :=
  match s with
  | String c s' => if isWhite c then trimStart s' else s
  | EmptyString => EmptyString
  end.

Fixpoint rev_string (s acc : string) : string :=
  match s with
  | EmptyString => acc
  | String c s' => rev_string s' (String c acc)
  end.

(** [s.trim()] *)
Definition trim (s : string) : string :=
  rev_string (trimStart (rev_string (trimStart s) "")) "".

(** [s.split(',')] *)
Fixpoint splitComma (s cur : string) : list string :=
  match s with
  | EmptyString => [rev_string cur ""]
  | String c s' =>
      if Ascii.eqb c ","%char
      then rev_string cur "" :: splitComma s' ""
      else splitComma s' (String c cur)
  end.

Fixpoint allDigits (s : string) : bool :=
  match s with
  | EmptyString => true
  | String c s' => (isDigit c && allDigits s')%bool
  end.

Fixpoint digitsValue (s : string) (acc : Z) : Z :=
  match s with
  | EmptyString => acc
  | String c s' =>
      digitsValue s' (10 * acc + Z.of_nat (nat_of_ascii c - 48))
  end.

(** [/^str/.test(s)] for a literal [str]. *)
Definition startsWith (p s : string) : bool := String.prefix p s.

(** [/^[+-]?\d+$/] and the integer it denotes. *)
Definition signedDigits (s : string) : option Z :=
  match s with
  | String c s' =>
      if Ascii.eqb c "-"%char then
        if (negb (s' =? "")%string && allDigits s')%bool
        then Some (- digitsValue s' 0) else None
      else if Ascii.eqb c "+"%char then
        if (negb (s' =? "")%string && allDigits s')%bool
        then Some (digitsValue s' 0) else None
      else if allDigits s then Some (digitsValue s 0)
      else None
  | EmptyString => None
  end.

(** The text before and the text behind the first character that
    satisfies [p]; [None] when there is no such character. *)
Fixpoint splitAtFirst (p : ascii -> bool) (s : string)
  : option (string * string) :=
  match s with
  | EmptyString => None
  | String c s' =>
      if p c then Some (EmptyString, s')
      else match splitAtFirst p s' with
           | Some (a, b) => Some (String c a, b)
           | None => None
           end
  end.

End Chars.

(** ** Shared value utilities

    [toArray], [parseNumber], [isValidValue] and [shouldRenderAsNumber]
    live in [utils/arrayUtils.ts], [utils/parseNumber.ts] and
    [utils/formatQuery/utils.ts], none of which is among the sources. *)

Module Utils.

(** Modelled from the spec: the numeric-literal pattern of the
    [parseNumbers] option: an optional sign, digits, an optional
    fractional part and an optional exponent.  The digits stand before
    the point, behind it, or both; the exponent is [e] or [E], an
    optional sign and digits; blanks may surround the literal.  The
    result is the number the literal denotes, [None] when the text does
    not match. *)
Definition numericLiteral (s : string) : option json :=
  let t := Chars.trim s in
  let '(neg, body) :=
    match t with
    | String c t' =>
        if Ascii.eqb c "-"%char then (true, t')
        else if Ascii.eqb c "+"%char then (false, t')
        else (false, t)
    | EmptyString => (false, t)
    end in
  let '(significand, exponent) :=
    match Chars.splitAtFirst
            (fun c => (Ascii.eqb c "e"%char || Ascii.eqb c "E"%char)%bool)
            body with
    | Some (a, b) => (a, Chars.signedDigits b)
    | None => (body, Some 0)
    end in
  let '(whole, fraction, dotted) :=
    match Chars.splitAtFirst (fun c => Ascii.eqb c "."%char) significand with
    | Some (a, b) => (a, b, true)
    | None => (significand, "", false)
    end in
  let someDigit :=
    if dotted then negb ((whole =? "") && (fraction =? ""))%string
    else negb (whole =? "")%string in
  match exponent with
  | Some e =>
      if (someDigit && Chars.allDigits whole
          && Chars.allDigits fraction)%bool
      then
        let digits := Chars.digitsValue (whole ++ fraction) 0 in
        let m := if neg then - digits else digits in
        let shift := e - Z.of_nat (String.length fraction) in
        Some (if 0 <=? shift then JNum (m * 10 ^ shift)
              else JS.decimal m (Z.to_nat (- shift)))
      else None
  | None => None
  end.

(** Modelled from the spec: [shouldRenderAsNumber(v, parseNumbers)]:
    with the option on, a number or a string matching the
    numeric-literal pattern is rendered as a number. *)
Definition shouldRenderAsNumber (v : json) (parseNumbers : bool) : bool :=
  (parseNumbers &&
   match v with
   | JNum _ | JFrac _ => true
   | JStr s => match numericLiteral s with Some _ => true | None => false end
   | _ => false
   end)%bool.

(** Modelled from the spec: [parseNumber(v, {parseNumbers})] coerces a
    numeric-literal string to the number it denotes and leaves every
    other value alone. *)
Definition parseNumber (v : json) (parseNumbers : bool) : json :=
  if parseNumbers then
    match v with
    | JStr s => match numericLiteral s with Some n => n | None => v end
    | _ => v
    end
  else v.

(** Modelled from the spec: [isValidValue]: a non-empty string, a
    number, or any value of another type. *)
Definition isValidValue (v : json) : bool :=
  match v with
  | JStr s => negb (s =? "")%string
  | _ => true
  end.

Definition trimIfString (v : json) : json :=
  match v with JStr s => JStr (Chars.trim s) | _ => v end.

(** Modelled from the spec: [toArray]: an array is taken as it is (its
    strings trimmed), a string is a comma-separated list whose blank
    items are dropped and whose items are trimmed, a number is a
    one-element list, anything else is the empty list. *)
Definition toArray (v : json) : list json :=
  match v with
  | JArr l => map trimIfString l
  | JStr s =>
      map (fun x => JStr (Chars.trim x))
          (filter (fun x => negb (Chars.trim x =? "")%string)
                  (Chars.splitComma s ""))
  | JNum _ | JFrac _ => [v]
  | _ => []
  end.

(** Modelled from the spec: [joinWith(strings, ',')], the
    comma-joined string form of a list. *)
Definition joinWith (l : list string) (sep : string) : string :=
  JS.join sep l.

End Utils.

(** ** [defaultRuleProcessorPostgREST.ts] *)

Module PostgRESTProcessor.

(** [convertOperator]: three anchored replacements in sequence. *)
Definition convertOperator (op : string) : string :=
  let op1 := if (op =? "=")%string then "==" else op in
  let op2 := if (Chars.toLowerCase op1 =? "notnull")%string
             then "neq" else op1 in
  if (Chars.toLowerCase op2 =? "null")%string then "==" else op2.

(** [/^(does)?not/i.test(op)] *)
Definition isNotOp (op : string) : bool :=
  let l := Chars.toLowerCase op in
  (Chars.startsWith "not" l || Chars.startsWith "doesnot" l)%bool.

Definition negateIfNotOp (op : string) (jsonRule : json) : json :=
  if isNotOp op then JObj [("not", jsonRule)] else jsonRule.

Definition parseNumbersOf (o : ProcOptions) : bool :=
  match po_parseNumbers o with Some b => b | None => false end.

Definition defaultRuleProcessorPostgREST (rule : RuleType)
    (opts : ProcOptions) : json :=
  let parseNumbers := parseNumbersOf opts in
  let valueIsField :=
    match valueSource rule with Some VSField => true | _ => false end in
  let fieldObject := JObj [("var", JStr (field rule))] in
  let fieldOrNumberRenderer (v : json) : json :=
    if valueIsField then JObj [("var", JStr (JS.toString v))]
    else if Utils.shouldRenderAsNumber v parseNumbers
         then Utils.parseNumber v parseNumbers
         else v in
  let operator := operator rule in
  let value := value rule in
  let opIs (s : string) := (operator =? s)%string in
  if (opIs "<" || opIs "<=" || opIs "=" || opIs "!=" || opIs ">" || opIs ">=")%bool then
    JObj [(convertOperator operator,
           JArr [fieldObject; fieldOrNumberRenderer value])]
  else if (opIs "null" || opIs "notNull")%bool then
    JObj [((if opIs "notNull" then "!" else "=") ++ "=",
           JArr [fieldObject; JNull])]
  else if (opIs "in" || opIs "notIn")%bool then
    let valueAsArray := map fieldOrNumberRenderer (Utils.toArray value) in
    negateIfNotOp operator
      (JObj [("in", JArr [fieldObject; JArr valueAsArray])])
  else if (opIs "between" || opIs "notBetween")%bool then
    match Utils.toArray value with
    | first :: second :: _ =>
        if (Utils.isValidValue first && Utils.isValidValue second)%bool then
          let '(first', second') :=
            if (negb valueIsField
                && Utils.shouldRenderAsNumber first true
                && Utils.shouldRenderAsNumber second true)%bool then
              let firstNum := Utils.parseNumber first true in
              let secondNum := Utils.parseNumber second true in
              if JS.lessThan secondNum firstNum
              then (secondNum, firstNum)
              else (firstNum, secondNum)
            else if valueIsField then
              (JObj [("var", first)], JObj [("var", second)])
            else (first, second) in
          negateIfNotOp operator
            (JObj [("<=", JArr [first'; fieldObject; second'])])
        else JBool false
    | _ => JBool false
    end
  else if (opIs "contains" || opIs "doesNotContain")%bool then
    negateIfNotOp operator
      (JObj [("in", JArr [fieldOrNumberRenderer value; fieldObject])])
  else if (opIs "beginsWith" || opIs "doesNotBeginWith")%bool then
    negateIfNotOp operator
      (JObj [("startsWith", JArr [fieldObject; fieldOrNumberRenderer value])])
  else if (opIs "endsWith" || opIs "doesNotEndWith")%bool then
    negateIfNotOp operator
      (JObj [("endsWith", JArr [fieldObject; fieldOrNumberRenderer value])])
  else JBool false.

End PostgRESTProcessor.

(** ** Completions

    A call either returns or throws a [TypeError] (reading a property of
    [null], calling [.map] on a non-array, destructuring a
    non-iterable). *)

Inductive Completion (A : Type) : Type :=
| Normal (a : A)
| TypeError.
Arguments Normal {A} a.
Arguments TypeError {A}.

Definition bindC {A B} (c : Completion A) (k : A -> Completion B)
  : Completion B :=
  match c with Normal a => k a | TypeError => TypeError end.

Notation "x <- c ;; k" := (bindC c (fun x => k))
  (at level 61, c at next level, right associativity).

(** Left-to-right evaluation of a list of computations. *)
Fixpoint sequenceC {A} (l : list (Completion A)) : Completion (list A) :=
  match l with
  | [] => Normal []
  | c :: l' => x <- c ;; xs <- sequenceC l' ;; Normal (x :: xs)
  end.

(** [a || b] and [a && b] over conditions that may throw. *)
Definition orC (a b : Completion bool) : Completion bool :=
  x <- a ;; if x then Normal true else b.
Definition andC (a b : Completion bool) : Completion bool :=
  x <- a ;; if x then b else Normal false.

(** Drop the [false] results: [.filter(Boolean)] on parsed nodes. *)
Fixpoint somes {A} (l : list (option A)) : list A :=
  match l with
  | [] => []
  | Some a :: l' => a :: somes l'
  | None :: l' => somes l'
  end.

(** ** Type guards of [parsePostgREST/utils.ts] *)

Module Guards.

Definition obj (logic : json) : option (list (string * json)) :=
  match logic with JObj o => Some o | _ => None end.

(** [isPojo(logic) && key in logic] *)
Definition hasOp (k : string) (logic : json) : bool :=
  match logic with JObj o => JS.hasKey k o | _ => false end.

Definition isPostgRESTVar (logic : json) : bool := hasOp "var" logic.

Definition isRQBPostgRESTVar (logic : json) : bool :=
  (isPostgRESTVar logic &&
   match logic with
   | JObj o => match JS.get "var" o with JStr _ => true | _ => false end
   | _ => false
   end)%bool.

(** [logic.var] of a recognised variable reference. *)
Definition varName (logic : json) : string :=
  match logic with
  | JObj o => match JS.get "var" o with JStr s => s | _ => "" end
  | _ => ""
  end.

Definition isPostgRESTEqual := hasOp "==".
Definition isPostgRESTStrictEqual := hasOp "===".
Definition isPostgRESTNotEqual := hasOp "!=".
Definition isPostgRESTStrictNotEqual := hasOp "!==".
Definition isPostgRESTNegation := hasOp "!".
Definition isPostgRESTDoubleNegation := hasOp "!!".
Definition isPostgRESTOr := hasOp "or".
Definition isPostgRESTAnd := hasOp "and".
Definition isPostgRESTGreaterThan := hasOp ">".
Definition isPostgRESTGreaterThanOrEqual := hasOp ">=".

(** [v.length === n]; reading [.length] of [null] or [undefined]
    throws, an object answers with its own [length] property. *)
Definition lengthIs (v : json) (n : nat) : Completion bool :=
  match v with
  | JNull | JUndef => TypeError
  | JObj o => Normal match JS.get "length" o with
                     | JNum m => m =? Z.of_nat n
                     | _ => false
                     end
  | _ => Normal match JS.lengthOf v with
                | Some m => Nat.eqb m n
                | None => false
                end
  end.

Definition opArg (k : string) (logic : json) : json :=
  match logic with JObj o => JS.get k o | _ => JUndef end.

Definition isPostgRESTLessThan (logic : json) : Completion bool :=
  if hasOp "<" logic then lengthIs (opArg "<" logic) 2 else Normal false.

Definition isPostgRESTLessThanOrEqual (logic : json) : Completion bool :=
  if hasOp "<=" logic then lengthIs (opArg "<=" logic) 2 else Normal false.

(** [v[i]]; indexing [null] or [undefined] throws, a string yields its
    character, a number or boolean yields [undefined]. *)
Definition indexC (v : json) (i : nat) : Completion json :=
  match v with
  | JNull | JUndef => TypeError
  | JArr l => Normal (nth i l JUndef)
  | JStr s => Normal match String.get i s with
                     | Some c => JStr (String c EmptyString)
                     | None => JUndef
                     end
  | JObj o => Normal (JS.get (JS.num_toString (Z.of_nat i)) o)
  | _ => Normal JUndef
  end.

Definition isPostgRESTInArray (logic : json) : Completion bool :=
  if hasOp "in" logic
  then x <- indexC (opArg "in" logic) 1 ;; Normal (JS.isArray x)
  else Normal false.

Definition isPostgRESTInString (logic : json) : Completion bool :=
  if hasOp "in" logic
  then x <- indexC (opArg "in" logic) 1 ;; Normal (negb (JS.isArray x))
  else Normal false.

Definition isArrayOfLength (v : json) (n : nat) : bool :=
  match v with JArr l => Nat.eqb (List.length l) n | _ => false end.

Definition isPostgRESTBetweenExclusive (logic : json) : bool :=
  (hasOp "<" logic && isArrayOfLength (opArg "<" logic) 3)%bool.

Definition isPostgRESTBetweenInclusive (logic : json) : bool :=
  (hasOp "<=" logic && isArrayOfLength (opArg "<=" logic) 3)%bool.

Definition isRQBPostgRESTStartsWith := hasOp "startsWith".
Definition isRQBPostgRESTEndsWith := hasOp "endsWith".

End Guards.

(** ** [parsePostgREST.ts] *)

(** Modelled from the spec: the constant [defaultOperatorNegationMap] of
    [defaults.ts], restricted to the five operators [processLogic] looks
    up: each maps to its negated counterpart. *)
Definition defaultOperatorNegationMap (op : string) : string :=
  if (op =? "between")%string then "notBetween"
  else if (op =? "in")%string then "notIn"
  else if (op =? "contains")%string then "doesNotContain"
  else if (op =? "beginsWith")%string then "doesNotBeginWith"
  else if (op =? "endsWith")%string then "doesNotEndWith"
  else op.

(** The operators [negateIfNotOp] wraps. *)
Definition negatedOperators : list string :=
  ["notIn"; "notBetween"; "doesNotContain"; "doesNotBeginWith";
   "doesNotEndWith"].

Fixpoint intersperse {A} (sep : A) (l : list A) : list A :=
  match l with
  | [] => []
  | [x] => [x]
  | x :: l' => x :: sep :: intersperse sep l'
  end.

(** Modelled from the spec: [convertToIC] of [utils/convertQuery.ts]:
    the group's single combinator becomes an explicit token between every
    pair of siblings, recursively, and the group loses its own
    [combinator].  The function works on the [rules] of its argument:
    handed a rule, which has none, it throws (see [parsePostgREST]). *)
Fixpoint convertToIC (rg : RuleGroup) : RuleGroup :=
  match rg with
  | mkGroup i c n rs =>
      let rs' := map (fun r => match r with
                               | RGroup g => RGroup (convertToIC g)
                               | other => other
                               end) rs in
      match c with
      | Some comb => mkGroup i None n (intersperse (RComb comb) rs')
      | None => mkGroup i None n rs'
      end
  end.

(** What [processLogic] hands back besides [false]: a rule or a group. *)
Inductive Parsed : Type :=
| PRule (r : RuleType)
| PGroup (g : RuleGroup).

Definition toRuleOrGroup (p : Parsed) : RuleOrGroup :=
  match p with PRule r => RRule r | PGroup g => RGroup g end.

(** The options of [parsePostgREST].  [fieldIsValid] is the closure the
    function builds from the [fields] and [getValueSources] options
    through [fieldIsValidUtil] ([utils/parserUtils.ts], not among the
    sources). *)
Record ParsePostgRESTOptions : Type := mkParseOptions {
  fieldIsValid : string -> string -> option string -> bool;
  listsAsArrays : bool;
  PostgRESTOperations : option (list (string * (json -> option Parsed)));
  independentCombinators : bool
}.

(** Modelled from the spec: without a field registry every field is
    valid, so the default options accept every reconstructed rule. *)
Definition defaultParseOptions : ParsePostgRESTOptions :=
  mkParseOptions (fun _ _ _ => true) false None false.

Definition emptyRuleGroup : RuleGroup := mkGroup None (Some "and") None [].

Module Parse.

(** [Object.entries(logic || {})?.[0] ?? []] *)
Definition firstEntry (logic : json) : option string * json :=
  match logic with
  | JObj ((k, v) :: _) => (Some k, v)
  | JArr (x :: _) => (Some "0", x)
  | JStr (String c _) => (Some "0", JStr (String c EmptyString))
  | _ => (None, JUndef)
  end.

(** [const [first, second] = keyValue]: only arrays and strings are
    iterable among these values. *)
Definition destructure2 (v : json) : Completion (json * json) :=
  match v with
  | JArr l => Normal (nth 0 l JUndef, nth 1 l JUndef)
  | JStr s =>
      let ch i := match String.get i s with
                  | Some c => JStr (String c EmptyString)
                  | None => JUndef
                  end in
      Normal (ch 0%nat, ch 1%nat)
  | _ => TypeError
  end.

Definition isString (v : json) := match v with JStr _ => true | _ => false end.
Definition isNumber (v : json) :=
  match v with JNum _ | JFrac _ => true | _ => false end.
Definition isBoolean (v : json) := match v with JBool _ => true | _ => false end.
Definition isNull (v : json) := match v with JNull => true | _ => false end.

(** The three [every(el => typeof el === ...)] tests. *)
Definition sameScalarType (vs : list json) : bool :=
  (forallb isString vs || forallb isNumber vs || forallb isBoolean vs)%bool.

(** Result of the recursive call at property [k] of an object. *)
Definition atKey {R} (k : string) (f : json -> R) (dflt : R)
  : list (string * json) -> R :=
  fix find o :=
    match o with
    | [] => dflt
    | (k', v) :: o' => if (k =? k')%string then f v else find o'
    end.

Fixpoint lookupOp {F} (k : string) (ops : list (string * F)) : option F :=
  match ops with
  | [] => None
  | (k', f) :: ops' => if (k =? k')%string then Some f else lookupOp k ops'
  end.

Section WithOptions.

Variable options : ParsePostgRESTOptions.

Definition wrapOutermost (outermost : bool) (r : RuleType) : Parsed :=
  if outermost then PGroup (mkGroup None (Some "and") None [RRule r])
  else PRule r.

(** The branch of [processLogic] for the binary operations. *)
Definition processBasic (logic : json) (key : option string)
    (keyValue : json) (outermost : bool) : Completion (option Parsed) :=
  fs <- destructure2 keyValue ;;
  let '(first, second) := fs in
  let located : option (string * json * option ValueSource) :=
    if (Guards.isRQBPostgRESTVar first && negb (JS.isPojo second))%bool
    then Some (Guards.varName first, second, None)
    else if (negb (JS.isPojo first) && Guards.isRQBPostgRESTVar second)%bool
    then Some (Guards.varName second, first, None)
    else if (Guards.isRQBPostgRESTVar first
             && Guards.isRQBPostgRESTVar second)%bool
    then Some (Guards.varName first, JStr (Guards.varName second),
               Some VSField)
    else None in
  match located with
  | None => Normal None
  | Some (field, value, valueSource) =>
      operator <-
        (if (Guards.isPostgRESTEqual logic
             || Guards.isPostgRESTStrictEqual logic)%bool
         then Normal (if isNull value then "null" else "=")
         else if (Guards.isPostgRESTNotEqual logic
                  || Guards.isPostgRESTStrictNotEqual logic)%bool
         then Normal (if isNull value then "notNull" else "!=")
         else
           inStr <- Guards.isPostgRESTInString logic ;;
           if inStr then Normal "contains"
           else if Guards.isRQBPostgRESTStartsWith logic
           then Normal "beginsWith"
           else if Guards.isRQBPostgRESTEndsWith logic
           then Normal "endsWith"
           else Normal match key with
                       | Some k => k
                       | None => "undefined"
                       end) ;;
      let sub := match valueSource with
                 | Some VSField => Some (JS.toString value)
                 | _ => None
                 end in
      if fieldIsValid options field operator sub
      then Normal (Some (wrapOutermost outermost
                           (mkRule None field operator value valueSource
                                   None)))
      else Normal None
  end.

(** The disjunction of guards in front of the binary branch. *)
Definition isBasic (logic : json) : Completion bool :=
  orC (Normal (Guards.isPostgRESTEqual logic))
 (orC (Normal (Guards.isPostgRESTStrictEqual logic))
 (orC (Normal (Guards.isPostgRESTNotEqual logic))
 (orC (Normal (Guards.isPostgRESTStrictNotEqual logic))
 (orC (Normal (Guards.isPostgRESTGreaterThan logic))
 (orC (Normal (Guards.isPostgRESTGreaterThanOrEqual logic))
 (orC (Guards.isPostgRESTLessThan logic)
 (orC (Guards.isPostgRESTLessThanOrEqual logic)
 (orC (Guards.isPostgRESTInString logic)
 (orC (Normal (Guards.isRQBPostgRESTStartsWith logic))
      (Normal (Guards.isRQBPostgRESTEndsWith logic))))))))))).

Definition listValue (l : list json) : json :=
  if listsAsArrays options then JArr l
  else JStr (Utils.joinWith (map JS.toString l) ",").

Definition validSubordinates (field operator : string) (vars : list json)
  : list json :=
  map JStr
    (filter (fun sf => fieldIsValid options field operator (Some sf))
            (map Guards.varName vars)).

Definition lengthAtLeast (v : json) (n : nat) : bool :=
  match JS.lengthOf v with Some m => Nat.leb n m | None => false end.

(** The branch for [{"<=": [a, {var}, b]}]. *)
Definition processBetweenInclusive (logic : json) : option RuleType :=
  let arg := Guards.opArg "<=" logic in
  let field := Guards.varName (JS.index arg 1) in
  let operator := "between" in
  let values := [JS.index arg 0; JS.index arg 2] in
  let '(value, valueSource) :=
    if forallb Guards.isRQBPostgRESTVar
               (match arg with JArr l => l | _ => [] end)
    then (listValue (validSubordinates field operator values),
          Some VSField)
    else if sameScalarType values then (listValue values, None)
    else (JStr "", None) in
  if (fieldIsValid options field operator None
      && lengthAtLeast value 2)%bool
  then Some (mkRule None field operator value valueSource None)
  else None.

(** The branch for [{"in": [{var}, [...]]}]. *)
Definition processInArray (logic keyValue : json) : option RuleType :=
  let field := Guards.varName (JS.index keyValue 0) in
  let operator := "in" in
  let items := match JS.index (Guards.opArg "in" logic) 1 with
               | JArr l => l
               | _ => []
               end in
  let '(value, valueSource) :=
    if forallb Guards.isRQBPostgRESTVar items
    then (listValue (validSubordinates field operator items),
          Some VSField)
    else if sameScalarType items then (listValue items, None)
    else (JStr "", None) in
  if lengthAtLeast value 1
  then Some (mkRule None field operator value valueSource None)
  else None.

(** The object a chained exclusive comparison is rewritten to before
    [processLogic] is entered again. *)
Definition exclusiveAsAnd (field : string) (lo hi : json) : json :=
  let v := JObj [("var", JStr field)] in
  JObj [("and", JArr [JObj [(">", JArr [v; lo])];
                      JObj [("<", JArr [v; hi])]])].

(** Everything of [processLogic] below the group, negation and
    custom-operation cases.  [reenter] is [processLogic] itself,
    called on the rewritten exclusive comparison. *)
Definition processLeaf (reenter : json -> Completion (option Parsed))
    (logic : json) (key : option string) (keyValue : json)
    (outermost : bool) : Completion (option Parsed) :=
  basic <- isBasic logic ;;
  if basic then processBasic logic key keyValue outermost
  else if (Guards.isPostgRESTBetweenExclusive logic
           && Guards.isRQBPostgRESTVar
                (JS.index (Guards.opArg "<" logic) 1))%bool
  then
    let arg := Guards.opArg "<" logic in
    let field := Guards.varName (JS.index arg 1) in
    let values := [JS.index arg 0; JS.index arg 2] in
    if (forallb Guards.isRQBPostgRESTVar values
        || sameScalarType values)%bool
    then reenter (exclusiveAsAnd field (JS.index arg 0) (JS.index arg 2))
    else Normal None
  else if (Guards.isPostgRESTBetweenInclusive logic
           && Guards.isRQBPostgRESTVar
                (JS.index (Guards.opArg "<=" logic) 1))%bool
  then Normal (option_map (wrapOutermost outermost)
                          (processBetweenInclusive logic))
  else
    inArr <- andC (Guards.isPostgRESTInArray logic)
                  (x <- Guards.indexC keyValue 0 ;;
                   Normal (Guards.isRQBPostgRESTVar x)) ;;
    if inArr
    then Normal (option_map (wrapOutermost outermost)
                            (processInArray logic keyValue))
    else Normal None.

Definition isGroup (p : Parsed) : bool :=
  match p with PGroup _ => true | PRule _ => false end.

Definition isNegatable (op : string) : bool :=
  ((op =? "between") || (op =? "in") || (op =? "contains")
   || (op =? "beginsWith") || (op =? "endsWith"))%string.

Definition setOperator (r : RuleType) (op : string) : RuleType :=
  mkRule (r_id r) (field r) op (value r) (valueSource r) (r_not r).

(** [{ ...rule, not: true }] *)
Definition setNot (p : Parsed) : Parsed :=
  match p with
  | PRule r =>
      PRule (mkRule (r_id r) (field r) (operator r) (value r)
                    (valueSource r) (Some true))
  | PGroup (mkGroup i c _ rs) => PGroup (mkGroup i c (Some true) rs)
  end.

(** What the negation case makes of the parsed operand. *)
Definition negate (operand : json) (outermost : bool)
    (rule : option Parsed) : option Parsed :=
  match rule with
  | None => None
  | Some p =>
      match p with
      | PRule r =>
          if isNegatable (operator r) then
            let newRule :=
              setOperator r (defaultOperatorNegationMap (operator r)) in
            Some (wrapOutermost outermost newRule)
          else if Guards.isPostgRESTBetweenExclusive operand
          then Some (setNot p)
          else Some (PGroup (mkGroup None (Some "and") (Some true)
                                     [toRuleOrGroup p]))
      | PGroup g =>
          if (Guards.isPostgRESTBetweenExclusive operand
              || isRuleGroupType g)%bool
          then Some (setNot p)
          else Some (PGroup (mkGroup None (Some "and") (Some true)
                                     [toRuleOrGroup p]))
      end
  end.

Definition groupOf (comb : string) (rs : list (option Parsed)) : Parsed :=
  PGroup (mkGroup None (Some comb) None (map toRuleOrGroup (somes rs))).

Fixpoint processLogicWith (reenter : json -> Completion (option Parsed))
    (outermost : bool) (logic : json) {struct logic}
  : Completion (option Parsed) :=
  if (outermost && negb (JS.isPojo logic))%bool then Normal None
  else
    let '(key, keyValue) := firstEntry logic in
    let custom :=
      match PostgRESTOperations options, key with
      | Some ops, Some k => lookupOp k ops
      | _, _ => None
      end in
    match custom with
    | Some f =>
        Normal match f keyValue with
               | Some (PRule r) => Some (wrapOutermost outermost r)
               | Some (PGroup g) => Some (PGroup g)
               | None => None
               end
    | None =>
        match logic with
        | JObj o =>
            let children (v : json) :=
              match v with
              | JArr l =>
                  sequenceC (map (processLogicWith reenter false) l)
              | _ => TypeError
              end in
            if JS.hasKey "and" o then
              rs <- atKey "and" children TypeError o ;;
              Normal (Some (groupOf "and" rs))
            else if JS.hasKey "or" o then
              rs <- atKey "or" children TypeError o ;;
              Normal (Some (groupOf "or" rs))
            else if JS.hasKey "!" o then
              rule <- atKey "!" (processLogicWith reenter false)
                            (Normal None) o ;;
              Normal (negate (JS.get "!" o) outermost rule)
            else if JS.hasKey "!!" o then
              atKey "!!" (processLogicWith reenter false) (Normal None) o
            else processLeaf reenter logic key keyValue outermost
        | _ => Normal None
        end
    end.

(** [processLogic]: the rewritten exclusive comparison holds no
    chained comparison any more, so one level of re-entry is all the
    recursion there is (see [reentry_closed]). *)
Definition processLogic (logic : json) (outermost : bool)
  : Completion (option Parsed) :=
  processLogicWith
    (processLogicWith (fun _ => Normal None) false) outermost logic.

(** [JSON.parse], the runtime's: [None] when it throws. *)
Variable JSON_parse : string -> option json.

Definition parsePostgREST (rqbPostgREST : json) : Completion Parsed :=
  let finish (logicRoot : json) :=
    result <- processLogic logicRoot true ;;
    let finalQuery := match result with
                      | Some p => p
                      | None => PGroup emptyRuleGroup
                      end in
    if independentCombinators options
    then match finalQuery with
         | PGroup g => Normal (PGroup (convertToIC g))
         | PRule _ => TypeError
         end
    else Normal finalQuery in
  match rqbPostgREST with
  | JStr s =>
      match JSON_parse s with
      | Some logicRoot => finish logicRoot
      | None => Normal (PGroup emptyRuleGroup)
      end
  | _ => finish rqbPostgREST
  end.

End WithOptions.

End Parse.

(** ** Rule and value processors ([types/importExport.ts])

    A rule processor is caller code.  In the parameterized formats it is
    handed [getNextNamedParam], a closure over the traversal's parameter
    registry; a processor is therefore a small interaction: it returns,
    throws, or asks for the next parameter name of a field and goes on
    with the answer. *)

Inductive PM (A : Type) : Type :=
| PRet (a : A)
| PThrow
| PNext (field : string) (k : string -> PM A).
Arguments PRet {A} a.
Arguments PThrow {A}.
Arguments PNext {A} field k.

(** The [valueProcessor] property of the options object, as the default
    rule processors call it. *)
Definition ValueProcessor : Type :=
  RuleType -> ProcOptions -> Completion json.

(** [(rule, options, meta) => any]; [meta.processedParams] is the list of
    positional parameters collected so far. *)
Definition RuleProcessor : Type :=
  RuleType -> ProcOptions -> option ValueProcessor -> option (list json)
  -> PM json.

(** A processor called without [getNextNamedParam] in its options:
    asking for a parameter name calls [undefined]. *)
Definition runNoParams {A} (m : PM A) : Completion A :=
  match m with
  | PRet a => Normal a
  | PThrow => TypeError
  | PNext _ _ => TypeError
  end.

(** The two shapes of a custom [valueProcessor]; [isValueProcessorLegacy]
    tells them apart. *)
Inductive CustomValueProcessor : Type :=
| VPLegacy (f : string -> string -> json -> option ValueSource -> json)
| VPByRule (f : RuleType -> ProcOptions -> json).

Inductive SQLPreset : Type :=
| ansi | sqlite | postgresql | mysql | mssql | oracle.

Inductive QuoteFieldNamesWith : Type :=
| QuoteOne (q : string)
| QuotePair (pre post : string).

Record FormatQueryOptions : Type := mkFormatOptions {
  o_format : option ExportFormat;
  o_valueProcessor : option CustomValueProcessor;
  o_ruleProcessor : option RuleProcessor;
  o_quoteFieldNamesWith : option QuoteFieldNamesWith;
  o_fieldIdentifierSeparator : option string;
  o_quoteValuesWith : option string;
  o_validator : option QueryValidator;
  o_fields : option (list FullField);
  o_getOperators : option (string -> FullField -> option (list json));
  o_fallbackExpression : option string;
  o_paramPrefix : option string;
  o_paramsKeepPrefix : option bool;
  o_numberedParams : option bool;
  o_parseNumbers : option bool;
  o_placeholderFieldName : option string;
  o_placeholderOperatorName : option string;
  o_concatOperator : option string;
  o_preset : option SQLPreset
}.

Definition noFormatOptions : FormatQueryOptions :=
  mkFormatOptions None None None None None None None None None None None
                  None None None None None None None.

(** The second argument of [formatQuery]: a format name or an options
    object. *)
Inductive FormatArg : Type :=
| ByName (format : ExportFormat)
| ByOptions (options : FormatQueryOptions).

(** The code [formatQuery] imports from files that are not among the
    sources: the default processors of the other dialects, the IC
    conversion, the option lookup and the numeric transform.  The
    [fields] option and the result of [getOperators] are modelled as the
    flat lists of full option objects that [toFullOptionList] and
    [toFlatOptionArray] present them as; [numerifyValues] stands for
    [produce(ruleGroup, numerifyValues)], the transformed copy. *)
Record Collaborators : Type := mkCollaborators {
  defaultRuleProcessorSQL : RuleProcessor;
  defaultRuleProcessorNL : RuleProcessor;
  defaultRuleProcessorParameterized : RuleProcessor;
  defaultRuleProcessorMongoDB : RuleProcessor;
  defaultRuleProcessorCEL : RuleProcessor;
  defaultRuleProcessorSpEL : RuleProcessor;
  defaultRuleProcessorJsonLogic : RuleProcessor;
  defaultRuleProcessorElasticSearch : RuleProcessor;
  defaultRuleProcessorJSONata : RuleProcessor;
  defaultValueProcessorByRule : ValueProcessor;
  defaultValueProcessorNL : ValueProcessor;
  convertFromIC : RuleGroup -> RuleGroup;
  getOption : list FullField -> string -> option FullField;
  getQuoteFieldNamesWithArray :
    option QuoteFieldNamesWith -> string * string;
  numerifyValues : RuleGroup -> RuleGroup
}.

Definition defaultPlaceholderFieldName : string := "~".
Definition defaultPlaceholderOperatorName : string := "~".

(** Modelled from the spec: [celCombinatorMap] of
    [utils/formatQuery/utils.ts], the CEL keywords for the two
    combinators; any other name has no entry. *)
Definition celCombinatorMap (c : string) : json :=
  if (c =? "and")%string then JStr "&&"
  else if (c =? "or")%string then JStr "||"
  else JUndef.

(** ** [JSON.stringify] on query trees *)

Module Stringify.

Definition dquote : string := String (ascii_of_nat 34) EmptyString.
Definition backslash : string := String (ascii_of_nat 92) EmptyString.
Definition newline : string := String (ascii_of_nat 10) EmptyString.

(** [QuoteJSONString]: the quote, the backslash and the common control
    characters are escaped. *)
Fixpoint escape (s : string) : string :=
  match s with
  | EmptyString => EmptyString
  | String c s' =>
      let n := nat_of_ascii c in
      (if Nat.eqb n 34 then backslash ++ dquote
       else if Nat.eqb n 92 then backslash ++ backslash
       else if Nat.eqb n 10 then backslash ++ "n"
       else if Nat.eqb n 13 then backslash ++ "r"
       else if Nat.eqb n 9 then backslash ++ "t"
       else String c EmptyString) ++ escape s'
  end.

Definition quote (s : string) : string := dquote ++ escape s ++ dquote.

Definition isUndef (v : json) : bool :=
  match v with JUndef => true | _ => false end.

(** [SerializeJSONProperty] with the given [gap] at the current
    [indent]; properties whose value is [undefined] are left out, an
    [undefined] array element prints as [null]. *)
Fixpoint serialize (gap indent : string) (v : json) : string :=
  let inner := indent ++ gap in
  let wrap (opening closing : string) (parts : list string) :=
    match parts with
    | [] => opening ++ closing
    | _ =>
        if (gap =? "")%string
        then opening ++ JS.join "," parts ++ closing
        else opening ++ newline ++ inner
             ++ JS.join ("," ++ newline ++ inner) parts
             ++ newline ++ indent ++ closing
    end in
  match v with
  | JUndef | JNull => "null"
  | JBool true => "true"
  | JBool false => "false"
  | JNum n => JS.num_toString n
  | JFrac d => JS.frac_toString d
  | JStr s => quote s
  | JArr l => wrap "[" "]" (map (serialize gap inner) l)
  | JObj o =>
      wrap "{" "}"
        ((fix props (o : list (string * json)) : list string :=
            match o with
            | [] => []
            | (k, x) :: o' =>
                if isUndef x then props o'
                else (quote k ++ ":"
                      ++ (if (gap =? "")%string then "" else " ")
                      ++ serialize gap inner x) :: props o'
            end) o)
  end.

(** The replacer of the [json_without_ids] format: every [id] and
    [path] property is removed, everything else is unchanged. *)
Fixpoint withoutIds (v : json) : json :=
  match v with
  | JArr l => JArr (map withoutIds l)
  | JObj o =>
      JObj ((fix props (o : list (string * json)) :=
               match o with
               | [] => []
               | (k, x) :: o' =>
                   if ((k =? "id") || (k =? "path"))%string then props o'
                   else (k, withoutIds x) :: props o'
               end) o)
  | other => other
  end.

Definition optProp (k : string) (v : option json) : list (string * json) :=
  match v with Some x => [(k, x)] | None => [] end.

Definition valueSourceName (vs : ValueSource) : string :=
  match vs with VSValue => "value" | VSField => "field" end.

(** The rule as the JS object it is; properties in the order [id],
    [field], [operator], [value], [valueSource], [not]. *)
Definition ofRule (r : RuleType) : json :=
  JObj (optProp "id" (option_map JStr (r_id r))
        ++ [("field", JStr (field r)); ("operator", JStr (operator r));
            ("value", value r)]
        ++ optProp "valueSource"
             (option_map (fun vs => JStr (valueSourceName vs))
                         (valueSource r))
        ++ optProp "not" (option_map JBool (r_not r))).

(** The group as the JS object it is; properties in the order [id],
    [combinator], [not], [rules]. *)
Fixpoint ofGroup (rg : RuleGroup) : json :=
  match rg with
  | mkGroup i c n rs =>
      JObj (optProp "id" (option_map JStr i)
            ++ optProp "combinator" (option_map JStr c)
            ++ optProp "not" (option_map JBool n)
            ++ [("rules",
                 JArr (map (fun r => match r with
                                     | RRule r => ofRule r
                                     | RGroup g => ofGroup g
                                     | RComb c => JStr c
                                     end) rs))])
  end.

End Stringify.

(** ** [formatQuery] *)

Module Format.

Definition orElse {A} (o : option A) (d : A) : A :=
  match o with Some a => a | None => d end.

(** [{...preset, ...options}]: a preset fills the properties the
    caller left out. *)
Definition first {A} (o p : option A) : option A :=
  match o with Some _ => o | None => p end.

Definition withPresets (o : FormatQueryOptions) : FormatQueryOptions :=
  let fill (keep : option bool) (concat : option string)
           (quoteWith : option QuoteFieldNamesWith) (sep : option string)
           (numbered : option bool) (prefix : option string) :=
    mkFormatOptions (o_format o) (o_valueProcessor o) (o_ruleProcessor o)
      (first (o_quoteFieldNamesWith o) quoteWith)
      (first (o_fieldIdentifierSeparator o) sep)
      (o_quoteValuesWith o) (o_validator o) (o_fields o)
      (o_getOperators o) (o_fallbackExpression o)
      (first (o_paramPrefix o) prefix)
      (first (o_paramsKeepPrefix o) keep)
      (first (o_numberedParams o) numbered)
      (o_parseNumbers o) (o_placeholderFieldName o)
      (o_placeholderOperatorName o)
      (first (o_concatOperator o) concat) (o_preset o) in
  match orElse (o_preset o) ansi with
  | ansi | oracle => o
  | sqlite => fill (Some true) None None None None None
  | mssql =>
      fill None (Some "+") (Some (QuotePair "[" "]")) (Some ".") None None
  | mysql => fill None (Some "CONCAT") None None None None
  | postgresql =>
      fill None None (Some (QuoteOne Stringify.dquote)) None (Some true)
           (Some "$")
  end.

(** The local variables of [formatQuery] once its second argument has
    been read. *)
Record Settings : Type := mkSettings {
  format : ExportFormat;
  valueProcessorInternal : ValueProcessor;
  ruleProcessorInternal : option RuleProcessor;
  quoteFieldNamesWith : string * string;
  fieldIdentifierSeparator : string;
  validator : QueryValidator;
  fields : list FullField;
  getOperators : string -> FullField -> list json;
  fallbackExpression : string;
  paramPrefix : string;
  paramsKeepPrefix : bool;
  numberedParams : bool;
  parseNumbers : bool;
  placeholderFieldName : string;
  placeholderOperatorName : string;
  quoteValuesWith : string;
  concatOperator : string
}.

Definition postgrestProcessor : RuleProcessor :=
  fun rule opts _ _ =>
    PRet (PostgRESTProcessor.defaultRuleProcessorPostgREST rule opts).

(** A rule processor standing in for the value processor. *)
Definition asValueProcessor (rp : RuleProcessor) : ValueProcessor :=
  fun rule opts => runNoParams (rp rule opts None None).

Section WithCollaborators.

Variable E : Collaborators.

(** The [switch] of the string form. *)
Definition processorByName (f : ExportFormat) : option RuleProcessor :=
  match f with
  | natural_language => Some (defaultRuleProcessorNL E)
  | mongodb => Some (defaultRuleProcessorMongoDB E)
  | parameterized | parameterized_named =>
      Some (defaultRuleProcessorParameterized E)
  | cel => Some (defaultRuleProcessorCEL E)
  | spel => Some (defaultRuleProcessorSpEL E)
  | jsonlogic => Some (defaultRuleProcessorJsonLogic E)
  | elasticsearch => Some (defaultRuleProcessorElasticSearch E)
  | jsonata => Some (defaultRuleProcessorJSONata E)
  | postgrest => Some postgrestProcessor
  | json_fmt | sql | json_without_ids => None
  end.

Definition valueProcessorFor (f : ExportFormat)
    (custom : option CustomValueProcessor)
    (rp : option RuleProcessor) : ValueProcessor :=
  match custom with
  | Some (VPLegacy vp) =>
      fun r _ =>
        Normal (vp (field r) (operator r) (value r) (valueSource r))
  | Some (VPByRule vp) => fun r opts => Normal (vp r opts)
  | None =>
      match f with
      | natural_language => defaultValueProcessorNL E
      | mongodb =>
          asValueProcessor (orElse rp (defaultRuleProcessorMongoDB E))
      | cel => asValueProcessor (orElse rp (defaultRuleProcessorCEL E))
      | spel => asValueProcessor (orElse rp (defaultRuleProcessorSpEL E))
      | jsonlogic =>
          asValueProcessor (orElse rp (defaultRuleProcessorJsonLogic E))
      | elasticsearch =>
          asValueProcessor
            (orElse rp (defaultRuleProcessorElasticSearch E))
      | jsonata =>
          asValueProcessor (orElse rp (defaultRuleProcessorJSONata E))
      | postgrest => asValueProcessor (orElse rp postgrestProcessor)
      | _ => defaultValueProcessorByRule E
      end
  end.

Definition defaultFallback (f : ExportFormat) : string :=
  match f with
  | mongodb =>
      Stringify.quote "$and" ++ ":[{" ++ Stringify.quote "$expr"
      ++ ":true}]"
  | cel | spel => "1 == 1"
  | natural_language => "1 is 1"
  | _ => "(1 = 1)"
  end.

(** [if (!fallbackExpression) ...] *)
Definition fallbackOr (f : ExportFormat) (given : string) : string :=
  if (given =? "")%string then defaultFallback f else given.

Definition readOptions (arg : FormatArg) : Settings :=
  match arg with
  | ByName f =>
      mkSettings f (defaultValueProcessorByRule E) (processorByName f)
        ("", "") "" (fun _ => QVBool true) []
        (fun _ _ => []) (fallbackOr f "") ":" false false false
        defaultPlaceholderFieldName defaultPlaceholderOperatorName
        "'" "||"
  | ByOptions options =>
      let o := withPresets options in
      let f := orElse (o_format o) json_fmt in
      let rp := o_ruleProcessor o in
      mkSettings f
        (valueProcessorFor f (o_valueProcessor o) rp)
        rp
        (getQuoteFieldNamesWithArray E (o_quoteFieldNamesWith o))
        (orElse (o_fieldIdentifierSeparator o) "")
        (orElse (o_validator o) (fun _ => QVBool true))
        (orElse (o_fields o) [])
        (fun fld m =>
           match o_getOperators o with
           | Some g => orElse (g fld m) []
           | None => []
           end)
        (fallbackOr f (orElse (o_fallbackExpression o) ""))
        (orElse (o_paramPrefix o) ":")
        (orElse (o_paramsKeepPrefix o) false)
        (orElse (o_numberedParams o) false)
        (orElse (o_parseNumbers o) false)
        (orElse (o_placeholderFieldName o) defaultPlaceholderFieldName)
        (orElse (o_placeholderOperatorName o)
                defaultPlaceholderOperatorName)
        (orElse (o_quoteValuesWith o) "'")
        (orElse (o_concatOperator o) "||")
  end.

(** The regions of [formatQuery], with the settings of the call and
    the validation map fixed. *)
Section Regions.

Variable S : Settings.
Variable validationMap : ValidationMap.

Definition uniqueFields : list FullField := fields S.

(** [validateRule] *)
Definition validateRule (rule : RuleType)
  : option ValidationResult * option RuleValidator :=
  let validationResult :=
    match r_id rule with
    | Some i => if (i =? "")%string then None else vm_get validationMap i
    | None => None
    end in
  let fieldValidator :=
    match filter (fun f => (f_name f =? field rule)%string)
                 uniqueFields with
    | f :: _ => f_validator f
    | [] => None
    end in
  (validationResult, fieldValidator).

(** [validationMap[rg.id ?? '']] *)
Definition groupValid (rg : RuleGroup) : bool :=
  isRuleOrGroupValid_group rg
    (vm_get validationMap (orElse (rg_id rg) "")).

(** The test every format applies before a rule reaches its
    processor: invalid rules and placeholder rules are passed
    over. *)
Definition skipRule (rule : RuleType) : bool :=
  let '(validationResult, fieldValidator) := validateRule rule in
  (negb (isRuleOrGroupValid_rule rule validationResult fieldValidator)
   || (field rule =? placeholderFieldName S)%string
   || (operator rule =? placeholderOperatorName S)%string)%bool.

(** [(rule.valueSource ?? 'value') === 'value'] *)
Definition escapeQuotesOf (rule : RuleType) : bool :=
  match valueSource rule with
  | Some VSField => false
  | _ => true
  end.

Definition fieldDataOf (rule : RuleType) : option FullField :=
  getOption E (fields S) (field rule).

(** [{ parseNumbers, fieldData, format }] *)
Definition shortOptions (rule : RuleType) : ProcOptions :=
  mkProcOptions (Some (parseNumbers S)) None None None
    (fieldDataOf rule) (Some (format S)) None None None None None None
    None None None None None None.

(** [{ parseNumbers, escapeQuotes, fieldData, format }] *)
Definition exprOptions (rule : RuleType) : ProcOptions :=
  mkProcOptions (Some (parseNumbers S)) (Some (escapeQuotesOf rule))
    None None (fieldDataOf rule) (Some (format S)) None None None None
    None None None None None None None None.

(** The JSONata region adds the field-name quoting. *)
Definition jsonataOptions (rule : RuleType) : ProcOptions :=
  mkProcOptions (Some (parseNumbers S)) (Some (escapeQuotesOf rule))
    (Some (quoteFieldNamesWith S)) (Some (fieldIdentifierSeparator S))
    (fieldDataOf rule) (Some (format S)) None None None None
    None None None None None None None None.

(** The options of the SQL region. *)
Definition sqlOptions (rule : RuleType) : ProcOptions :=
  mkProcOptions (Some (parseNumbers S)) (Some (escapeQuotesOf rule))
    (Some (quoteFieldNamesWith S)) (Some (fieldIdentifierSeparator S))
    (fieldDataOf rule) (Some (format S)) (Some (quoteValuesWith S))
    (Some (concatOperator S)) None None None None None None None None
    None None.

(** The natural-language region adds [fields] and [getOperators]. *)
Definition nlOptions (rule : RuleType) : ProcOptions :=
  mkProcOptions (Some (parseNumbers S)) (Some (escapeQuotesOf rule))
    (Some (quoteFieldNamesWith S)) (Some (fieldIdentifierSeparator S))
    (fieldDataOf rule) (Some (format S)) (Some (quoteValuesWith S))
    (Some (concatOperator S)) (Some (fields S)) (Some (getOperators S))
    None None None None None None None None.

(** [(ruleProcessorInternal ?? valueProcessorInternal)(rule, opts)] *)
Definition processorOrValue (rule : RuleType) (opts : ProcOptions)
  : Completion json :=
  match ruleProcessorInternal S with
  | Some rp => runNoParams (rp rule opts None None)
  | None => valueProcessorInternal S rule opts
  end.

(** The custom rule processor if there is one, else the region's
    default one with the value processor passed in. *)
Definition customOrDefault (dflt : RuleProcessor) (rule : RuleType)
    (opts : ProcOptions) : Completion json :=
  match ruleProcessorInternal S with
  | Some rp => runNoParams (rp rule opts None None)
  | None =>
      runNoParams (dflt rule opts (Some (valueProcessorInternal S)) None)
  end.

(** [isRuleGroupType(rg) ? ` ${rg.combinator} ` : ' '] *)
Definition spaced (rg : RuleGroup) : string :=
  match combinator rg with
  | Some c => " " ++ c ++ " "
  | None => " "
  end.

(** *** SQL *)

Fixpoint processRuleGroup_sql (rg : RuleGroup)
    (outermostOrLonelyInGroup : bool) {struct rg} : Completion json :=
  if negb (groupValid rg)
  then Normal (JStr (if outermostOrLonelyInGroup
                     then fallbackExpression S else ""))
  else
    match rg with
    | mkGroup _ _ _ rs =>
        processedRules <-
          sequenceC
            (map (fun rule =>
                    match rule with
                    | RComb c => Normal (JStr c)
                    | RGroup g =>
                        processRuleGroup_sql g
                          (Nat.eqb (List.length rs) 1)
                    | RRule r =>
                        if skipRule r then Normal (JStr "")
                        else customOrDefault
                               (defaultRuleProcessorSQL E) r
                               (sqlOptions r)
                    end) rs) ;;
        match processedRules with
        | [] => Normal (JStr (fallbackExpression S))
        | _ =>
            Normal (JStr ((if notFlag rg then "NOT " else "") ++ "("
                          ++ JS.joinValues (spaced rg)
                               (JS.filterBoolean processedRules)
                          ++ ")"))
        end
    end.

(** One element of [rg.rules] as the [map] callback of the SQL region
    renders it; [lonely] is [rg.rules.length === 1]. *)
Definition processChild_sql (lonely : bool) (rule : RuleOrGroup)
  : Completion json :=
  match rule with
  | RComb c => Normal (JStr c)
  | RGroup g => processRuleGroup_sql g lonely
  | RRule r =>
      if skipRule r then Normal (JStr "")
      else customOrDefault (defaultRuleProcessorSQL E) r (sqlOptions r)
  end.

(** *** Natural language *)

Fixpoint processRuleGroup_nl (rg : RuleGroup)
    (outermostOrLonelyInGroup : bool) {struct rg} : Completion json :=
  if negb (groupValid rg)
  then Normal (JStr (if outermostOrLonelyInGroup
                     then fallbackExpression S else ""))
  else
    match rg with
    | mkGroup _ _ _ rs =>
        processedRules <-
          sequenceC
            (map (fun rule =>
                    match rule with
                    | RComb c => Normal (JStr (", " ++ c ++ " "))
                    | RGroup g =>
                        processRuleGroup_nl g
                          (Nat.eqb (List.length rs) 1)
                    | RRule r =>
                        if skipRule r then Normal (JStr "")
                        else customOrDefault
                               (defaultRuleProcessorNL E) r
                               (nlOptions r)
                    end) rs) ;;
        match processedRules with
        | [] => Normal (JStr (fallbackExpression S))
        | _ =>
            let bracket :=
              (notFlag rg || negb outermostOrLonelyInGroup)%bool in
            let prefix := if bracket then "(" else "" in
            let suffix :=
              if bracket
              then ") is" ++ (if notFlag rg then " not" else "")
                   ++ " true"
              else "" in
            Normal (JStr (prefix
                          ++ JS.joinValues
                               (match combinator rg with
                                | Some c => ", " ++ c ++ " "
                                | None => ""
                                end)
                               (JS.filterBoolean processedRules)
                          ++ suffix))
        end
    end.

(** *** Parameterized SQL

    The traversal owns three accumulators: the positional
    parameters, the named parameters, and per field the set of
    parameter names handed out so far. *)

Record PState : Type := mkPState {
  ps_params : list json;
  ps_paramsNamed : list (string * json);
  ps_fieldParams : list (string * list string)
}.

Definition initialPState : PState := mkPState [] [] [].

Fixpoint fp_get (fp : list (string * list string)) (f : string)
  : option (list string) :=
  match fp with
  | [] => None
  | (k, names) :: fp' => if (k =? f)%string then Some names else fp_get fp' f
  end.

Definition set_add (x : string) (names : list string) : list string :=
  if existsb (String.eqb x) names then names else (names ++ [x])%list.

(** [fieldParams.get(f)?.add(x)] *)
Fixpoint fp_add (fp : list (string * list string)) (f x : string)
  : list (string * list string) :=
  match fp with
  | [] => []
  | (k, names) :: fp' =>
      if (k =? f)%string then (k, set_add x names) :: fp'
      else (k, names) :: fp_add fp' f x
  end.

Definition getNextNamedParam (fp : list (string * list string))
    (f : string) : string * list (string * list string) :=
  let fp1 := match fp_get fp f with
             | Some _ => fp
             | None => (fp ++ [(f, [])])%list
             end in
  let size := List.length (orElse (fp_get fp1 f) []) in
  let nextNamedParam :=
    f ++ "_" ++ JS.num_toString (Z.of_nat (size + 1)) in
  (nextNamedParam, fp_add fp1 f nextNamedParam).

(** A processor run against the registry of parameter names. *)
Fixpoint runPM {A} (m : PM A) (fp : list (string * list string))
  : Completion (A * list (string * list string)) :=
  match m with
  | PRet a => Normal (a, fp)
  | PThrow => TypeError
  | PNext f k =>
      let '(name, fp') := getNextNamedParam fp f in runPM (k name) fp'
  end.

(** [Object.assign(target, source)] *)
Fixpoint obj_set (target : list (string * json)) (k : string) (v : json)
  : list (string * json) :=
  match target with
  | [] => [(k, v)]
  | (k', v') :: t =>
      if (k =? k')%string then (k', v) :: t else (k', v') :: obj_set t k v
  end.

Definition obj_assign (target source : list (string * json))
  : list (string * json) :=
  fold_left (fun t kv => obj_set t (fst kv) (snd kv)) source target.

Definition paramOptions (rule : RuleType) (st : PState) : ProcOptions :=
  mkProcOptions (Some (parseNumbers S)) None
    (Some (quoteFieldNamesWith S)) (Some (fieldIdentifierSeparator S))
    (fieldDataOf rule) (Some (format S)) None
    (Some (concatOperator S)) (Some (fields S)) None
    (Some (ps_fieldParams st)) (Some (paramPrefix S))
    (Some (paramsKeepPrefix S)) (Some (numberedParams S))
    (Some (fallbackExpression S)) (Some (placeholderFieldName S))
    (Some (placeholderOperatorName S)) (Some (validator S)).

Definition processRule_param (rule : RuleType) (st : PState)
  : Completion (json * PState) :=
  if skipRule rule then Normal (JStr "", st)
  else
    let rp := orElse (ruleProcessorInternal S)
                     (defaultRuleProcessorParameterized E) in
    out <- runPM (rp rule (paramOptions rule st)
                     (Some (valueProcessorInternal S))
                     (Some (ps_params st)))
                 (ps_fieldParams st) ;;
    let '(processedRule, fp) := out in
    let st1 := mkPState (ps_params st) (ps_paramsNamed st) fp in
    match processedRule with
    | JObj o =>
        match JS.get "sql" o with
        | JStr sqlText =>
            if (sqlText =? "")%string then Normal (JStr "", st1)
            else
              let customParams := JS.get "params" o in
              let st2 :=
                match format S, customParams with
                | parameterized, JArr ps =>
                    mkPState (ps_params st1 ++ ps)%list (ps_paramsNamed st1)
                             (ps_fieldParams st1)
                | parameterized_named, JObj ps =>
                    mkPState (ps_params st1)
                      (obj_assign (ps_paramsNamed st1) ps)
                      (fold_left (fun acc kv =>
                                    fp_add acc (field rule) (fst kv))
                                 ps (ps_fieldParams st1))
                | _, _ => st1
                end in
              Normal (JStr sqlText, st2)
        | _ => Normal (JStr "", st1)
        end
    | _ => Normal (JStr "", st1)
    end.

Fixpoint processRuleGroup_param (rg : RuleGroup)
    (outermostOrLonelyInGroup : bool) (st : PState) {struct rg}
  : Completion (json * PState) :=
  if negb (groupValid rg)
  then Normal (JStr (if outermostOrLonelyInGroup
                     then fallbackExpression S else ""), st)
  else
    match rg with
    | mkGroup _ _ _ rs =>
        out <-
          (fix each (l : list RuleOrGroup) (st : PState)
             : Completion (list json * PState) :=
             match l with
             | [] => Normal ([], st)
             | rule :: l' =>
                 one <-
                   match rule with
                   | RComb c => Normal (JStr c, st)
                   | RGroup g =>
                       processRuleGroup_param g
                         (Nat.eqb (List.length rs) 1) st
                   | RRule r => processRule_param r st
                   end ;;
                 rest <- each l' (snd one) ;;
                 Normal (fst one :: fst rest, snd rest)
             end) rs st ;;
        let '(processedRules, st') := out in
        match processedRules with
        | [] => Normal (JStr (fallbackExpression S), st')
        | _ =>
            Normal (JStr ((if notFlag rg then "NOT " else "") ++ "("
                          ++ JS.joinValues (spaced rg)
                               (JS.filterBoolean processedRules)
                          ++ ")"), st')
        end
    end.

(** *** MongoDB *)

Fixpoint noLineBreak (s : string) : bool :=
  match s with
  | EmptyString => true
  | String c s' =>
      let n := nat_of_ascii c in
      (negb (Nat.eqb n 10 || Nat.eqb n 13) && noLineBreak s')%bool
  end.

(** [/^{.+}$/.test(v)] *)
Definition isBraced (v : json) : bool :=
  match JS.toString v with
  | String c rest =>
      (Ascii.eqb c "{"%char &&
       match Chars.rev_string rest "" with
       | String d mid =>
           (Ascii.eqb d "}"%char && negb (mid =? "")%string
            && noLineBreak mid)%bool
       | EmptyString => false
       end)%bool
  | EmptyString => false
  end.

(** [/^{.+}$/.test(v) ? v : `{${v}}`] *)
Definition braced (v : json) : json :=
  if isBraced v then v else JStr ("{" ++ JS.toString v ++ "}").

(** [rg.combinator.toLowerCase()] throws on a group without a
    combinator.  A combinator token among the rules is outside
    [RuleGroupType], which this region is typed for; it renders as
    nothing. *)
Fixpoint processRuleGroup_mongodb (rg : RuleGroup) (outermost : bool)
    {struct rg} : Completion json :=
  if negb (groupValid rg)
  then Normal (JStr (if outermost then fallbackExpression S else ""))
  else
    match rg with
    | mkGroup _ None _ _ => TypeError
    | mkGroup _ (Some c) _ rs =>
        let combinator := Stringify.quote ("$" ++ Chars.toLowerCase c) in
        results <-
          sequenceC
            (map (fun rule =>
                    match rule with
                    | RGroup g =>
                        processedRuleGroup <-
                          processRuleGroup_mongodb g false ;;
                        Normal (if JS.truthy processedRuleGroup
                                then (true, braced processedRuleGroup)
                                else (false, JStr ""))
                    | RRule r =>
                        if skipRule r then Normal (false, JStr "")
                        else
                          x <- processorOrValue r (shortOptions r) ;;
                          Normal (false, x)
                    | RComb _ => Normal (false, JStr "")
                    end) rs) ;;
        let hasChildRules := existsb fst results in
        let expressions := JS.filterBoolean (map snd results) in
        Normal
          match expressions with
          | [] => JStr (fallbackExpression S)
          | [e] =>
              if negb hasChildRules then e
              else JStr (combinator ++ ":["
                         ++ JS.joinValues "," expressions ++ "]")
          | _ => JStr (combinator ++ ":["
                       ++ JS.joinValues "," expressions ++ "]")
          end
    end.

(** *** CEL, SpEL and JSONata

    The three regions are one text up to the rendering of a
    combinator token, the separator, the negation prefix and the
    options handed to the processor. *)

Section Expression.

Variable tokenOf : string -> json.
Variable separator : RuleGroup -> string.
Variable notPrefix : string.
Variable optionsOf : RuleType -> ProcOptions.

Fixpoint processRuleGroup_expr (rg : RuleGroup) (outermost : bool)
    {struct rg} : Completion json :=
  if negb (groupValid rg)
  then Normal (JStr (if outermost then fallbackExpression S else ""))
  else
    match rg with
    | mkGroup _ _ _ rs =>
        parts <-
          sequenceC
            (map (fun rule =>
                    match rule with
                    | RComb c => Normal (tokenOf c)
                    | RGroup g => processRuleGroup_expr g false
                    | RRule r =>
                        if skipRule r then Normal (JStr "")
                        else processorOrValue r (optionsOf r)
                    end) rs) ;;
        let expression :=
          JS.joinValues (separator rg) (JS.filterBoolean parts) in
        let '(prefix, suffix) :=
          if (notFlag rg || negb outermost)%bool
          then ((if notFlag rg then notPrefix else "") ++ "(", ")")
          else ("", "") in
        Normal (JStr (if (expression =? "")%string
                      then fallbackExpression S
                      else prefix ++ expression ++ suffix))
    end.

End Expression.

Definition celSeparator (rg : RuleGroup) : string :=
  match combinator rg with
  | Some c => " " ++ JS.toString (celCombinatorMap c) ++ " "
  | None => " "
  end.

Definition processRuleGroup_cel :=
  processRuleGroup_expr celCombinatorMap celSeparator "!" exprOptions.
Definition processRuleGroup_spel :=
  processRuleGroup_expr JStr spaced "!" exprOptions.
Definition processRuleGroup_jsonata :=
  processRuleGroup_expr JStr spaced "$not" jsonataOptions.

(** *** JsonLogic and PostgREST

    Both regions are the same text.  A combinator token among the
    rules is outside [RuleGroupType]; it renders as nothing. *)

Definition combinatorKey (rg : RuleGroup) : string :=
  orElse (combinator rg) "undefined".

Fixpoint processRuleGroup_logic (rg : RuleGroup) {struct rg}
  : Completion json :=
  if negb (groupValid rg) then Normal (JBool false)
  else
    match rg with
    | mkGroup _ _ _ rs =>
        results <-
          sequenceC
            (map (fun rule =>
                    match rule with
                    | RGroup g => processRuleGroup_logic g
                    | RRule r =>
                        if skipRule r then Normal (JBool false)
                        else processorOrValue r (shortOptions r)
                    | RComb _ => Normal (JBool false)
                    end) rs) ;;
        Normal
          match JS.filterBoolean results with
          | [] => JBool false
          | processedRules =>
              let jsonRuleGroup :=
                JObj [(combinatorKey rg, JArr processedRules)] in
              if notFlag rg then JObj [("!", jsonRuleGroup)]
              else jsonRuleGroup
          end
    end.

(** *** ElasticSearch *)

Fixpoint processRuleGroup_es (rg : RuleGroup) {struct rg}
  : Completion json :=
  if negb (groupValid rg) then Normal (JBool false)
  else
    match rg with
    | mkGroup _ c _ rs =>
        results <-
          sequenceC
            (map (fun rule =>
                    match rule with
                    | RGroup g => processRuleGroup_es g
                    | RRule r =>
                        if skipRule r then Normal (JBool false)
                        else processorOrValue r (shortOptions r)
                    | RComb _ => Normal (JBool false)
                    end) rs) ;;
        Normal
          match JS.filterBoolean results with
          | [] => JBool false
          | processedRules =>
              let isOr := match c with
                          | Some k => (k =? "or")%string
                          | None => false
                          end in
              JObj [("bool",
                     if notFlag rg
                     then JObj [("must_not",
                                 if isOr
                                 then JObj [("bool",
                                             JObj [("should",
                                                    JArr processedRules)])]
                                 else JArr processedRules)]
                     else JObj [(if isOr then "should" else "must",
                                 JArr processedRules)])]
          end
    end.

End Regions.

(** What [formatQuery] returns when the validator rejects the whole
    query. *)
Definition fallbackResult (S : Settings) : json :=
  match format S with
  | parameterized =>
      JObj [("sql", JStr (fallbackExpression S)); ("params", JArr [])]
  | parameterized_named =>
      JObj [("sql", JStr (fallbackExpression S)); ("params", JObj [])]
  | mongodb => JStr ("{" ++ fallbackExpression S ++ "}")
  | jsonlogic => JBool false
  | elasticsearch => JObj []
  | _ => JStr (fallbackExpression S)
  end.

(** [isRuleGroupType(ruleGroup) ? ruleGroup : convertFromIC(ruleGroup)] *)
Definition standardised (ruleGroup : RuleGroup) : RuleGroup :=
  if isRuleGroupType ruleGroup then ruleGroup
  else convertFromIC E ruleGroup.

Definition formatQuery (ruleGroup : RuleGroup) (options : FormatArg)
  : Completion json :=
  let S := readOptions options in
  match format S with
  | json_fmt | json_without_ids =>
      let rg := if parseNumbers S then numerifyValues E ruleGroup
                else ruleGroup in
      Normal (JStr
        match format S with
        | json_without_ids =>
            Stringify.serialize "" ""
              (Stringify.withoutIds (Stringify.ofGroup rg))
        | _ => Stringify.serialize "  " "" (Stringify.ofGroup rg)
        end)
  | _ =>
      match validator S ruleGroup with
      | QVBool false => Normal (fallbackResult S)
      | validationResult =>
          let validationMap :=
            match validationResult with
            | QVMap m => m
            | QVBool _ => []
            end in
          match format S with
          | sql => processRuleGroup_sql S validationMap ruleGroup true
          | parameterized =>
              out <- processRuleGroup_param S validationMap ruleGroup
                       true initialPState ;;
              Normal (JObj [("sql", fst out);
                            ("params", JArr (ps_params (snd out)))])
          | parameterized_named =>
              out <- processRuleGroup_param S validationMap ruleGroup
                       true initialPState ;;
              Normal (JObj [("sql", fst out);
                            ("params", JObj (ps_paramsNamed (snd out)))])
          | mongodb =>
              processedQuery <-
                processRuleGroup_mongodb S validationMap
                  (standardised ruleGroup) true ;;
              Normal (braced processedQuery)
          | cel => processRuleGroup_cel S validationMap ruleGroup true
          | spel => processRuleGroup_spel S validationMap ruleGroup true
          | jsonata =>
              processRuleGroup_jsonata S validationMap ruleGroup true
          | jsonlogic | postgrest =>
              processRuleGroup_logic S validationMap
                (standardised ruleGroup)
          | elasticsearch =>
              processedRuleGroup <-
                processRuleGroup_es S validationMap
                  (standardised ruleGroup) ;;
              Normal match processedRuleGroup with
                     | JBool false => JObj []
                     | other => other
                     end
          | natural_language =>
              processRuleGroup_nl S validationMap ruleGroup true
          | json_fmt | json_without_ids => Normal (JStr "")
          end
      end
  end.

(** The formats whose regions are typed for the standard form and are
    entered with
    [isRuleGroupType(ruleGroup) ? ruleGroup : convertFromIC(ruleGroup)]. *)
Definition convertsFromIC (f : ExportFormat) : bool :=
  match f with
  | mongodb | jsonlogic | postgrest | elasticsearch => true
  | _ => false
  end.

(** The tree the region of the format walks. *)
Definition walked (S : Settings) (ruleGroup : RuleGroup) : RuleGroup :=
  if convertsFromIC (format S) then standardised ruleGroup else ruleGroup.

(** [validationMap] as the validation region leaves it for a validator
    result other than [false]. *)
Definition validationMapOf (r : QueryValidatorResult) : ValidationMap :=
  match r with
  | QVMap m => m
  | QVBool _ => []
  end.

(** The region of the format, entered with the tree it walks: what
    [formatQuery] returns once the validator has let the query
    through. *)
Definition region (S : Settings) (validationMap : ValidationMap)
    (tree : RuleGroup) : Completion json :=
  match format S with
  | sql => processRuleGroup_sql S validationMap tree true
  | parameterized =>
      out <- processRuleGroup_param S validationMap tree true
               initialPState ;;
      Normal (JObj [("sql", fst out);
                    ("params", JArr (ps_params (snd out)))])
  | parameterized_named =>
      out <- processRuleGroup_param S validationMap tree true
               initialPState ;;
      Normal (JObj [("sql", fst out);
                    ("params", JObj (ps_paramsNamed (snd out)))])
  | mongodb =>
      processedQuery <- processRuleGroup_mongodb S validationMap tree true ;;
      Normal (braced processedQuery)
  | cel => processRuleGroup_cel S validationMap tree true
  | spel => processRuleGroup_spel S validationMap tree true
  | jsonata => processRuleGroup_jsonata S validationMap tree true
  | jsonlogic | postgrest => processRuleGroup_logic S validationMap tree
  | elasticsearch =>
      processedRuleGroup <- processRuleGroup_es S validationMap tree ;;
      Normal match processedRuleGroup with
             | JBool false => JObj []
             | other => other
             end
  | natural_language => processRuleGroup_nl S validationMap tree true
  | json_fmt | json_without_ids => Normal (JStr "")
  end.

End WithCollaborators.

End Format.

(** ** An instance of the collaborators

    Concrete stand-ins for the imported code, used to evaluate
    [formatQuery] on examples: every default processor renders a rule as
    [field operator value], option lists are flat, and the IC conversion
    gives a group the combinator of its first token.  The theorems below
    are stated for all collaborators. *)

Module Example.

Definition plainProcessor : RuleProcessor :=
  fun r _ _ _ =>
    PRet (JStr (field r ++ " " ++ operator r ++ " "
                ++ JS.toString (value r))).

Definition plainValueProcessor : ValueProcessor :=
  fun r _ => Normal (JStr (JS.toString (value r))).

Definition isToken (r : RuleOrGroup) : bool :=
  match r with RComb _ => true | _ => false end.

Fixpoint fromIC (rg : RuleGroup) : RuleGroup :=
  match rg with
  | mkGroup i c n rs =>
      let firstToken :=
        match filter isToken rs with
        | RComb t :: _ => t
        | _ => "and"
        end in
      mkGroup i (Some (Format.orElse c firstToken)) n
        (flat_map (fun r => match r with
                            | RGroup g => [RGroup (fromIC g)]
                            | RComb _ => []
                            | RRule x => [RRule x]
                            end) rs)
  end.

Definition collaborators : Collaborators :=
  mkCollaborators plainProcessor plainProcessor plainProcessor
    plainProcessor plainProcessor plainProcessor plainProcessor
    plainProcessor plainProcessor plainValueProcessor plainValueProcessor
    fromIC
    (fun l name => find (fun f => (f_name f =? name)%string) l)
    (fun q => match q with
              | Some (QuoteOne s) => (s, s)
              | Some (QuotePair a b) => (a, b)
              | None => ("", "")
              end)
    (fun rg => rg).

(** A reader for JSON scalars and the two empty containers; every
    other text is refused, as the runtime's [JSON.parse] refuses a text
    that is not JSON. *)
Definition JSON_parse (s : string) : option json :=
  let t := Chars.trim s in
  if (t =? "null")%string then Some JNull
  else if (t =? "true")%string then Some (JBool true)
  else if (t =? "false")%string then Some (JBool false)
  else if (t =? "{}")%string then Some (JObj [])
  else if (t =? "[]")%string then Some (JArr [])
  else Utils.numericLiteral t.

(** Sample inputs. *)

Definition draft : RuleType :=
  mkRule None "~" "=" (JStr "draft") None None.

Definition onlyDraft : RuleGroup :=
  mkGroup None (Some "and") None [RRule draft].

Definition aNotIn12 : RuleGroup :=
  mkGroup None (Some "and") None
    [RRule (mkRule None "a" "notIn" (JArr [JNum 1; JNum 2]) None None)].

Definition rejectAll : FormatQueryOptions :=
  mkFormatOptions None None None None None None
                  (Some (fun _ => QVBool false))
                  None None None None None None None None None None None.

Definition withFormat (f : ExportFormat) (o : FormatQueryOptions)
  : FormatQueryOptions :=
  mkFormatOptions (Some f) (o_valueProcessor o) (o_ruleProcessor o)
    (o_quoteFieldNamesWith o) (o_fieldIdentifierSeparator o)
    (o_quoteValuesWith o) (o_validator o) (o_fields o) (o_getOperators o)
    (o_fallbackExpression o) (o_paramPrefix o) (o_paramsKeepPrefix o)
    (o_numberedParams o) (o_parseNumbers o) (o_placeholderFieldName o)
    (o_placeholderOperatorName o) (o_concatOperator o) (o_preset o).

Definition var (name : string) : json := JObj [("var", JStr name)].

Definition listsAsArraysOptions : ParsePostgRESTOptions :=
  mkParseOptions (fun _ _ _ => true) true None false.

(** [{"!": {"in": [{"var": "a"}, [1, 2]]}}] *)
Definition negatedIn : json :=
  JObj [("!", JObj [("in", JArr [var "a"; JArr [JNum 1; JNum 2]])])].

(** [{"!!": {"==": [{"var": "a"}, 1]}}] *)
Definition doubleNegated : json :=
  JObj [("!!", JObj [("==", JArr [var "a"; JNum 1])])].

Definition notBetween12 : RuleType :=
  mkRule None "age" "notBetween" (JArr [JNum 1; JNum 2]) None None.

End Example.

(** ** Erasing and removing placeholder rules

    A rule is a placeholder when its field or its operator is the
    sentinel.  [scrub] replaces every placeholder rule of a tree by the
    blank rule that holds nothing but the two sentinels; [prune] removes
    the placeholder rules from every group of the tree and leaves
    everything else, combinator tokens included, where it is. *)

Module Scrub.

Section WithNames.

Variables placeholderFieldName placeholderOperatorName : string.

Definition isPlaceholder (r : RuleType) : bool :=
  ((field r =? placeholderFieldName)
   || (operator r =? placeholderOperatorName))%string.

Definition blank : RuleType :=
  mkRule None placeholderFieldName placeholderOperatorName JUndef
         None None.

Definition scrubRule (r : RuleType) : RuleType :=
  if isPlaceholder r then blank else r.

Fixpoint scrub (rg : RuleGroup) : RuleGroup :=
  match rg with
  | mkGroup i c n rs =>
      mkGroup i c n
        (map (fun x => match x with
                       | RRule r => RRule (scrubRule r)
                       | RGroup g => RGroup (scrub g)
                       | RComb t => RComb t
                       end) rs)
  end.

Definition isPlaceholderElement (x : RuleOrGroup) : bool :=
  match x with RRule r => isPlaceholder r | _ => false end.

Fixpoint prune (rg : RuleGroup) : RuleGroup :=
  match rg with
  | mkGroup i c n rs =>
      mkGroup i c n
        (flat_map (fun x => match x with
                            | RRule r => if isPlaceholder r then [] else [x]
                            | RGroup g => [RGroup (prune g)]
                            | RComb _ => [x]
                            end) rs)
  end.

(** What [prune] leaves of one element of a group. *)
Definition pruneElement (x : RuleOrGroup) : list RuleOrGroup :=
  match x with
  | RRule r => if isPlaceholder r then [] else [x]
  | RGroup g => [RGroup (prune g)]
  | RComb _ => [x]
  end.

(** The elements of a group that are no placeholder rules. *)
Definition kept (rs : list RuleOrGroup) : list RuleOrGroup :=
  filter (fun x => negb (isPlaceholderElement x)) rs.

(** Removing the placeholder rules leaves no group of the tree empty
    and none with a lone subgroup: every group either holds no
    placeholder rule, or keeps something other than a single
    subgroup. *)
Fixpoint keepsShape (rg : RuleGroup) : bool :=
  match rg with
  | mkGroup _ _ _ rs =>
      ((forallb (fun x => negb (isPlaceholderElement x)) rs
        || match kept rs with
           | [] | [RGroup _] => false
           | _ => true
           end)
       && forallb (fun x => match x with
                            | RGroup g => keepsShape g
                            | _ => true
                            end) rs)%bool
  end.

Definition noGroup (rs : list RuleOrGroup) : Prop :=
  Forall (fun x => match x with RGroup _ => False | _ => True end) rs.

(** Two renderings [f] and [g] of the elements of a group treat the
    element [x] alike when [f] renders a placeholder rule as something
    [keep] drops, and [g] renders every other element, once pruned, as
    [f] renders it. *)
Definition alike {A} (keep : A -> bool)
    (f g : RuleOrGroup -> Completion A) (x : RuleOrGroup) : Prop :=
  match x with
  | RRule r =>
      if isPlaceholder r
      then exists v, f x = Normal v /\ keep v = false
      else g x = f x
  | RGroup h => g (RGroup (prune h)) = f x
  | RComb _ => g x = f x
  end.

End WithNames.

End Scrub.

(** ** Notions used by the further properties *)

Module RoundTrip.

Definition isScalar (v : json) : bool :=
  match v with JStr _ | JNum _ | JFrac _ | JBool _ => true | _ => false end.

Definition plainOperators : list string :=
  ["="; "!="; "<"; "<="; ">"; ">="; "contains"; "beginsWith"; "endsWith"].

Definition isNone {A} (o : option A) : bool :=
  match o with None => true | Some _ => false end.

Definition plainRule (r : RuleType) : bool :=
  (isNone (r_id r) && isNone (r_not r) && isNone (valueSource r)
   && negb (field r =? "~")%string
   && existsb (String.eqb (operator r)) plainOperators
   && isScalar (value r))%bool.

Fixpoint plainGroup (rg : RuleGroup) : bool :=
  match rg with
  | mkGroup i c n rs =>
      (isNone i
       && match c with
          | Some k => ((k =? "and") || (k =? "or"))%string
          | None => false
          end
       && match n with Some false => false | _ => true end
       && match rs with [] => false | _ => true end
       && forallb (fun x => match x with
                            | RRule r => plainRule r
                            | RGroup g => plainGroup g
                            | RComb _ => false
                            end) rs)%bool
  end.

End RoundTrip.

(** A parse result that is not a bare rule. *)
Definition groupOrNothing (c : Completion (option Parsed)) : Prop :=
  match c with
  | Normal (Some (PRule _)) => False
  | _ => True
  end.

(** The rule the parser builds for a comparison with a literal. *)
Definition comparison (fld op : string) (v : json) : RuleType :=
  mkRule None fld op v None None.

(** The operators [defaultRuleProcessorPostgREST] has a [case] for. *)
Definition postgrestOperators : list string :=
  ["<"; "<="; "="; "!="; ">"; ">="; "null"; "notNull"; "in"; "notIn";
   "between"; "notBetween"; "contains"; "doesNotContain"; "beginsWith";
   "doesNotBeginWith"; "endsWith"; "doesNotEndWith"].

(** What a query with nothing to render comes out as, per format. *)
Definition emptyResult (S : Format.Settings) : json :=
  match Format.format S with
  | parameterized =>
      JObj [("sql", JStr (Format.fallbackExpression S)); ("params", JArr [])]
  | parameterized_named =>
      JObj [("sql", JStr (Format.fallbackExpression S)); ("params", JObj [])]
  | mongodb => Format.braced (JStr (Format.fallbackExpression S))
  | jsonlogic | postgrest => JBool false
  | elasticsearch => JObj []
  | _ => JStr (Format.fallbackExpression S)
  end.

(** The formats whose regions join after filtering and fall back on an
    empty join. *)
Definition fallsBackOnEmptyJoin (f : ExportFormat) : bool :=
  match f with
  | cel | spel | jsonata | mongodb | jsonlogic | postgrest | elasticsearch =>
      true
  | _ => false
  end.

(** The tree with every [id] property removed. *)
Definition withoutRuleId (r : RuleType) : RuleType :=
  mkRule None (field r) (operator r) (value r) (valueSource r) (r_not r).

Fixpoint withoutGroupIds (rg : RuleGroup) : RuleGroup :=
  match rg with
  | mkGroup _ c n rs =>
      mkGroup None c n
        (map (fun x => match x with
                       | RRule r => RRule (withoutRuleId r)
                       | RGroup g => RGroup (withoutGroupIds g)
                       | RComb t => RComb t
                       end) rs)
  end.

(** The name [getNextNamedParam] builds for the [k]-th parameter of a
    field, and the registry states its calls alone produce: every field's
    set holds exactly its first names, in order. *)
Definition paramName (f : string) (k : nat) : string :=
  f ++ "_" ++ JS.num_toString (Z.of_nat k).

Definition generatedOnly (fp : list (string * list string)) : Prop :=
  forall f names,
    Format.fp_get fp f = Some names ->
    names = map (paramName f) (seq 1 (List.length names)).

(** ** More sample inputs *)

Module Samples.

(** [a = 1 and not (b contains "x" or c < 5)] *)
Definition nested : RuleGroup :=
  mkGroup None (Some "and") None
    [RRule (mkRule None "a" "=" (JNum 1) None None);
     RGroup (mkGroup None (Some "or") (Some true)
               [RRule (mkRule None "b" "contains" (JStr "x") None None);
                RRule (mkRule None "c" "<" (JNum 5) None None)])].

(** A registry that knows no field at all. *)
Definition rejectingOptions : ParsePostgRESTOptions :=
  mkParseOptions (fun _ _ _ => false) true None false.

(** A group with an id, and a validator that marks it invalid. *)
Definition marked : RuleGroup :=
  mkGroup (Some "g") (Some "and") None
    [RRule (mkRule (Some "r") "a" "=" (JNum 1) None None)].

Definition markInvalid : FormatQueryOptions :=
  mkFormatOptions (Some sql) None None None None None
                  (Some (fun _ => QVMap [("g", VBool false)]))
                  None None None None None None None None None None None.

Definition withoutIdsByName : FormatArg := ByName json_without_ids.

(** [~ = draft and a = 1 and (~ = draft or b = 2)] *)
Definition withDrafts : RuleGroup :=
  mkGroup None (Some "and") None
    [RRule Example.draft;
     RRule (mkRule None "a" "=" (JNum 1) None None);
     RGroup (mkGroup None (Some "or") None
               [RRule Example.draft;
                RRule (mkRule None "b" "=" (JNum 2) None None)])].



(** [~ = draft and (b = 2)] *)
Definition draftBesideSubgroup : RuleGroup :=
  mkGroup None (Some "and") None
    [RRule Example.draft;
     RGroup (mkGroup None (Some "and") None
               [RRule (mkRule None "b" "=" (JNum 2) None None)])].

(** [a = 1 and (~ = draft)] *)
Definition draftInSubgroup : RuleGroup :=
  mkGroup None (Some "and") None
    [RRule (mkRule None "a" "=" (JNum 1) None None);
     RGroup Example.onlyDraft].

(** A processor step that asks for two parameter names of one field. *)
Definition twoNames : PM json :=
  PNext "age" (fun first =>
    PNext "age" (fun second => PRet (JArr [JStr first; JStr second]))).

End Samples.

(** * Properties *)

(** ** The model on sample inputs *)

Example toString_arr :
  JS.toString (JArr [JNum 1; JNull; JStr "a"; JNum (-20)]) = "1,,a,-20".
Proof. reflexivity. Qed.

Example trim_ex : Chars.trim "  Vai " = "Vai".
Proof. reflexivity. Qed.

Example toArray_ex :
  Utils.toArray (JStr "Vai, Vaughan") = [JStr "Vai"; JStr "Vaughan"].
Proof. reflexivity. Qed.

Example between_swapped :
  PostgRESTProcessor.defaultRuleProcessorPostgREST
    (mkRule None "age" "between" (JStr "30, 12") None None) noProcOptions
  = JObj [("<=", JArr [JNum 12; JObj [("var", JStr "age")]; JNum 30])].
Proof. reflexivity. Qed.

Example notIn_rendered :
  PostgRESTProcessor.defaultRuleProcessorPostgREST
    (mkRule None "a" "notIn" (JArr [JNum 1; JNum 2]) None None) noProcOptions
  = JObj [("not", JObj [("in", JArr [JObj [("var", JStr "a")];
                                     JArr [JNum 1; JNum 2]])])].
Proof. reflexivity. Qed.

Example stringify_empty_compact :
  Stringify.serialize "" "" (Stringify.ofGroup emptyRuleGroup)
  = "{" ++ Stringify.quote "combinator" ++ ":" ++ Stringify.quote "and"
    ++ "," ++ Stringify.quote "rules" ++ ":[]}".
Proof. reflexivity. Qed.

Example split_ex : Chars.splitComma "Vai, Vaughan" "" = ["Vai"; " Vaughan"].
Proof. reflexivity. Qed.

Example numericLiteral_ex :
  map Utils.numericLiteral ["-12"; " 12 "; "1e3"; "1.50"; "-.5e-1"; "1."]
  = [Some (JNum (-12)); Some (JNum 12); Some (JNum 1000);
     Some (JFrac (mkFraction false 1 D5 1));
     Some (JFrac (mkFraction true 0 D5 2)); Some (JNum 1)]
  /\ map Utils.numericLiteral [""; "-"; "."; "1e"; "1.2.3"; "0x10"; "1 2"]
     = [None; None; None; None; None; None; None].
Proof. split; reflexivity. Qed.

Example fraction_toString :
  map JS.toString
      [JFrac (mkFraction false 1 D5 1); JFrac (mkFraction true 0 D5 2);
       JFrac (mkFraction false 0 D1 7); JFrac (mkFraction false 1 D5 8);
       JFrac (mkFraction true 127 D5 2)]
  = ["1.5"; "-0.05"; "1e-7"; "1.5e-7"; "-12.75"].
Proof. reflexivity. Qed.

Example between_swapped_fractions :
  PostgRESTProcessor.defaultRuleProcessorPostgREST
    (mkRule None "age" "between" (JStr "2.5, 1e-1") None None) noProcOptions
  = JObj [("<=", JArr [JFrac (mkFraction false 0 D1 1);
                       JObj [("var", JStr "age")];
                       JFrac (mkFraction false 2 D5 1)])].
Proof. reflexivity. Qed.

(** ** Induction over query trees *)

Section RuleGroupInduction.

Variable P : RuleGroup -> Prop.
Hypothesis step :
  forall i c n rs,
    Forall (fun x => match x with RGroup g => P g | _ => True end) rs ->
    P (mkGroup i c n rs).

Fixpoint RuleGroup_nested_ind (rg : RuleGroup) : P rg :=
  match rg with
  | mkGroup i c n rs =>
      step i c n rs
        ((fix all (l : list RuleOrGroup)
            : Forall (fun x => match x with
                               | RGroup g => P g
                               | _ => True
                               end) l :=
            match l with
            | [] => Forall_nil _
            | x :: l' =>
                Forall_cons x
                  (match x as y
                         return match y with
                                | RGroup g => P g
                                | _ => True
                                end
                   with
                   | RGroup g => RuleGroup_nested_ind g
                   | _ => I
                   end)
                  (all l')
            end) rs)
  end.

End RuleGroupInduction.
(** ** Placeholder rules hold nothing the regions read

    Each region passes over a placeholder rule before anything of it is
    read, so a tree and its scrubbed copy are processed alike. *)

Section ScrubProofs.

Variable E : Collaborators.
Variable S : Format.Settings.
Variable vm : ValidationMap.
Let phf := Format.placeholderFieldName S.
Let pho := Format.placeholderOperatorName S.
Let scrub := Scrub.scrub phf pho.

Lemma skip_placeholder r :
  Scrub.isPlaceholder phf pho r = true -> Format.skipRule S vm r = true.
Proof.
  unfold Scrub.isPlaceholder, Format.skipRule, phf, pho. intros H.
  destruct (Format.validateRule S vm r) as [a b].
  destruct (negb _); simpl; auto.
Qed.

Lemma blank_placeholder :
  Scrub.isPlaceholder phf pho (Scrub.blank phf pho) = true.
Proof.
  unfold Scrub.isPlaceholder; simpl.
  rewrite String.eqb_refl. reflexivity.
Qed.

Lemma skip_scrubbed r :
  Scrub.isPlaceholder phf pho r = true ->
  Format.skipRule S vm (Scrub.blank phf pho) = true
  /\ Format.skipRule S vm r = true.
Proof.
  intros Hp. split.
  - apply skip_placeholder, blank_placeholder.
  - apply skip_placeholder, Hp.
Qed.

Ltac same_group i c n rs :=
  replace (Format.groupValid vm (mkGroup i c n (map _ rs)))
    with (Format.groupValid vm (mkGroup i c n rs)) by reflexivity.

Ltac per_rule IH :=
  eapply Forall_impl; [|exact IH];
  let r := fresh "r" in let Hp := fresh "Hp" in let H := fresh "H" in
  intros [r| |] H; simpl; auto;
  unfold Scrub.scrubRule;
  destruct (Scrub.isPlaceholder phf pho r) eqn:Hp; auto;
  destruct (skip_scrubbed _ Hp) as [-> ->]; reflexivity.

Lemma scrub_sql : forall rg b,
  Format.processRuleGroup_sql E S vm (scrub rg) b
  = Format.processRuleGroup_sql E S vm rg b.
Proof.
  induction rg as [i c n rs IH] using RuleGroup_nested_ind. intros b.
  unfold scrub in *. simpl. same_group i c n rs.
  destruct (negb _); [reflexivity|].
  rewrite map_map, length_map.
  erewrite map_ext_Forall; [reflexivity|]. per_rule IH.
Qed.

Lemma scrub_nl : forall rg b,
  Format.processRuleGroup_nl E S vm (scrub rg) b
  = Format.processRuleGroup_nl E S vm rg b.
Proof.
  induction rg as [i c n rs IH] using RuleGroup_nested_ind. intros b.
  unfold scrub in *. simpl. same_group i c n rs.
  destruct (negb _); [reflexivity|].
  rewrite map_map, length_map.
  erewrite map_ext_Forall; [reflexivity|]. per_rule IH.
Qed.

Lemma scrub_mongodb : forall rg b,
  Format.processRuleGroup_mongodb E S vm (scrub rg) b
  = Format.processRuleGroup_mongodb E S vm rg b.
Proof.
  induction rg as [i c n rs IH] using RuleGroup_nested_ind. intros b.
  unfold scrub in *. simpl. same_group i c n rs.
  destruct (negb _); [reflexivity|].
  destruct c; [|reflexivity].
  rewrite map_map.
  erewrite map_ext_Forall; [reflexivity|].
  eapply Forall_impl; [|exact IH].
  intros [r|g|t] H; simpl; auto.
  - unfold Scrub.scrubRule.
    destruct (Scrub.isPlaceholder phf pho r) eqn:Hp; auto.
    destruct (skip_scrubbed _ Hp) as [-> ->]; reflexivity.
  - rewrite H. reflexivity.
Qed.

Lemma scrub_expr tokenOf separator notPrefix optionsOf :
  (forall i c n rs rs',
      separator (mkGroup i c n rs) = separator (mkGroup i c n rs')) ->
  forall rg b,
    Format.processRuleGroup_expr S vm tokenOf separator notPrefix optionsOf
      (scrub rg) b
    = Format.processRuleGroup_expr S vm tokenOf separator notPrefix
        optionsOf rg b.
Proof.
  intros Hsep.
  induction rg as [i c n rs IH] using RuleGroup_nested_ind. intros b.
  unfold scrub in *. simpl. same_group i c n rs.
  destruct (negb _); [reflexivity|].
  rewrite map_map, (Hsep i c n _ rs).
  erewrite map_ext_Forall; [reflexivity|]. per_rule IH.
Qed.

Lemma scrub_logic : forall rg,
  Format.processRuleGroup_logic E S vm (scrub rg)
  = Format.processRuleGroup_logic E S vm rg.
Proof.
  induction rg as [i c n rs IH] using RuleGroup_nested_ind.
  unfold scrub in *. simpl. same_group i c n rs.
  destruct (negb _); [reflexivity|].
  rewrite map_map.
  erewrite map_ext_Forall; [reflexivity|]. per_rule IH.
Qed.

Lemma scrub_es : forall rg,
  Format.processRuleGroup_es E S vm (scrub rg)
  = Format.processRuleGroup_es E S vm rg.
Proof.
  induction rg as [i c n rs IH] using RuleGroup_nested_ind.
  unfold scrub in *. simpl. same_group i c n rs.
  destruct (negb _); [reflexivity|].
  rewrite map_map.
  erewrite map_ext_Forall; [reflexivity|]. per_rule IH.
Qed.

Lemma scrub_rule_param r st :
  Format.processRule_param E S vm (Scrub.scrubRule phf pho r) st
  = Format.processRule_param E S vm r st.
Proof.
  unfold Scrub.scrubRule.
  destruct (Scrub.isPlaceholder phf pho r) eqn:Hp; auto.
  unfold Format.processRule_param.
  destruct (skip_scrubbed _ Hp) as [-> ->]; reflexivity.
Qed.

Lemma scrub_param : forall rg b st,
  Format.processRuleGroup_param E S vm (scrub rg) b st
  = Format.processRuleGroup_param E S vm rg b st.
Proof.
  induction rg as [i c n rs IH] using RuleGroup_nested_ind. intros b st.
  unfold scrub in *. simpl. same_group i c n rs.
  destruct (negb _); [reflexivity|].
  rewrite length_map.
  generalize (Nat.eqb (List.length rs) 1). intros lonely.
  match goal with
  | |- bindC ?a _ = bindC ?b _ => assert (Heach : a = b)
  end.
  { revert st. induction rs as [|x rs IHrs]; intros st; [reflexivity|].
    inversion IH as [|? ? Hx Hrs]; subst.
    cbn [map].
    assert (Hone :
      match match x with
            | RRule r => RRule (Scrub.scrubRule phf pho r)
            | RGroup g => RGroup (Scrub.scrub phf pho g)
            | RComb t => RComb t
            end with
      | RRule r => Format.processRule_param E S vm r st
      | RGroup g => Format.processRuleGroup_param E S vm g lonely st
      | RComb c0 => Normal (JStr c0, st)
      end
      = match x with
        | RRule r => Format.processRule_param E S vm r st
        | RGroup g => Format.processRuleGroup_param E S vm g lonely st
        | RComb c0 => Normal (JStr c0, st)
        end).
    { destruct x as [r|g|t]; auto using scrub_rule_param. }
    rewrite Hone.
    match goal with
    | |- bindC ?m _ = _ => destruct m as [[v st']|]; [|reflexivity]
    end.
    cbn [bindC snd fst]. rewrite (IHrs Hrs st'). reflexivity. }
  rewrite Heach. reflexivity.
Qed.
End ScrubProofs.

(** ** Placeholder rules are passed over

    Each region passes over a placeholder rule before anything of it is
    read and drops what it rendered for it before joining, so the tree
    without its placeholder rules is processed like the tree. *)

Lemma sequenceC_length {A} (l : list (Completion A)) (vs : list A) :
  sequenceC l = Normal vs -> List.length vs = List.length l.
Proof.
  revert vs. induction l as [|c l IH]; intros vs; cbn [sequenceC].
  - intros H. inversion H. reflexivity.
  - destruct c as [a|]; [|discriminate]. cbn [bindC].
    destruct (sequenceC l) as [xs|]; [|discriminate]. cbn [bindC].
    intros H. inversion H. cbn [List.length]. rewrite (IH xs); reflexivity.
Qed.

Section PruneProofs.

Variable E : Collaborators.
Variable S : Format.Settings.
Variable vm : ValidationMap.
Let phf := Format.placeholderFieldName S.
Let pho := Format.placeholderOperatorName S.
Let prune := Scrub.prune phf pho.
Let pruneElement := Scrub.pruneElement phf pho.
Let isPlaceholder := Scrub.isPlaceholder phf pho.

Lemma prune_group i c n rs :
  prune (mkGroup i c n rs) = mkGroup i c n (flat_map pruneElement rs).
Proof. reflexivity. Qed.

Let alike {A} := @Scrub.alike phf pho A.
Let noGroup := Scrub.noGroup.

Lemma sequence_pruned {A} (keep : A -> bool)
    (f g : RuleOrGroup -> Completion A) (rs : list RuleOrGroup) :
  Forall (alike keep f g) rs ->
  match sequenceC (map f rs),
        sequenceC (map g (flat_map pruneElement rs)) with
  | Normal vs, Normal vs' => filter keep vs = filter keep vs'
  | TypeError, TypeError => True
  | _, _ => False
  end.
Proof.
  induction 1 as [|x rs Hx _ IH]; [reflexivity|].
  cbn [map flat_map sequenceC].
  assert (Hcons : forall y, g y = f x ->
    match (a <- f x ;; xs <- sequenceC (map f rs) ;; Normal (a :: xs)),
          sequenceC (map g ([y] ++ flat_map pruneElement rs)) with
    | Normal vs, Normal vs' => filter keep vs = filter keep vs'
    | TypeError, TypeError => True
    | _, _ => False
    end).
  { intros y Hy. cbn [app map sequenceC]. rewrite Hy.
    destruct (f x) as [a|]; [|exact I]. cbn [bindC].
    destruct (sequenceC (map f rs)) as [vs|],
             (sequenceC (map g (flat_map pruneElement rs))) as [vs'|];
      cbn [bindC]; try exact IH.
    cbn [filter]. rewrite IH. reflexivity. }
  destruct x as [r|h|t]; unfold alike, Scrub.alike in Hx;
    cbn [pruneElement Scrub.pruneElement].
  - destruct (Scrub.isPlaceholder phf pho r).
    + destruct Hx as [v [-> Hv]]. cbn [bindC app].
      destruct (sequenceC (map f rs)) as [vs|],
               (sequenceC (map g (flat_map pruneElement rs))) as [vs'|];
        cbn [bindC]; try exact IH.
      cbn [filter]. rewrite Hv. exact IH.
    + apply Hcons, Hx.
  - apply Hcons, Hx.
  - apply Hcons, Hx.
Qed.

Lemma kept_length rs :
  List.length (flat_map pruneElement rs)
  = List.length (Scrub.kept phf pho rs).
Proof.
  induction rs as [|x rs IH]; [reflexivity|].
  cbn [flat_map Scrub.kept filter]. rewrite length_app.
  fold (Scrub.kept phf pho rs). rewrite IH.
  destruct x as [r|h|t]; cbn; try reflexivity.
  fold isPlaceholder. destruct (isPlaceholder r); reflexivity.
Qed.

Lemma kept_all rs :
  forallb (fun x => negb (Scrub.isPlaceholderElement phf pho x)) rs = true ->
  Scrub.kept phf pho rs = rs.
Proof.
  induction rs as [|x rs IH]; [reflexivity|]. cbn [forallb Scrub.kept filter].
  intros H. apply andb_prop in H. destruct H as [Hx Hrs]. rewrite Hx.
  fold (Scrub.kept phf pho rs). rewrite IH; auto.
Qed.

Lemma kept_no_group rs x :
  Scrub.kept phf pho rs = [x] ->
  match x with RGroup _ => False | _ => True end ->
  noGroup rs.
Proof.
  revert x. induction rs as [|y rs IH]; intros x; [constructor|].
  cbn [Scrub.kept filter]. fold (Scrub.kept phf pho rs).
  destruct y as [r|h|t]; cbn [Scrub.isPlaceholderElement negb].
  - destruct (Scrub.isPlaceholder phf pho r); cbn [negb].
    + intros H Hx. constructor; [exact I | eapply IH; eassumption].
    + intros H Hx. inversion H as [[Hy Hk]]. constructor; [exact I|].
      clear - Hk. induction rs as [|z rs IH]; [constructor|].
      cbn [Scrub.kept filter] in Hk.
      destruct z as [r|h|t]; cbn [Scrub.isPlaceholderElement negb] in Hk;
        try discriminate.
      destruct (Scrub.isPlaceholder phf pho r); cbn [negb] in Hk;
        [|discriminate].
      constructor; [exact I | apply IH, Hk].
  - intros H Hx. inversion H; subst. contradiction.
  - intros H Hx. inversion H as [[Hy Hk]]. constructor; [exact I|].
    clear - Hk. induction rs as [|z rs IH]; [constructor|].
    cbn [Scrub.kept filter] in Hk.
    destruct z as [r|h|t0]; cbn [Scrub.isPlaceholderElement negb] in Hk;
      try discriminate.
    destruct (Scrub.isPlaceholder phf pho r); cbn [negb] in Hk;
      [|discriminate].
    constructor; [exact I | apply IH, Hk].
Qed.

Lemma shape_here i c n rs :
  Scrub.keepsShape phf pho (mkGroup i c n rs) = true ->
  (rs = [] <-> flat_map pruneElement rs = [])
  /\ (Nat.eqb (List.length (flat_map pruneElement rs)) 1
      = Nat.eqb (List.length rs) 1
      \/ noGroup rs)
  /\ Forall (fun x => match x with
                      | RGroup g => Scrub.keepsShape phf pho g = true
                      | _ => True
                      end) rs.
Proof.
  cbn [Scrub.keepsShape]. intros H. apply andb_prop in H.
  destruct H as [Hhere Hsub]. split; [|split].
  - split; [intros ->; reflexivity|]. intros Hp.
    apply (f_equal (@List.length _)) in Hp. rewrite kept_length in Hp.
    apply Bool.orb_prop in Hhere. destruct Hhere as [Hall | Hk].
    + rewrite (kept_all _ Hall) in Hp. destruct rs; [reflexivity|discriminate].
    + destruct (Scrub.kept phf pho rs); discriminate.
  - rewrite kept_length.
    apply Bool.orb_prop in Hhere. destruct Hhere as [Hall | Hk].
    + rewrite (kept_all _ Hall). left. reflexivity.
    + destruct (Scrub.kept phf pho rs) as [|x [|y l]] eqn:Hkept;
        try discriminate.
      * right. apply (kept_no_group rs x Hkept).
        destruct x; [exact I | discriminate | exact I].
      * assert (Hlen : (2 <= List.length rs)%nat).
        { assert (Hle : (List.length (Scrub.kept phf pho rs)
                         <= List.length rs)%nat)
            by apply filter_length_le.
          rewrite Hkept in Hle. cbn [List.length] in Hle. lia. }
        left. cbn [List.length].
        destruct (List.length rs) as [|[|k]]; try lia. reflexivity.
  - apply Forall_forall. intros x Hx.
    rewrite forallb_forall in Hsub. specialize (Hsub x Hx).
    destruct x; auto.
Qed.


Lemma bind_pruned_filtered {A B} (keep : A -> bool)
    (f g : RuleOrGroup -> Completion A) (rs : list RuleOrGroup)
    (K K' : list A -> Completion B) :
  Forall (alike keep f g) rs ->
  (forall vs vs', filter keep vs = filter keep vs' -> K' vs' = K vs) ->
  bindC (sequenceC (map g (flat_map pruneElement rs))) K'
  = bindC (sequenceC (map f rs)) K.
Proof.
  intros Hall HK. pose proof (sequence_pruned keep f g rs Hall) as H.
  destruct (sequenceC (map f rs)) as [vs|],
           (sequenceC (map g (flat_map pruneElement rs))) as [vs'|];
    try contradiction; cbn [bindC]; auto.
Qed.

Lemma bind_pruned_counted {A B} (keep : A -> bool)
    (f g : RuleOrGroup -> Completion A) (rs : list RuleOrGroup)
    (K K' : list A -> Completion B) :
  Forall (alike keep f g) rs ->
  (rs = [] <-> flat_map pruneElement rs = []) ->
  (forall vs vs',
      filter keep vs = filter keep vs' ->
      (vs = [] <-> vs' = []) -> K' vs' = K vs) ->
  bindC (sequenceC (map g (flat_map pruneElement rs))) K'
  = bindC (sequenceC (map f rs)) K.
Proof.
  intros Hall Hempty HK.
  pose proof (sequence_pruned keep f g rs Hall) as H.
  destruct (sequenceC (map f rs)) as [vs|] eqn:Hvs,
           (sequenceC (map g (flat_map pruneElement rs))) as [vs'|] eqn:Hvs';
    try contradiction; cbn [bindC]; auto.
  apply HK; [exact H|].
  apply sequenceC_length in Hvs, Hvs'. rewrite length_map in Hvs, Hvs'.
  split; intros ->.
  - destruct rs; [|discriminate Hvs].
    destruct vs'; [reflexivity | discriminate Hvs'].
  - assert (Hp : flat_map pruneElement rs = [])
      by (destruct (flat_map pruneElement rs);
          [reflexivity | discriminate Hvs']).
    apply Hempty in Hp. subst rs. destruct vs; [reflexivity | discriminate].
Qed.

Ltac same_valid i c n rs :=
  replace (Format.groupValid vm (mkGroup i c n (flat_map pruneElement rs)))
    with (Format.groupValid vm (mkGroup i c n rs)) by reflexivity.

(** The elements of a group are treated alike by a rendering that
    passes over skipped rules, given that its nested groups are. *)
Lemma alike_elements {A} (keep : A -> bool)
    (f g : RuleOrGroup -> Completion A) (dropped : A)
    (rs : list RuleOrGroup) :
  keep dropped = false ->
  (forall r, Format.skipRule S vm r = true -> f (RRule r) = Normal dropped) ->
  (forall r, g (RRule r) = f (RRule r)) ->
  (forall t, g (RComb t) = f (RComb t)) ->
  Forall (fun x => match x with
                   | RGroup h => g (RGroup (prune h)) = f x
                   | _ => True
                   end) rs ->
  Forall (alike keep f g) rs.
Proof.
  intros Hd Hskip Hrule Htok Hsub.
  eapply Forall_impl; [|exact Hsub].
  intros [r|h|t] H; unfold alike, Scrub.alike; auto.
  destruct (Scrub.isPlaceholder phf pho r) eqn:Hp; auto.
  exists dropped. split; [|exact Hd]. apply Hskip, (skip_placeholder S vm), Hp.
Qed.

Lemma prune_sql : forall rg b,
  Scrub.keepsShape phf pho rg = true ->
  Format.processRuleGroup_sql E S vm (prune rg) b
  = Format.processRuleGroup_sql E S vm rg b.
Proof.
  induction rg as [i c n rs IH] using RuleGroup_nested_ind. intros b Hshape.
  destruct (shape_here i c n rs Hshape) as [Hempty [Hlonely Hsub]].
  rewrite prune_group. cbn [Format.processRuleGroup_sql].
  same_valid i c n rs. destruct (negb _); [reflexivity|].
  change (map _ (flat_map pruneElement rs))
    with (map (Format.processChild_sql E S vm
                 (Nat.eqb (List.length (flat_map pruneElement rs)) 1))
              (flat_map pruneElement rs)).
  change (map _ rs)
    with (map (Format.processChild_sql E S vm
                 (Nat.eqb (List.length rs) 1)) rs).
  apply (bind_pruned_counted JS.truthy); [|exact Hempty|].
  - apply (alike_elements _ _ _ (JStr "")); auto.
    + intros r Hs. cbn [Format.processChild_sql]. rewrite Hs. reflexivity.
    + rewrite Forall_forall in IH, Hsub. apply Forall_forall.
      intros [r|h|t] Hx; auto. cbn [Format.processChild_sql].
      specialize (IH _ Hx). specialize (Hsub _ Hx). cbn beta iota in IH, Hsub.
      destruct Hlonely as [-> | Hno]; [apply IH, Hsub|].
      unfold noGroup, Scrub.noGroup in Hno. rewrite Forall_forall in Hno.
      destruct (Hno _ Hx).
  - intros vs vs' Hf He. unfold JS.filterBoolean. rewrite Hf.
    destruct vs, vs'; try reflexivity.
    + destruct He as [He _]. discriminate (He eq_refl).
    + destruct He as [_ He]. discriminate (He eq_refl).
Qed.

Lemma prune_nl : forall rg b,
  Scrub.keepsShape phf pho rg = true ->
  Format.processRuleGroup_nl E S vm (prune rg) b
  = Format.processRuleGroup_nl E S vm rg b.
Proof.
  induction rg as [i c n rs IH] using RuleGroup_nested_ind. intros b Hshape.
  destruct (shape_here i c n rs Hshape) as [Hempty [Hlonely Hsub]].
  rewrite prune_group. cbn [Format.processRuleGroup_nl].
  same_valid i c n rs. destruct (negb _); [reflexivity|].
  match goal with
  | |- bindC (sequenceC (map ?g _)) _ = bindC (sequenceC (map ?f _)) _ =>
      apply (bind_pruned_counted JS.truthy f g); [|exact Hempty|]
  end.
  - apply (alike_elements _ _ _ (JStr "")); auto.
    + intros r Hs. rewrite Hs. reflexivity.
    + rewrite Forall_forall in IH, Hsub. apply Forall_forall.
      intros [r|h|t] Hx; auto.
      specialize (IH _ Hx). specialize (Hsub _ Hx). cbn beta iota in IH, Hsub.
      destruct Hlonely as [-> | Hno]; [apply IH, Hsub|].
      unfold noGroup, Scrub.noGroup in Hno. rewrite Forall_forall in Hno.
      destruct (Hno _ Hx).
  - intros vs vs' Hf He. unfold JS.filterBoolean. rewrite Hf.
    destruct vs, vs'; try reflexivity.
    + destruct He as [He _]. discriminate (He eq_refl).
    + destruct He as [_ He]. discriminate (He eq_refl).
Qed.

Lemma prune_expr tokenOf separator notPrefix optionsOf :
  (forall i c n rs rs',
      separator (mkGroup i c n rs) = separator (mkGroup i c n rs')) ->
  forall rg b,
    Format.processRuleGroup_expr S vm tokenOf separator notPrefix optionsOf
      (prune rg) b
    = Format.processRuleGroup_expr S vm tokenOf separator notPrefix
        optionsOf rg b.
Proof.
  intros Hsep.
  induction rg as [i c n rs IH] using RuleGroup_nested_ind. intros b.
  rewrite prune_group. cbn [Format.processRuleGroup_expr].
  same_valid i c n rs. destruct (negb _); [reflexivity|].
  rewrite (Hsep i c n _ rs).
  match goal with
  | |- bindC (sequenceC (map ?g _)) _ = bindC (sequenceC (map ?f _)) _ =>
      apply (bind_pruned_filtered JS.truthy f g)
  end.
  - apply (alike_elements _ _ _ (JStr "")); auto.
    + intros r Hs. rewrite Hs. reflexivity.
    + eapply Forall_impl; [|exact IH]. intros [r|h|t] H; auto.
  - intros vs vs' Hf. unfold JS.filterBoolean. rewrite Hf. reflexivity.
Qed.

Lemma prune_logic : forall rg,
  Format.processRuleGroup_logic E S vm (prune rg)
  = Format.processRuleGroup_logic E S vm rg.
Proof.
  induction rg as [i c n rs IH] using RuleGroup_nested_ind.
  rewrite prune_group. cbn [Format.processRuleGroup_logic].
  same_valid i c n rs. destruct (negb _); [reflexivity|].
  match goal with
  | |- bindC (sequenceC (map ?g _)) _ = bindC (sequenceC (map ?f _)) _ =>
      apply (bind_pruned_filtered JS.truthy f g)
  end.
  - apply (alike_elements _ _ _ (JBool false)); auto.
    + intros r Hs. rewrite Hs. reflexivity.
    + eapply Forall_impl; [|exact IH]. intros [r|h|t] H; auto.
  - intros vs vs' Hf. unfold JS.filterBoolean. rewrite Hf. reflexivity.
Qed.

Lemma prune_es : forall rg,
  Format.processRuleGroup_es E S vm (prune rg)
  = Format.processRuleGroup_es E S vm rg.
Proof.
  induction rg as [i c n rs IH] using RuleGroup_nested_ind.
  rewrite prune_group. cbn [Format.processRuleGroup_es].
  same_valid i c n rs. destruct (negb _); [reflexivity|].
  match goal with
  | |- bindC (sequenceC (map ?g _)) _ = bindC (sequenceC (map ?f _)) _ =>
      apply (bind_pruned_filtered JS.truthy f g)
  end.
  - apply (alike_elements _ _ _ (JBool false)); auto.
    + intros r Hs. rewrite Hs. reflexivity.
    + eapply Forall_impl; [|exact IH]. intros [r|h|t] H; auto.
  - intros vs vs' Hf. unfold JS.filterBoolean. rewrite Hf. reflexivity.
Qed.

(** In the MongoDB region an element counts when it is a rendered
    subgroup or renders to something that is kept. *)
Lemma counted_children (vs : list (bool * json)) :
  existsb fst vs
  = existsb fst (filter (fun p => (fst p || JS.truthy (snd p))%bool) vs)
  /\ JS.filterBoolean (map snd vs)
     = JS.filterBoolean
         (map snd (filter (fun p => (fst p || JS.truthy (snd p))%bool) vs)).
Proof.
  induction vs as [|[b v] vs [IH1 IH2]]; [split; reflexivity|].
  unfold JS.filterBoolean in *. cbn [existsb filter map fst snd].
  destruct b, (JS.truthy v) eqn:Hv;
    cbn [orb existsb map filter fst snd]; rewrite ?Hv, <- ?IH1, ?IH2;
    split; reflexivity.
Qed.

Lemma prune_mongodb : forall rg b,
  Format.processRuleGroup_mongodb E S vm (prune rg) b
  = Format.processRuleGroup_mongodb E S vm rg b.
Proof.
  induction rg as [i c n rs IH] using RuleGroup_nested_ind. intros b.
  rewrite prune_group. cbn [Format.processRuleGroup_mongodb].
  same_valid i c n rs. destruct (negb _); [reflexivity|].
  destruct c as [c|]; [|reflexivity].
  match goal with
  | |- bindC (sequenceC (map ?g _)) _ = bindC (sequenceC (map ?f _)) _ =>
      apply (bind_pruned_filtered
               (fun p => (fst p || JS.truthy (snd p))%bool) f g)
  end.
  - apply (alike_elements _ _ _ (false, JStr "")); auto.
    + intros r Hs. rewrite Hs. reflexivity.
    + eapply Forall_impl; [|exact IH]. intros [r|h|t] H; auto.
      cbn beta iota. rewrite H. reflexivity.
  - intros vs vs' Hf.
    destruct (counted_children vs) as [-> ->].
    destruct (counted_children vs') as [-> ->].
    rewrite Hf. reflexivity.
Qed.

Lemma prune_param : forall rg b st,
  Scrub.keepsShape phf pho rg = true ->
  Format.processRuleGroup_param E S vm (prune rg) b st
  = Format.processRuleGroup_param E S vm rg b st.
Proof.
  induction rg as [i c n rs IH] using RuleGroup_nested_ind. intros b st Hshape.
  destruct (shape_here i c n rs Hshape) as [Hempty [Hlonely Hsub]].
  rewrite prune_group. cbn [Format.processRuleGroup_param].
  same_valid i c n rs. destruct (negb _); [reflexivity|].
  set (lonely' := Nat.eqb (List.length (flat_map pruneElement rs)) 1) in *.
  set (lonely := Nat.eqb (List.length rs) 1) in *.
  assert (Hflag : lonely' = lonely \/ noGroup rs) by exact Hlonely.
  clearbody lonely lonely'. clear Hlonely Hshape.
  match goal with
  | |- bindC (?walk' _ st) _ = bindC (?walk _ st) _ =>
      set (each' := walk'); set (each := walk)
  end.
  assert (Heach : forall l st0,
    Forall (fun x => match x with
                     | RGroup g =>
                         forall b st,
                           Scrub.keepsShape phf pho g = true ->
                           Format.processRuleGroup_param E S vm (prune g) b st
                           = Format.processRuleGroup_param E S vm g b st
                     | _ => True
                     end) l ->
    Forall (fun x => match x with
                     | RGroup g => Scrub.keepsShape phf pho g = true
                     | _ => True
                     end) l ->
    (lonely' = lonely \/ noGroup l) ->
    match each l st0, each' (flat_map pruneElement l) st0 with
    | Normal (vs, s1), Normal (vs', s2) =>
        JS.filterBoolean vs = JS.filterBoolean vs' /\ s1 = s2
        /\ List.length vs = List.length l
        /\ List.length vs' = List.length (flat_map pruneElement l)
    | TypeError, TypeError => True
    | _, _ => False
    end).
  { induction l as [|x l IHl]; intros st0 Hih Hsh Hfl.
    - cbn. auto.
    - inversion Hih as [|? ? Hx Hl]; subst.
      inversion Hsh as [|? ? Hsx Hsl]; subst.
      assert (Hfl' : lonely' = lonely \/ noGroup l).
      { destruct Hfl as [Hfl|Hfl]; [left; exact Hfl|].
        right. inversion Hfl; assumption. }
      assert (Hcons : forall y (one : Completion (json * Format.PState)),
        match y with
        | RComb c0 => Normal (JStr c0, st0)
        | RGroup g => Format.processRuleGroup_param E S vm g lonely' st0
        | RRule r => Format.processRule_param E S vm r st0
        end = one ->
        match x with
        | RComb c0 => Normal (JStr c0, st0)
        | RGroup g => Format.processRuleGroup_param E S vm g lonely st0
        | RRule r => Format.processRule_param E S vm r st0
        end = one ->
        match each (x :: l) st0, each' (y :: flat_map pruneElement l) st0 with
        | Normal (vs, s1), Normal (vs', s2) =>
            JS.filterBoolean vs = JS.filterBoolean vs' /\ s1 = s2
            /\ List.length vs = Datatypes.S (List.length l)
            /\ List.length vs'
               = Datatypes.S (List.length (flat_map pruneElement l))
        | TypeError, TypeError => True
        | _, _ => False
        end).
      { intros y one Hy Hx'.
        change (each (x :: l) st0)
          with (one <- match x with
                       | RComb c0 => Normal (JStr c0, st0)
                       | RGroup g =>
                           Format.processRuleGroup_param E S vm g lonely st0
                       | RRule r => Format.processRule_param E S vm r st0
                       end ;;
                rest <- each l (snd one) ;;
                Normal (fst one :: fst rest, snd rest)).
        change (each' (y :: flat_map pruneElement l) st0)
          with (one <- match y with
                       | RComb c0 => Normal (JStr c0, st0)
                       | RGroup g =>
                           Format.processRuleGroup_param E S vm g lonely' st0
                       | RRule r => Format.processRule_param E S vm r st0
                       end ;;
                rest <- each' (flat_map pruneElement l) (snd one) ;;
                Normal (fst one :: fst rest, snd rest)).
        rewrite Hy, Hx'. destruct one as [[v s1]|]; [|exact I].
        cbn [bindC snd fst].
        specialize (IHl s1 Hl Hsl Hfl').
        destruct (each l s1) as [[vs sa]|],
                 (each' (flat_map pruneElement l) s1) as [[vs' sb]|];
          try contradiction; cbn [bindC fst snd]; auto.
        destruct IHl as [Hf [Hs [Hl1 Hl2]]].
        unfold JS.filterBoolean in *. cbn [filter List.length].
        rewrite Hf, Hl1, Hl2. auto. }
      change (flat_map pruneElement (x :: l))
        with (pruneElement x ++ flat_map pruneElement l)%list.
      destruct x as [r|g|t].
      + change (pruneElement (RRule r))
          with (if Scrub.isPlaceholder phf pho r then [] else [RRule r]).
        destruct (Scrub.isPlaceholder phf pho r) eqn:Hp; cbn [app].
        *
          change (each (RRule r :: l) st0)
            with (one <- Format.processRule_param E S vm r st0 ;;
                  rest <- each l (snd one) ;;
                  Normal (fst one :: fst rest, snd rest)).
          unfold Format.processRule_param at 1.
          rewrite (skip_placeholder S vm r Hp). cbn [bindC fst snd].
          specialize (IHl st0 Hl Hsl Hfl').
          destruct (each l st0) as [[vs sa]|],
                   (each' (flat_map pruneElement l) st0) as [[vs' sb]|];
            try contradiction; cbn [bindC fst snd]; auto.
          destruct IHl as [Hf [Hs [Hl1 Hl2]]].
          unfold JS.filterBoolean in *.
          cbn [filter JS.truthy String.eqb negb List.length].
          rewrite Hl1. auto.
        * eapply (Hcons (RRule r)); reflexivity.
      + change (pruneElement (RGroup g)) with [RGroup (prune g)].
        cbn [app]. eapply (Hcons (RGroup (prune g))); [|reflexivity].
        cbn beta iota in Hx. rewrite (Hx _ _ Hsx).
        destruct Hfl as [-> | Hno]; [reflexivity|].
        inversion Hno; contradiction.
      + change (pruneElement (RComb t)) with [RComb t].
        cbn [app]. eapply (Hcons (RComb t)); reflexivity. }
  specialize (Heach rs st IH Hsub Hflag).
  destruct (each rs st) as [[vs s1]|],
           (each' (flat_map pruneElement rs) st) as [[vs' s2]|];
    try contradiction; cbn [bindC]; auto.
  destruct Heach as [Hf [-> [Hl1 Hl2]]]. rewrite Hf.
  destruct vs, vs'; try reflexivity.
  - destruct rs; [|discriminate Hl1].
    discriminate Hl2.
  - assert (Hp : flat_map pruneElement rs = [])
      by (destruct (flat_map pruneElement rs);
          [reflexivity | discriminate Hl2]).
    apply Hempty in Hp. subst rs. discriminate Hl1.
Qed.

End PruneProofs.

Section PlaceholderSuppression.

Variable E : Collaborators.

(** C3, as amended: for every export format other than [json] and
    [json_without_ids], and a validator that does not reject the whole
    query, [formatQuery] returns what the region of the format makes of
    the tree it walks, and in that result placeholder rules (field or
    operator equal to the sentinel) are dropped, whatever the validation
    says about them:
    - nothing a placeholder rule holds reaches the output: the tree
      whose placeholder rules are blanked gives the same result;
    - the rules themselves leave no trace: the tree from which they are
      removed gives the same result, in [cel], [spel], [jsonata],
      [mongodb], [jsonlogic], [postgrest] and [elasticsearch] always, and
      in [sql], the parameterized formats and [natural_language] as long
      as the removal leaves no group empty and none with a lone subgroup
      (these regions count the rules before they filter);
    - so [formatQuery] itself returns for the query without its
      placeholder rules what it returns for the query, when the validator
      answers alike for the two and the query is walked as it is (its
      root has a combinator, or the format does not convert). *)
Theorem placeholder_rules_are_dropped (rg : RuleGroup) (arg : FormatArg) :
  let S := Format.readOptions E arg in
  let placeholderField := Format.placeholderFieldName S in
  let placeholderOperator := Format.placeholderOperatorName S in
  let tree := Format.walked E S rg in
  let validationMap := Format.validationMapOf (Format.validator S rg) in
  Format.format S <> json_fmt ->
  Format.format S <> json_without_ids ->
  Format.validator S rg <> QVBool false ->
  Format.formatQuery E rg arg = Format.region E S validationMap tree
  /\ Format.region E S validationMap
       (Scrub.scrub placeholderField placeholderOperator tree)
     = Format.region E S validationMap tree
  /\ (fallsBackOnEmptyJoin (Format.format S) = true
      \/ Scrub.keepsShape placeholderField placeholderOperator tree = true ->
      Format.region E S validationMap
        (Scrub.prune placeholderField placeholderOperator tree)
      = Format.region E S validationMap tree)
  /\ (fallsBackOnEmptyJoin (Format.format S) = true
      \/ Scrub.keepsShape placeholderField placeholderOperator tree = true ->
      Format.convertsFromIC (Format.format S) = false
      \/ isRuleGroupType rg = true ->
      Format.validator S
        (Scrub.prune placeholderField placeholderOperator rg)
      = Format.validator S rg ->
      Format.formatQuery E
        (Scrub.prune placeholderField placeholderOperator rg) arg
      = Format.formatQuery E rg arg).
Proof.
  intros S phf pho tree vm Hj Hw Hv.
  assert (Hregion : forall t,
    Format.validator S t <> QVBool false ->
    Format.formatQuery E t arg
    = Format.region E S (Format.validationMapOf (Format.validator S t))
        (Format.walked E S t)).
  { intros t Ht.
    unfold Format.formatQuery, Format.region, Format.walked,
      Format.validationMapOf.
    fold S.
    destruct (Format.validator S t) as [[|]|m]; try congruence;
      destruct (Format.format S); try congruence; reflexivity. }
  assert (Hpruned :
    fallsBackOnEmptyJoin (Format.format S) = true
    \/ Scrub.keepsShape phf pho tree = true ->
    Format.region E S vm (Scrub.prune phf pho tree)
    = Format.region E S vm tree).
  { intros Hshape.
    unfold Format.region, Format.processRuleGroup_cel,
      Format.processRuleGroup_spel, Format.processRuleGroup_jsonata.
    destruct (Format.format S); try congruence;
      cbn [fallsBackOnEmptyJoin] in Hshape;
      unfold phf, pho in *;
      rewrite ?prune_mongodb, ?prune_logic, ?prune_es; try reflexivity;
      try (apply prune_expr; intros; reflexivity);
      (destruct Hshape as [Hshape | Hshape]; [discriminate Hshape|]);
      rewrite ?prune_sql, ?prune_nl, ?prune_param by exact Hshape;
      reflexivity. }
  split; [|split; [|split]].
  - apply Hregion, Hv.
  - unfold Format.region, Format.processRuleGroup_cel,
      Format.processRuleGroup_spel, Format.processRuleGroup_jsonata.
    destruct (Format.format S); try congruence;
      unfold phf, pho;
      rewrite ?scrub_sql, ?scrub_nl, ?scrub_param, ?scrub_mongodb,
        ?scrub_logic, ?scrub_es; try reflexivity;
      apply scrub_expr; intros; reflexivity.
  - exact Hpruned.
  - intros Hshape Hsame Hval.
    assert (Hwalk : Format.walked E S (Scrub.prune phf pho rg)
                    = Scrub.prune phf pho tree).
    { unfold tree, Format.walked, Format.standardised.
      destruct Hsame as [-> | Hstd]; [reflexivity|].
      replace (isRuleGroupType (Scrub.prune phf pho rg))
        with (isRuleGroupType rg) by (destruct rg; reflexivity).
      rewrite Hstd. destruct (Format.convertsFromIC _); reflexivity. }
    rewrite (Hregion rg Hv), Hregion by (rewrite Hval; exact Hv).
    rewrite Hval, Hwalk. apply Hpruned, Hshape.
Qed.

End PlaceholderSuppression.

(** C3, as stated, fails in two ways.  The JSON formats print a
    placeholder rule like any other: the output of [json_without_ids]
    changes when the rule is removed.  And in the regions that count the
    rules before they filter, a placeholder rule, though it prints
    nothing, still counts as a rule of its group: in [sql] the group
    holding only such a rule is rendered [()], the group without it
    [(1 = 1)]; in [natural_language] a subgroup beside such a rule is
    put in parentheses, the same subgroup alone is not. *)
Lemma placeholder_rule_shows_in_output :
  Format.formatQuery Example.collaborators Example.onlyDraft
    (ByName json_without_ids)
  <> Format.formatQuery Example.collaborators
       (Scrub.prune "~" "~" Example.onlyDraft) (ByName json_without_ids)
  /\ Format.formatQuery Example.collaborators Example.onlyDraft (ByName sql)
     = Normal (JStr "()")
  /\ Format.formatQuery Example.collaborators
       (Scrub.prune "~" "~" Example.onlyDraft) (ByName sql)
     = Normal (JStr "(1 = 1)")
  /\ Format.formatQuery Example.collaborators Samples.draftBesideSubgroup
       (ByName natural_language)
     = Normal (JStr "(b = 2) is true")
  /\ Format.formatQuery Example.collaborators
       (Scrub.prune "~" "~" Samples.draftBesideSubgroup)
       (ByName natural_language)
     = Normal (JStr "b = 2").
Proof.
  split; [vm_compute; discriminate|]. repeat split; reflexivity.
Qed.

Lemma placeholder_rules_are_dropped_witness :
  Format.formatQuery Example.collaborators
    (Scrub.prune "~" "~" Samples.withDrafts) (ByName sql)
  = Format.formatQuery Example.collaborators Samples.withDrafts (ByName sql).
Proof.
  apply (proj2 (proj2 (proj2
           (placeholder_rules_are_dropped Example.collaborators
              Samples.withDrafts (ByName sql)
              ltac:(discriminate) ltac:(discriminate)
              ltac:(discriminate))))).
  - right. reflexivity.
  - left. reflexivity.
  - reflexivity.
Defined.

(** The sample tree with its two placeholder rules, in three formats. *)
Example drafts_leave_no_trace :
  map (fun f => Format.formatQuery Example.collaborators Samples.withDrafts
                  (ByName f))
      [sql; cel; postgrest]
  = [Normal (JStr "(a = 1 and (b = 2))");
     Normal (JStr "a = 1 && (b = 2)");
     Normal (JObj [("and",
               JArr [JObj [("==", JArr [Example.var "a"; JNum 1])];
                     JObj [("or",
                       JArr [JObj [("==", JArr [Example.var "b";
                                                JNum 2])]])]])])].
Proof. vm_compute. reflexivity. Qed.

(** ** The fallback law and the empty-group asymmetry *)


Section FallbackLaw.
Variable E : Collaborators.

(** C2, as amended: for every export format other than [json] and
    [json_without_ids], a validator that answers [false] for the whole
    query makes [formatQuery] return the fallback of the format,
    whatever the tree holds: the fallback expression itself, inside
    [{sql, params}] for the parameterized formats and inside braces
    for [mongodb]; [false] for [jsonlogic] and the empty object for
    [elasticsearch]. *)
Theorem rejected_query_is_fallback (rg : RuleGroup) (arg : FormatArg) :
  let S := Format.readOptions E arg in
  Format.format S <> json_fmt ->
  Format.format S <> json_without_ids ->
  Format.validator S rg = QVBool false ->
  Format.formatQuery E rg arg = Normal (Format.fallbackResult S).
Proof.
  intros S Hj Hw Hv. unfold Format.formatQuery. fold S. rewrite Hv.
  destruct (Format.format S); congruence.
Qed.

End FallbackLaw.

(** C2, as stated, fails for the JSON formats: the validator is never
    asked, and the output is the serialised tree. *)
Lemma json_formats_ignore_validator :
  Format.validator
    (Format.readOptions Example.collaborators (ByOptions Example.rejectAll))
    Example.onlyDraft = QVBool false
  /\ Format.formatQuery Example.collaborators Example.onlyDraft
       (ByOptions Example.rejectAll)
     <> Normal (Format.fallbackResult
                  (Format.readOptions Example.collaborators
                     (ByOptions Example.rejectAll)))
  /\ Format.formatQuery Example.collaborators Example.onlyDraft
       (ByOptions Example.rejectAll)
     <> Format.formatQuery Example.collaborators emptyRuleGroup
          (ByOptions Example.rejectAll).
Proof. split; [reflexivity|]. split; vm_compute; discriminate. Qed.

Lemma rejected_query_is_fallback_witness :
  Format.formatQuery Example.collaborators Example.aNotIn12
    (ByOptions (Example.withFormat postgrest Example.rejectAll))
  = Normal (JStr "(1 = 1)").
Proof.
  apply (rejected_query_is_fallback Example.collaborators Example.aNotIn12
           (ByOptions (Example.withFormat postgrest Example.rejectAll)));
    [discriminate | discriminate | reflexivity].
Defined.



(** An all-filtered group nested in another one: its empty join is an
    element of the join around it. *)
Example empty_join_in_a_subgroup :
  Format.formatQuery Example.collaborators Samples.draftInSubgroup
    (ByName sql)
  = Normal (JStr "(a = 1 and ())").
Proof. reflexivity. Qed.

(** C8: the empty group formatted as [sql] with no other option is the
    string [(1 = 1)]. *)
Theorem empty_group_sql_is_fallback (E : Collaborators) :
  Format.formatQuery E emptyRuleGroup (ByName sql) = Normal (JStr "(1 = 1)").
Proof. reflexivity. Qed.

(** ** Numbers *)

Lemma digitValue_range (d : NonZeroDigit) : 1 <= JS.digitValue d <= 9.
Proof. destruct d; cbn; lia. Qed.

Lemma digitOf_value (d : NonZeroDigit) : JS.digitOf (JS.digitValue d) = d.
Proof. destruct d; reflexivity. Qed.

Lemma mantissa_parts (d : Fraction) :
  Z.abs (JS.mantissa d)
  = 10 * Z.of_N (fr_leading d) + JS.digitValue (fr_last d)
  /\ (JS.mantissa d <? 0) = fr_negative d.
Proof.
  unfold JS.mantissa. pose proof (digitValue_range (fr_last d)) as Hd.
  pose proof (N2Z.is_nonneg (fr_leading d)) as Hl.
  destruct (fr_negative d); split; try lia.
Qed.

Lemma mantissa_not_multiple (d : Fraction) : JS.mantissa d mod 10 <> 0.
Proof.
  intros H. apply Z.mod_divide in H; [|lia]. destruct H as [q Hq].
  destruct (mantissa_parts d) as [Ha _].
  pose proof (digitValue_range (fr_last d)) as Hd.
  lia.
Qed.

Lemma mantissa_inj (d1 d2 : Fraction) :
  JS.mantissa d1 = JS.mantissa d2 -> fr_places d1 = fr_places d2 -> d1 = d2.
Proof.
  intros Hm Hp.
  destruct (mantissa_parts d1) as [Ha1 Hn1].
  destruct (mantissa_parts d2) as [Ha2 Hn2].
  pose proof (digitValue_range (fr_last d1)) as Hd1.
  pose proof (digitValue_range (fr_last d2)) as Hd2.
  rewrite Hm in Ha1, Hn1.
  assert (Hl : fr_leading d1 = fr_leading d2) by lia.
  assert (Hv : JS.digitValue (fr_last d1) = JS.digitValue (fr_last d2)) by lia.
  assert (Hlast : fr_last d1 = fr_last d2).
  { rewrite <- (digitOf_value (fr_last d1)), Hv. apply digitOf_value. }
  destruct d1, d2; cbn in *. congruence.
Qed.

Lemma numberParts_isNumber (a : json) :
  Parse.isNumber a = true -> exists m k, JS.numberParts a = Some (m, k).
Proof. destruct a; try discriminate; intros _; cbn; eauto. Qed.

Lemma numberParts_places (a : json) (m k : Z) :
  JS.numberParts a = Some (m, k) -> 0 <= k /\ (0 < k -> m mod 10 <> 0).
Proof.
  destruct a; try discriminate; cbn; intros H; inversion H; subst.
  - split; lia.
  - split; [lia|]. intros _. apply mantissa_not_multiple.
Qed.

Lemma numberParts_same_places (a b : json) (m k : Z) :
  JS.numberParts a = Some (m, k) -> JS.numberParts b = Some (m, k) -> a = b.
Proof.
  destruct a, b; try discriminate; cbn; intros Ha Hb;
    inversion Ha; inversion Hb; subst.
  - reflexivity.
  - lia.
  - lia.
  - f_equal. apply mantissa_inj; congruence.
Qed.

Lemma scaled_multiple (m m' k j : Z) :
  0 <= k -> k < j -> m * 10 ^ j = m' * 10 ^ k -> m' mod 10 = 0.
Proof.
  intros Hk Hj H.
  replace j with (k + 1 + (j - k - 1)) in H by lia.
  rewrite !Z.pow_add_r in H by lia.
  assert (Hpos : 0 < 10 ^ k) by (apply Z.pow_pos_nonneg; lia).
  assert (H' : m' = m * 10 ^ (j - k - 1) * 10) by nia.
  rewrite H'. apply Z.mod_mul. lia.
Qed.

Lemma numberParts_inj (a b : json) (m1 k1 m2 k2 : Z) :
  JS.numberParts a = Some (m1, k1) ->
  JS.numberParts b = Some (m2, k2) ->
  m1 * 10 ^ k2 = m2 * 10 ^ k1 ->
  a = b.
Proof.
  intros Ha Hb H.
  destruct (numberParts_places _ _ _ Ha) as [Hk1 Hc1].
  destruct (numberParts_places _ _ _ Hb) as [Hk2 Hc2].
  destruct (Z.lt_trichotomy k1 k2) as [Hlt | [Heq | Hgt]].
  - exfalso. apply Hc2; [lia|]. eapply scaled_multiple; [exact Hk1 | exact Hlt | exact H].
  - subst k2.
    assert (Hpos : 0 < 10 ^ k1) by (apply Z.pow_pos_nonneg; lia).
    assert (m1 = m2) by nia. subst m2.
    eapply numberParts_same_places; eassumption.
  - exfalso. apply Hc1; [lia|]. 
    eapply scaled_multiple; [exact Hk2 | exact Hgt | symmetry; exact H].
Qed.

(** On numbers [<] is a strict order and [<=] its complement; two
    numbers neither of which is below the other are one number. *)
Lemma lessThan_asym (a b : json) :
  JS.lessThan a b = true -> JS.lessThan b a = false.
Proof.
  unfold JS.lessThan.
  destruct (JS.numberParts a) as [[m1 k1]|]; [|discriminate].
  destruct (JS.numberParts b) as [[m2 k2]|]; [|discriminate].
  intros H. apply Z.ltb_lt in H. apply Z.ltb_ge. lia.
Qed.

Lemma lessThan_antisym (a b : json) :
  Parse.isNumber a = true -> Parse.isNumber b = true ->
  JS.lessThan a b = false -> JS.lessThan b a = false -> a = b.
Proof.
  intros Ha Hb. unfold JS.lessThan.
  destruct (numberParts_isNumber a Ha) as [m1 [k1 Hpa]].
  destruct (numberParts_isNumber b Hb) as [m2 [k2 Hpb]].
  rewrite Hpa, Hpb. intros H1 H2.
  apply Z.ltb_ge in H1, H2.
  eapply numberParts_inj; [exact Hpa | exact Hpb | lia].
Qed.

Lemma lessOrEqual_not_lessThan (a b : json) :
  Parse.isNumber a = true -> Parse.isNumber b = true ->
  JS.lessOrEqual a b = negb (JS.lessThan b a).
Proof.
  intros Ha Hb. unfold JS.lessOrEqual, JS.lessThan.
  destruct (numberParts_isNumber a Ha) as [m1 [k1 ->]].
  destruct (numberParts_isNumber b Hb) as [m2 [k2 ->]].
  destruct (Z.leb_spec (m1 * 10 ^ k2) (m2 * 10 ^ k1));
    destruct (Z.ltb_spec (m2 * 10 ^ k1) (m1 * 10 ^ k2)); try lia; reflexivity.
Qed.

Lemma lessThan_integers (x y : Z) :
  JS.lessThan (JNum x) (JNum y) = (x <? y).
Proof.
  unfold JS.lessThan. cbn [JS.numberParts].
  rewrite Z.pow_0_r, !Z.mul_1_r. reflexivity.
Qed.

Lemma decimal_isNumber (m : Z) (k : nat) :
  Parse.isNumber (JS.decimal m k) = true.
Proof.
  revert m. induction k as [|k IH]; intros m; cbn [JS.decimal]; [reflexivity|].
  destruct (m mod 10 =? 0); [apply IH | reflexivity].
Qed.

Lemma numericLiteral_isNumber (s : string) (n : json) :
  Utils.numericLiteral s = Some n -> Parse.isNumber n = true.
Proof.
  unfold Utils.numericLiteral.
  repeat match goal with
         | |- context [let '(_, _) := ?p in _] => destruct p
         end.
  match goal with |- match ?e with _ => _ end = _ -> _ => destruct e end;
    [|discriminate].
  match goal with |- (if ?c then _ else _) = _ -> _ => destruct c end;
    [|discriminate].
  intros H. inversion H. 
  match goal with |- context [if ?c then _ else _] => destruct c end;
    [reflexivity | apply decimal_isNumber].
Qed.

Lemma numeric_parse (a : json) :
  Utils.shouldRenderAsNumber a true = true ->
  Parse.isNumber (Utils.parseNumber a true) = true
  /\ Utils.isValidValue a = true.
Proof.
  destruct a as [| |b|n|d|s|l|o]; cbn; try discriminate; auto.
  destruct (Utils.numericLiteral s) as [x|] eqn:Hs; [|discriminate].
  intros _. split; [eapply numericLiteral_isNumber, Hs|].
  destruct s; [discriminate Hs | reflexivity].
Qed.

(** ** The PostgREST rule processor *)

(** C10, as amended: for a [between] or [notBetween] rule whose value
    source is not [field] and whose two bounds are numeric (numbers, or
    strings that match the numeric-literal pattern), the processor takes
    the two bounds as numbers, puts the lesser first and builds the
    chained comparison [{"<=": [lo, {var: field}, hi]}] with [lo <= hi].
    For [between] that object is the output, for [notBetween] the output
    is [{"not": ...}] around it.  The rule with the two bounds swapped
    yields the same output. *)
Theorem between_bounds_ordered
    (rid : option string) (fld op : string) (v v' a b : json)
    (tl tl' : list json) (vs : option ValueSource) (rnot : option bool)
    (opts : ProcOptions) :
  op = "between" \/ op = "notBetween" ->
  vs <> Some VSField ->
  Utils.toArray v = a :: b :: tl ->
  Utils.toArray v' = b :: a :: tl' ->
  Utils.shouldRenderAsNumber a true = true ->
  Utils.shouldRenderAsNumber b true = true ->
  exists lo hi : json,
    ((lo = Utils.parseNumber a true /\ hi = Utils.parseNumber b true)
     \/ (lo = Utils.parseNumber b true /\ hi = Utils.parseNumber a true))
    /\ Parse.isNumber lo = true
    /\ Parse.isNumber hi = true
    /\ JS.lessOrEqual lo hi = true
    /\ PostgRESTProcessor.defaultRuleProcessorPostgREST
         (mkRule rid fld op v vs rnot) opts
       = (let chained :=
            JObj [("<=", JArr [lo; JObj [("var", JStr fld)]; hi])] in
          if (op =? "notBetween")%string then JObj [("not", chained)]
          else chained)
    /\ PostgRESTProcessor.defaultRuleProcessorPostgREST
         (mkRule rid fld op v' vs rnot) opts
       = PostgRESTProcessor.defaultRuleProcessorPostgREST
           (mkRule rid fld op v vs rnot) opts.
Proof.
  intros Hop Hvs Hv Hv' Ha Hb.
  destruct (numeric_parse a Ha) as [Hna Hva].
  destruct (numeric_parse b Hb) as [Hnb Hvb].
  assert (Hfield : match vs with Some VSField => true | _ => false end = false).
  { destruct vs as [[|]|]; congruence. }
  set (x := Utils.parseNumber a true) in *.
  set (y := Utils.parseNumber b true) in *.
  exists (if JS.lessThan y x then y else x),
         (if JS.lessThan y x then x else y).
  assert (Hout : forall w c d t,
    Utils.toArray w = c :: d :: t ->
    Utils.shouldRenderAsNumber c true = true ->
    Utils.shouldRenderAsNumber d true = true ->
    Utils.isValidValue c = true -> Utils.isValidValue d = true ->
    PostgRESTProcessor.defaultRuleProcessorPostgREST
      (mkRule rid fld op w vs rnot) opts
    = (let p := Utils.parseNumber c true in
       let q := Utils.parseNumber d true in
       let chained :=
         JObj [("<=", JArr [if JS.lessThan q p then q else p;
                            JObj [("var", JStr fld)];
                            if JS.lessThan q p then p else q])] in
       if (op =? "notBetween")%string then JObj [("not", chained)]
       else chained)).
  { intros w c d t Hw Hc Hd Hvc Hvd.
    unfold PostgRESTProcessor.defaultRuleProcessorPostgREST.
    cbn [operator value valueSource field].
    rewrite Hfield, Hw, Hc, Hd, Hvc, Hvd. cbn [negb andb].
    destruct Hop as [-> | ->]; cbn -[JS.lessThan Utils.parseNumber];
      destruct (JS.lessThan _ _); reflexivity. }
  split; [|split; [|split; [|split; [|split]]]].
  - destruct (JS.lessThan y x); auto.
  - destruct (JS.lessThan y x); assumption.
  - destruct (JS.lessThan y x); assumption.
  - destruct (JS.lessThan y x) eqn:Hlt.
    + rewrite lessOrEqual_not_lessThan by assumption.
      rewrite (lessThan_asym _ _ Hlt). reflexivity.
    + rewrite lessOrEqual_not_lessThan by assumption.
      rewrite Hlt. reflexivity.
  - apply (Hout v a b tl); assumption.
  - rewrite (Hout v a b tl), (Hout v' b a tl') by assumption.
    cbv zeta. fold x y.
    destruct (JS.lessThan y x) eqn:Hyx.
    + rewrite (lessThan_asym _ _ Hyx). reflexivity.
    + destruct (JS.lessThan x y) eqn:Hxy; [reflexivity|].
      rewrite (lessThan_antisym x y Hna Hnb Hxy Hyx). reflexivity.
Qed.

(** C10, as stated, fails for [notBetween]: the chained comparison is
    not what the processor emits, it is the operand of a wrapper. *)
Lemma notBetween_is_wrapped :
  PostgRESTProcessor.defaultRuleProcessorPostgREST Example.notBetween12
    noProcOptions
  <> JObj [("<=", JArr [JNum 1; Example.var "age"; JNum 2])].
Proof. vm_compute. discriminate. Qed.

Lemma between_bounds_ordered_witness :
  exists lo hi : json,
    ((lo = Utils.parseNumber (JStr "2.5") true
      /\ hi = Utils.parseNumber (JStr "1e-1") true)
     \/ (lo = Utils.parseNumber (JStr "1e-1") true
         /\ hi = Utils.parseNumber (JStr "2.5") true))
    /\ Parse.isNumber lo = true
    /\ Parse.isNumber hi = true
    /\ JS.lessOrEqual lo hi = true
    /\ PostgRESTProcessor.defaultRuleProcessorPostgREST
         (mkRule None "age" "notBetween" (JStr "2.5, 1e-1") None None)
         noProcOptions
       = (let chained :=
            JObj [("<=", JArr [lo; JObj [("var", JStr "age")]; hi])] in
          if ("notBetween" =? "notBetween")%string
          then JObj [("not", chained)]
          else chained)
    /\ PostgRESTProcessor.defaultRuleProcessorPostgREST
         (mkRule None "age" "notBetween" (JStr "1e-1, 2.5") None None)
         noProcOptions
       = PostgRESTProcessor.defaultRuleProcessorPostgREST
           (mkRule None "age" "notBetween" (JStr "2.5, 1e-1") None None)
           noProcOptions.
Proof.
  apply (between_bounds_ordered None "age" "notBetween"
           (JStr "2.5, 1e-1") (JStr "1e-1, 2.5") (JStr "2.5") (JStr "1e-1")
           [] [] None None noProcOptions);
    [right; reflexivity | discriminate | reflexivity | reflexivity
    | reflexivity | reflexivity].
Defined.

(** ** [parsePostgREST] *)

(** The object the exclusive comparison is rewritten to is parsed
    without entering [processLogic] a third time: the result does not
    depend on what the re-entry would do. *)
Lemma reentry_closed (options : ParsePostgRESTOptions)
    (r1 r2 : json -> Completion (option Parsed)) (fld : string) (lo hi : json) :
  Parse.processLogicWith options r1 false (Parse.exclusiveAsAnd fld lo hi)
  = Parse.processLogicWith options r2 false (Parse.exclusiveAsAnd fld lo hi).
Proof.
  unfold Parse.exclusiveAsAnd.
  cbn [Parse.processLogicWith Parse.firstEntry JS.isPojo negb andb].
  destruct (PostgRESTOperations options) as [ops|].
  - destruct (Parse.lookupOp "and" ops); [reflexivity|].
    cbn [JS.hasKey String.eqb Ascii.eqb Bool.eqb orb Parse.atKey map
         Parse.processLogicWith Parse.firstEntry JS.isPojo negb andb].
    destruct (Parse.lookupOp ">" ops); destruct (Parse.lookupOp "<" ops);
      reflexivity.
  - reflexivity.
Qed.

(** C4, as amended: negating an operand that is parsed to a rule whose
    operator is [between], [in], [contains], [beginsWith] or [endsWith]
    gives that rule with the negated operator, with no group and no [not]
    flag around it beyond the one-element [and] group of the outermost
    call.  [{"!": {"in": [{"var": "a"}, [1, 2]]}}] is parsed to the group
    holding the rule [a notIn [1, 2]] when [listsAsArrays] is set, and to
    the group holding the rule [a notIn "1,2"] by default. *)
Theorem negation_absorption
    (options : ParsePostgRESTOptions) (JSON_parse : string -> option json) :
  (forall (operand : json) (r : RuleType) (outermost : bool),
      match PostgRESTOperations options with
      | Some ops => Parse.lookupOp "!" ops = None
      | None => True
      end ->
      Parse.processLogic options operand false = Normal (Some (PRule r)) ->
      Parse.isNegatable (operator r) = true ->
      Parse.processLogic options (JObj [("!", operand)]) outermost
      = Normal (Some (Parse.wrapOutermost outermost
                        (Parse.setOperator r
                           (defaultOperatorNegationMap (operator r))))))
  /\ Parse.parsePostgREST Example.listsAsArraysOptions JSON_parse Example.negatedIn
     = Normal (PGroup (mkGroup None (Some "and") None
                 [RRule (mkRule None "a" "notIn" (JArr [JNum 1; JNum 2])
                                None None)]))
  /\ Parse.parsePostgREST defaultParseOptions JSON_parse Example.negatedIn
     = Normal (PGroup (mkGroup None (Some "and") None
                 [RRule (mkRule None "a" "notIn" (JStr "1,2") None None)])).
Proof.
  split; [|split; reflexivity].
  intros operand r outermost Hc Hr Hn.
  unfold Parse.processLogic in *.
  cbn [Parse.processLogicWith Parse.firstEntry JS.isPojo negb andb].
  rewrite Bool.andb_false_r.
  assert (Hcustom :
    match PostgRESTOperations options, Some "!" with
    | Some ops, Some k => Parse.lookupOp k ops
    | _, _ => None
    end = (None : option (json -> option Parsed))).
  { destruct (PostgRESTOperations options); auto. }
  rewrite Hcustom.
  cbn [JS.hasKey String.eqb Ascii.eqb Bool.eqb orb Parse.atKey JS.get].
  rewrite Hr. cbn [bindC Parse.negate]. rewrite Hn. reflexivity.
Qed.

(** C4, as stated, fails on the value: without [listsAsArrays] the list
    is joined into the string ["1,2"]. *)
Lemma negated_in_default_value_is_joined :
  Parse.parsePostgREST defaultParseOptions Example.JSON_parse
    Example.negatedIn
  <> Normal (PGroup (mkGroup None (Some "and") None
               [RRule (mkRule None "a" "notIn" (JArr [JNum 1; JNum 2])
                              None None)])).
Proof. vm_compute. discriminate. Qed.

Lemma negation_absorption_witness :
  Parse.processLogic Example.listsAsArraysOptions Example.negatedIn true
  = Normal (Some (PGroup (mkGroup None (Some "and") None
              [RRule (mkRule None "a" "notIn" (JArr [JNum 1; JNum 2])
                             None None)]))).
Proof.
  apply (proj1 (negation_absorption Example.listsAsArraysOptions
                  Example.JSON_parse)
           (JObj [("in", JArr [Example.var "a"; JArr [JNum 1; JNum 2]])])
           (mkRule None "a" "in" (JArr [JNum 1; JNum 2]) None None) true);
    [exact I | reflexivity | reflexivity].
Defined.

(** C5: a string that the runtime's [JSON.parse] refuses is parsed to
    the empty group [{combinator: 'and', rules: []}]; nothing is
    thrown. *)
Theorem unparseable_string_gives_empty_group
    (options : ParsePostgRESTOptions) (JSON_parse : string -> option json)
    (s : string) :
  JSON_parse s = None ->
  Parse.parsePostgREST options JSON_parse (JStr s)
  = Normal (PGroup emptyRuleGroup).
Proof.
  intros H. unfold Parse.parsePostgREST. rewrite H. reflexivity.
Qed.

Lemma unparseable_string_gives_empty_group_witness :
  Example.JSON_parse "{oops" = None
  /\ Parse.parsePostgREST defaultParseOptions Example.JSON_parse
       (JStr "{oops")
     = Normal (PGroup emptyRuleGroup).
Proof.
  split; [reflexivity|].
  apply (unparseable_string_gives_empty_group defaultParseOptions
           Example.JSON_parse "{oops").
  reflexivity.
Defined.

(** C6 does not hold on the double-negation path: the outermost call
    hands back what the inner call returned, and for
    [{"!!": {"==": [{"var": "a"}, 1]}}] that is the bare rule [a = 1],
    not a group around it. *)
Theorem double_negation_returns_bare_rule
    (JSON_parse : string -> option json) :
  Parse.parsePostgREST defaultParseOptions JSON_parse Example.doubleNegated
  = Normal (PRule (mkRule None "a" "=" (JNum 1) None None)).
Proof. reflexivity. Qed.

(** ** Round trip *)

(** An object under the key [not] is no shape [processLogic] knows. *)
Lemma not_wrapper_is_dropped (options : ParsePostgRESTOptions) (j : json)
    (outermost : bool) :
  PostgRESTOperations options = None ->
  Parse.processLogic options (JObj [("not", j)]) outermost = Normal None.
Proof.
  intros Hc. unfold Parse.processLogic.
  cbn [Parse.processLogicWith Parse.firstEntry JS.isPojo negb andb].
  rewrite Bool.andb_false_r, Hc. reflexivity.
Qed.

(** The processor renders a rule with a negated operator under the key
    [not] (or as [false] when a [notBetween] rule has no two bounds). *)
Lemma negated_operators_use_not_wrapper (rule : RuleType) (opts : ProcOptions) :
  In (operator rule) negatedOperators ->
  (exists inner,
      PostgRESTProcessor.defaultRuleProcessorPostgREST rule opts
      = JObj [("not", inner)])
  \/ PostgRESTProcessor.defaultRuleProcessorPostgREST rule opts = JBool false.
Proof.
  destruct rule as [i f op v vs n]. cbn [operator].
  intros [<- | [<- | [<- | [<- | [<- | []]]]]];
    try (left; eexists; reflexivity).
  unfold PostgRESTProcessor.defaultRuleProcessorPostgREST.
  cbn [operator value valueSource field String.eqb Ascii.eqb Bool.eqb orb].
  destruct (Utils.toArray v) as [|a [|b tl]]; auto.
  destruct (Utils.isValidValue a && Utils.isValidValue b)%bool; auto.
  left. 
  match goal with |- context [let '(x, y) := ?p in _] => destruct p end.
  eexists. reflexivity.
Qed.

(** C1 does not hold for the negated operators: the rule processor
    wraps a negated rule under the key [not], which [processLogic] does
    not recognise (it reads [!]).  For every one-rule tree whose operator
    is [notIn], [notBetween], [doesNotContain], [doesNotBeginWith] or
    [doesNotEndWith], [parsePostgREST (formatQuery tree 'postgrest')] is
    the empty group: the rule is lost on the way back. *)
Theorem negated_rule_is_lost_on_round_trip
    (E : Collaborators) (JSON_parse : string -> option json)
    (options : ParsePostgRESTOptions) (rule : RuleType) :
  PostgRESTOperations options = None ->
  independentCombinators options = false ->
  In (operator rule) negatedOperators ->
  exists j,
    Format.formatQuery E (mkGroup None (Some "and") None [RRule rule])
      (ByName postgrest) = Normal j
    /\ Parse.parsePostgREST options JSON_parse j
       = Normal (PGroup emptyRuleGroup)
    /\ emptyRuleGroup <> mkGroup None (Some "and") None [RRule rule].
Proof.
  intros Hc Hic Hop.
  unfold Format.formatQuery.
  cbn [Format.readOptions Format.format Format.validator
       Format.processRuleGroup_logic Format.standardised isRuleGroupType
       combinator].
  cbn [Format.groupValid rg_id Format.orElse vm_get isRuleOrGroupValid_group negb map sequenceC].
  destruct (Format.skipRule _ _ rule).
  - exists (JBool false). split; [reflexivity|].
    split; [|discriminate].
    unfold Parse.parsePostgREST. rewrite Hic. reflexivity.
  - unfold Format.processorOrValue.
    cbn [Format.ruleProcessorInternal Format.processorByName
         Format.postgrestProcessor runNoParams bindC].
    match goal with
    | |- context [PostgRESTProcessor.defaultRuleProcessorPostgREST rule ?o] =>
        destruct (negated_operators_use_not_wrapper rule o Hop)
          as [[inner ->] | ->]
    end.
    + cbn [JS.filterBoolean filter JS.truthy notFlag rg_not
           Format.combinatorKey combinator Format.orElse].
      eexists. split; [reflexivity|]. split; [|discriminate].
      unfold Parse.parsePostgREST. rewrite Hic.
      unfold Parse.processLogic.
      cbn [Parse.processLogicWith Parse.firstEntry JS.isPojo negb andb].
      rewrite Hc.
      cbn [JS.hasKey String.eqb Ascii.eqb Bool.eqb orb Parse.atKey map
           sequenceC].
      pose proof (not_wrapper_is_dropped options inner false Hc) as Hd.
      unfold Parse.processLogic in Hd. rewrite Hd. reflexivity.
    + exists (JBool false). split; [reflexivity|].
      split; [|discriminate].
      unfold Parse.parsePostgREST. rewrite Hic. reflexivity.
Qed.

Lemma negated_rule_is_lost_on_round_trip_witness :
  exists j,
    Format.formatQuery Example.collaborators Example.aNotIn12
      (ByName postgrest) = Normal j
    /\ Parse.parsePostgREST Example.listsAsArraysOptions Example.JSON_parse j
       = Normal (PGroup emptyRuleGroup)
    /\ emptyRuleGroup <> Example.aNotIn12.
Proof.
  apply (negated_rule_is_lost_on_round_trip Example.collaborators
           Example.JSON_parse Example.listsAsArraysOptions
           (mkRule None "a" "notIn" (JArr [JNum 1; JNum 2]) None None));
    [reflexivity | reflexivity | left; reflexivity].
Defined.

(** The failing round trip, step by step: what [formatQuery] emits for
    [a notIn [1, 2]] and what [parsePostgREST] makes of it. *)
Example postgrest_round_trip_of_notIn
    (E : Collaborators) (JSON_parse : string -> option json) :
  Format.formatQuery E Example.aNotIn12 (ByName postgrest)
  = Normal (JObj [("and",
              JArr [JObj [("not",
                      JObj [("in", JArr [Example.var "a";
                                         JArr [JNum 1; JNum 2]])])]])])
  /\ Parse.parsePostgREST Example.listsAsArraysOptions JSON_parse
       (JObj [("and",
          JArr [JObj [("not",
                  JObj [("in", JArr [Example.var "a";
                                     JArr [JNum 1; JNum 2]])])]])])
     = Normal (PGroup emptyRuleGroup).
Proof.
  split; [vm_compute; reflexivity | reflexivity].
Qed.

(** The same tree with the operator [in] comes back as it went. *)
Example postgrest_round_trip_of_in
    (E : Collaborators) (JSON_parse : string -> option json) :
  exists j,
    Format.formatQuery E
      (mkGroup None (Some "and") None
         [RRule (mkRule None "a" "in" (JArr [JNum 1; JNum 2]) None None)])
      (ByName postgrest) = Normal j
    /\ Parse.parsePostgREST Example.listsAsArraysOptions JSON_parse j
       = Normal (PGroup (mkGroup None (Some "and") None
           [RRule (mkRule None "a" "in" (JArr [JNum 1; JNum 2]) None None)])).
Proof. eexists. split; [vm_compute; reflexivity | reflexivity]. Qed.

(** With [independentCombinators] set, the bare rule of the double
    negation is handed to [convertToIC], which throws. *)
Example bare_rule_is_not_converted (JSON_parse : string -> option json) :
  Parse.parsePostgREST (mkParseOptions (fun _ _ _ => true) false None true)
    JSON_parse Example.doubleNegated
  = TypeError.
Proof. reflexivity. Qed.

(** A binary operation whose operand list is no list cannot be
    destructured. *)
Example malformed_operand_throws (JSON_parse : string -> option json) :
  Parse.parsePostgREST defaultParseOptions JSON_parse
    (JObj [("==", JNum 5)]) = TypeError.
Proof. reflexivity. Qed.

(** * Further properties of the code *)

(** ** Round trip of plain trees *)

Section RoundTripProofs.

Variable E : Collaborators.
Variable options : ParsePostgRESTOptions.
Hypothesis noCustom : PostgRESTOperations options = None.
Hypothesis allValid : forall f op sub, fieldIsValid options f op sub = true.

Variable R : json -> Completion (option Parsed).

Let S := Format.readOptions E (ByName postgrest).

Lemma plain_rule_parts (r : RuleType) :
  RoundTrip.plainRule r = true ->
  r_id r = None /\ r_not r = None /\ valueSource r = None
  /\ (field r =? "~")%string = false
  /\ In (operator r) RoundTrip.plainOperators
  /\ RoundTrip.isScalar (value r) = true.
Proof.
  unfold RoundTrip.plainRule. intros H.
  apply andb_prop in H. destruct H as [H Hs].
  apply andb_prop in H. destruct H as [H Ho].
  apply andb_prop in H. destruct H as [H Hf].
  apply andb_prop in H. destruct H as [H Hv].
  apply andb_prop in H. destruct H as [Hi Hn].
  repeat split; auto.
  - destruct (r_id r); [discriminate | reflexivity].
  - destruct (r_not r); [discriminate | reflexivity].
  - destruct (valueSource r); [discriminate | reflexivity].
  - destruct (field r =? "~")%string; [discriminate | reflexivity].
  - apply existsb_exists in Ho. destruct Ho as [x [Hin Hx]].
    apply String.eqb_eq in Hx. subst x. exact Hin.
Qed.

Lemma plain_rule_kept (r : RuleType) :
  RoundTrip.plainRule r = true -> Format.skipRule S [] r = false.
Proof.
  intros H. destruct (plain_rule_parts r H) as [Hi [_ [_ [Hf [Ho _]]]]].
  unfold Format.skipRule, Format.validateRule. rewrite Hi.
  unfold S. cbn. unfold defaultPlaceholderFieldName. rewrite Hf. cbn.
  cbn in Ho.
  repeat (destruct Ho as [<- | Ho]; [reflexivity|]). destruct Ho.
Qed.

Lemma plain_rule_round_trip (r : RuleType) :
  RoundTrip.plainRule r = true ->
  JS.truthy (PostgRESTProcessor.defaultRuleProcessorPostgREST r
               (Format.shortOptions E S r)) = true
  /\ Parse.processLogicWith options R false
       (PostgRESTProcessor.defaultRuleProcessorPostgREST r
          (Format.shortOptions E S r))
     = Normal (Some (PRule r)).
Proof.
  intros H. destruct (plain_rule_parts r H) as [Hi [Hn [Hvs [_ [Ho Hs]]]]].
  destruct r as [i f op v vs n];
    cbn [r_id r_not valueSource field operator value] in *.
  subst i n vs. cbn in Ho.
  destruct Ho as [<-|[<-|[<-|[<-|[<-|[<-|[<-|[<-|[<-|[]]]]]]]]]];
    destruct v; try discriminate;
    match goal with
    | |- context [PostgRESTProcessor.defaultRuleProcessorPostgREST ?r ?o] =>
        let x := eval vm_compute in
                 (PostgRESTProcessor.defaultRuleProcessorPostgREST r o) in
        change (PostgRESTProcessor.defaultRuleProcessorPostgREST r o) with x
    end;
    (split; [reflexivity|]);
    cbn; rewrite noCustom; cbn; rewrite ?allValid; reflexivity.
Qed.

Lemma children_round_trip (f : RuleOrGroup -> Completion json)
    (p : json -> Completion (option Parsed)) (rs : list RuleOrGroup) :
  Forall (fun x =>
            exists j q,
              f x = Normal j /\ JS.truthy j = true
              /\ p j = Normal (Some q) /\ toRuleOrGroup q = x) rs ->
  exists js qs,
    sequenceC (map f rs) = Normal js
    /\ JS.filterBoolean js = js
    /\ List.length js = List.length rs
    /\ sequenceC (map p js) = Normal qs
    /\ map toRuleOrGroup (somes qs) = rs.
Proof.
  induction 1 as [|x l [j [q [Hf [Ht [Hp Hq]]]]] _
                   [js [qs [Hjs [Hfil [Hlen [Hqs Hback]]]]]]].
  - exists [], []. repeat split.
  - exists (j :: js), (Some q :: qs). cbn [map sequenceC].
    rewrite Hf, Hjs, Hp, Hqs. cbn [bindC]. repeat split.
    + unfold JS.filterBoolean in *. cbn [filter]. rewrite Ht, Hfil.
      reflexivity.
    + cbn [List.length]. rewrite Hlen. reflexivity.
    + cbn [somes map]. rewrite Hq, Hback. reflexivity.
Qed.

Lemma plain_group_round_trip : forall t,
  RoundTrip.plainGroup t = true ->
  exists j,
    Format.processRuleGroup_logic E S [] t = Normal j
    /\ JS.truthy j = true
    /\ forall outermost,
         Parse.processLogicWith options R outermost j
         = Normal (Some (PGroup t)).
Proof.
  induction t as [i c n rs IH] using RuleGroup_nested_ind.
  cbn [RoundTrip.plainGroup]. intros H.
  apply andb_prop in H. destruct H as [H Hall].
  apply andb_prop in H. destruct H as [H Hne].
  apply andb_prop in H. destruct H as [H Hn].
  apply andb_prop in H. destruct H as [Hi Hc].
  destruct i; [discriminate|]. destruct c as [k|]; [|discriminate].
  cbn [Format.processRuleGroup_logic].
  replace (Format.groupValid [] (mkGroup None (Some k) n rs)) with true
    by reflexivity.
  cbn [negb].
  match goal with
  | |- context [sequenceC (map ?f rs)] =>
      destruct (children_round_trip f
                  (Parse.processLogicWith options R false) rs)
        as [js [qs [Hjs [Hfil [Hlen [Hqs Hback]]]]]]
  end.
  { rewrite forallb_forall in Hall. rewrite Forall_forall in IH.
    apply Forall_forall. intros x Hx. specialize (Hall x Hx).
    specialize (IH x Hx). destruct x as [r|g|t]; [| |discriminate].
    - exists (PostgRESTProcessor.defaultRuleProcessorPostgREST r
                (Format.shortOptions E S r)), (PRule r).
      destruct (plain_rule_round_trip r Hall) as [Ht Hp].
      rewrite (plain_rule_kept r Hall). repeat split; auto.
    - destruct (IH Hall) as [j [Hj [Ht Hp]]].
      exists j, (PGroup g). repeat split; auto. }
  rewrite Hjs. cbn [bindC]. rewrite Hfil.
  destruct js as [|j0 js'].
  { destruct rs; [discriminate Hne | discriminate Hlen]. }
  assert (Hgroup : forall outermost,
    Parse.processLogicWith options R outermost
      (JObj [(k, JArr (j0 :: js'))])
    = Normal (Some (PGroup (mkGroup None (Some k) None rs)))).
  { intros outermost. apply Bool.orb_prop in Hc.
    destruct Hc as [Hk|Hk]; apply String.eqb_eq in Hk; subst k;
      destruct outermost;
      cbn [Parse.processLogicWith Parse.firstEntry JS.isPojo negb andb];
      rewrite noCustom;
      cbn [JS.hasKey String.eqb Ascii.eqb Bool.eqb orb Parse.atKey];
      rewrite Hqs; cbn [bindC]; unfold Parse.groupOf; rewrite Hback;
      reflexivity. }
  cbn [Format.combinatorKey combinator Format.orElse].
  destruct n as [[|]|]; [|discriminate|]; cbn [notFlag rg_not].
  - eexists. split; [reflexivity|]. split; [reflexivity|].
    intros outermost. apply Bool.orb_prop in Hc.
    destruct Hc as [Hk|Hk]; apply String.eqb_eq in Hk; subst k;
      destruct outermost;
      cbn [Parse.processLogicWith Parse.firstEntry JS.isPojo negb andb];
      rewrite noCustom;
      cbn [JS.hasKey String.eqb Ascii.eqb Bool.eqb orb Parse.atKey JS.get];
      rewrite Hgroup; reflexivity.
  - eexists. split; [reflexivity|]. split; [reflexivity|]. exact Hgroup.
Qed.

End RoundTripProofs.

(** X1. Exporting to "postgrest" and parsing the result back is the
    identity on plain trees: groups without ids joined by "and" or "or",
    never empty, with an absent or true [not], whose rules compare a field
    with a string, number or boolean through one of the nine operators of
    [RoundTrip.plainOperators]; the parser has no custom operations, accepts
    every field and is not asked for independent combinators. *)
Theorem plain_trees_round_trip
    (E : Collaborators) (JSON_parse : string -> option json)
    (options : ParsePostgRESTOptions) (t : RuleGroup) :
  PostgRESTOperations options = None ->
  independentCombinators options = false ->
  (forall f op sub, fieldIsValid options f op sub = true) ->
  RoundTrip.plainGroup t = true ->
  exists j,
    Format.formatQuery E t (ByName postgrest) = Normal j
    /\ Parse.parsePostgREST options JSON_parse j = Normal (PGroup t).
Proof.
  intros Hc Hic Hv Ht.
  destruct (plain_group_round_trip E options Hc Hv
              (Parse.processLogicWith options (fun _ => Normal None) false)
              t Ht) as [j [Hj [Htr Hp]]].
  exists j. split.
  - unfold Format.formatQuery.
    cbn [Format.readOptions Format.format Format.validator].
    unfold Format.standardised.
    assert (Hstd : isRuleGroupType t = true).
    { destruct t as [i [k|] n rs]; [reflexivity|].
      cbn in Ht. rewrite Bool.andb_false_r in Ht. discriminate. }
    rewrite Hstd. exact Hj.
  - unfold Parse.parsePostgREST. rewrite Hic.
    assert (Hns : match j with JStr _ => False | _ => True end).
    { destruct t as [i c n rs].
      cbn [Format.processRuleGroup_logic] in Hj.
      destruct (negb _) in Hj; [inversion Hj; exact I|].
      destruct (sequenceC _) in Hj; [|discriminate].
      cbn [bindC] in Hj. inversion Hj.
      destruct (JS.filterBoolean _); [exact I|].
      destruct (notFlag _); exact I. }
    destruct j; try contradiction;
      unfold Parse.processLogic; rewrite Hp; reflexivity.
Qed.

(** ** What the outermost call returns *)

Section OutermostGroup.

Variable options : ParsePostgRESTOptions.
Hypothesis noCustom : PostgRESTOperations options = None.

Lemma bind_groupOrNothing {A} (c : Completion A)
    (k : A -> Completion (option Parsed)) :
  (forall a, groupOrNothing (k a)) -> groupOrNothing (bindC c k).
Proof. intros H. destruct c; cbn; auto. Qed.

Lemma processBasic_outermost logic key keyValue :
  groupOrNothing (Parse.processBasic options logic key keyValue true).
Proof.
  unfold Parse.processBasic. apply bind_groupOrNothing. intros [first second].
  match goal with
  | |- groupOrNothing (match ?l with _ => _ end) => destruct l as [[[f v] vs]|]
  end; [|exact I].
  apply bind_groupOrNothing. intros op.
  destruct (fieldIsValid options f op _); exact I.
Qed.

Lemma processLeaf_outermost R logic key keyValue :
  (forall fld lo hi, groupOrNothing (R (Parse.exclusiveAsAnd fld lo hi))) ->
  groupOrNothing (Parse.processLeaf options R logic key keyValue true).
Proof.
  intros HR. unfold Parse.processLeaf. apply bind_groupOrNothing.
  intros [|]; [apply processBasic_outermost|].
  destruct (_ && _)%bool.
  { destruct (_ || _)%bool; [apply HR | exact I]. }
  destruct (_ && _)%bool.
  { destruct (Parse.processBetweenInclusive options logic); exact I. }
  apply bind_groupOrNothing. intros [|]; [|exact I].
  destruct (Parse.processInArray options logic keyValue); exact I.
Qed.

Lemma reentry_is_group R fld lo hi :
  groupOrNothing
    (Parse.processLogicWith options R false (Parse.exclusiveAsAnd fld lo hi)).
Proof.
  unfold Parse.exclusiveAsAnd.
  cbn [Parse.processLogicWith Parse.firstEntry JS.isPojo negb andb].
  rewrite noCustom.
  cbn [JS.hasKey String.eqb Ascii.eqb Bool.eqb orb Parse.atKey].
  apply bind_groupOrNothing. intros rs. exact I.
Qed.

Lemma negate_outermost operand rule :
  Guards.isPostgRESTBetweenExclusive operand = false ->
  groupOrNothing (Normal (Parse.negate operand true rule)).
Proof.
  intros Hbe. destruct rule as [[r|g]|]; cbn [Parse.negate]; [| |exact I].
  - destruct (Parse.isNegatable (operator r)); [exact I|].
    rewrite Hbe. exact I.
  - destruct (_ || _)%bool; [destruct g|]; exact I.
Qed.

Lemma processLogic_outermost (o : list (string * json)) :
  (JS.hasKey "and" o || JS.hasKey "or" o)%bool = true
  \/ (JS.hasKey "!!" o = false
      /\ Guards.isPostgRESTBetweenExclusive (JS.get "!" o) = false) ->
  groupOrNothing (Parse.processLogic options (JObj o) true).
Proof.
  intros H. unfold Parse.processLogic.
  cbn [Parse.processLogicWith Parse.firstEntry JS.isPojo negb andb].
  destruct (Parse.firstEntry (JObj o)) as [key keyValue] eqn:Hfe.
  cbn [Parse.firstEntry] in Hfe.
  assert (Hcustom :
    match PostgRESTOperations options, key with
    | Some ops, Some k => Parse.lookupOp k ops
    | _, _ => None
    end = (None : option (json -> option Parsed))).
  { rewrite noCustom. reflexivity. }
  match goal with
  | |- groupOrNothing (let '(a, b) := ?x in _) =>
      replace x with (key, keyValue)
  end.
  rewrite Hcustom.
  destruct (JS.hasKey "and" o) eqn:Hand.
  { apply bind_groupOrNothing. intros rs. exact I. }
  destruct (JS.hasKey "or" o) eqn:Hor.
  { apply bind_groupOrNothing. intros rs. exact I. }
  destruct H as [H | [Hdd Hbe]]; [discriminate|].
  destruct (JS.hasKey "!" o).
  { apply bind_groupOrNothing. intros rule.
    apply negate_outermost, Hbe. }
  rewrite Hdd. apply processLeaf_outermost. intros fld lo hi.
  apply reentry_is_group.
Qed.

End OutermostGroup.

(** X2. With no custom operations, [parsePostgREST] returns a rule group
    for every input that is not a string and whose first shape is not a
    double negation nor the negation of a chained [<] comparison: whatever
    [processLogic] finds at the outermost level is a group or is wrapped in
    one. *)
Theorem outermost_result_is_a_group
    (options : ParsePostgRESTOptions) (JSON_parse : string -> option json)
    (logic : json) (p : Parsed) :
  PostgRESTOperations options = None ->
  match logic with
  | JStr _ => False
  | JObj o =>
      (JS.hasKey "and" o || JS.hasKey "or" o)%bool = true
      \/ (JS.hasKey "!!" o = false
          /\ Guards.isPostgRESTBetweenExclusive (JS.get "!" o) = false)
  | _ => True
  end ->
  Parse.parsePostgREST options JSON_parse logic = Normal p ->
  Parse.isGroup p = true.
Proof.
  intros Hc Hshape Hp.
  assert (Hg : groupOrNothing (Parse.processLogic options logic true)).
  { destruct logic; try exact I. apply processLogic_outermost; assumption. }
  unfold Parse.parsePostgREST in Hp.
  assert (Hfin :
    (result <- Parse.processLogic options logic true ;;
     let finalQuery := match result with
                       | Some p => p
                       | None => PGroup emptyRuleGroup
                       end in
     if independentCombinators options
     then match finalQuery with
          | PGroup g => Normal (PGroup (convertToIC g))
          | PRule _ => TypeError
          end
     else Normal finalQuery) = Normal p).
  { destruct logic; try contradiction; exact Hp. }
  destruct (Parse.processLogic options logic true) as [[[r|g]|]|];
    cbn in Hg, Hfin; try contradiction; try discriminate;
    destruct (independentCombinators options); inversion Hfin; reflexivity.
Qed.

(** ** Chained comparisons *)

Section ChainedComparisons.

Variable options : ParsePostgRESTOptions.
Hypothesis noCustom : PostgRESTOperations options = None.

Lemma comparison_parsed R (fld op : string) (v : json) :
  In op [">"; "<"] ->
  RoundTrip.isScalar v = true ->
  Parse.processLogicWith options R false
    (JObj [(op, JArr [JObj [("var", JStr fld)]; v])])
  = Normal (if fieldIsValid options fld op None
            then Some (PRule (comparison fld op v)) else None).
Proof.
  intros Hop Hv.
  destruct Hop as [<-|[<-|[]]]; destruct v; try discriminate;
    cbn; rewrite noCustom; cbn;
    destruct (fieldIsValid options fld _ None); reflexivity.
Qed.

(** X3. A chained comparison [lo < field < hi] with two bounds of one
    scalar type is parsed, at any level, as an "and" group of the two rules
    [field > lo] and [field < hi], each kept only if the field check accepts
    it; the result is a group even when [outermost] is false. *)
Theorem exclusive_between_is_split
    (fld : string) (lo hi : json) (outermost : bool) :
  Parse.sameScalarType [lo; hi] = true ->
  Parse.processLogic options
    (JObj [("<", JArr [lo; JObj [("var", JStr fld)]; hi])]) outermost
  = Normal (Some (PGroup (mkGroup None (Some "and") None
      ((if fieldIsValid options fld ">" None
        then [RRule (comparison fld ">" lo)] else [])
       ++ (if fieldIsValid options fld "<" None
           then [RRule (comparison fld "<" hi)] else []))))).
Proof.
  intros Hs.
  assert (Hlo : RoundTrip.isScalar lo = true /\ RoundTrip.isScalar hi = true).
  { destruct lo, hi; try discriminate; split; reflexivity. }
  destruct Hlo as [Hlo Hhi].
  unfold Parse.processLogic.
  assert (Hre : forall R,
    Parse.processLogicWith options R false (Parse.exclusiveAsAnd fld lo hi)
    = Normal (Some (PGroup (mkGroup None (Some "and") None
      ((if fieldIsValid options fld ">" None
        then [RRule (comparison fld ">" lo)] else [])
       ++ (if fieldIsValid options fld "<" None
           then [RRule (comparison fld "<" hi)] else [])))))).
  { intros R. unfold Parse.exclusiveAsAnd.
    cbn [Parse.processLogicWith Parse.firstEntry JS.isPojo negb andb].
    rewrite noCustom.
    cbn [JS.hasKey String.eqb Ascii.eqb Bool.eqb orb Parse.atKey map
         sequenceC].
    rewrite (comparison_parsed R fld ">" lo) by (cbn; auto).
    rewrite (comparison_parsed R fld "<" hi) by (cbn; auto).
    cbn [bindC]. unfold Parse.groupOf.
    destruct (fieldIsValid options fld ">" None);
      destruct (fieldIsValid options fld "<" None); reflexivity. }
  cbn [Parse.processLogicWith Parse.firstEntry JS.isPojo negb].
  rewrite Bool.andb_false_r, noCustom.
  cbn [JS.hasKey String.eqb Ascii.eqb Bool.eqb orb].
  unfold Parse.processLeaf.
  replace (Parse.isBasic _) with (Normal false : Completion bool)
    by reflexivity.
  cbn [bindC].
  replace (Guards.isPostgRESTBetweenExclusive _ && _)%bool with true
    by reflexivity.
  cbn [JS.index Guards.opArg JS.get String.eqb Ascii.eqb Bool.eqb nth].
  change (Guards.varName (JObj [("var", JStr fld)])) with fld.
  rewrite Hs, Bool.orb_true_r. apply Hre.
Qed.

End ChainedComparisons.

(** ** Operators the processor does not render *)

Lemma eqb_of_not_in (op : string) (l : list string) (s : string) :
  ~ In op l -> In s l -> (op =? s)%string = false.
Proof.
  intros Hn Hs. apply String.eqb_neq. intros ->. exact (Hn Hs).
Qed.

(** X12. For every operator outside the eighteen it has a case for,
    [defaultRuleProcessorPostgREST] returns [false]. *)
Theorem unknown_operator_renders_false (rule : RuleType) (opts : ProcOptions) :
  ~ In (operator rule) postgrestOperators ->
  PostgRESTProcessor.defaultRuleProcessorPostgREST rule opts = JBool false.
Proof.
  intros Hn. unfold PostgRESTProcessor.defaultRuleProcessorPostgREST.
  repeat match goal with
  | |- context [(operator rule =? ?s)%string] =>
      rewrite (eqb_of_not_in (operator rule) postgrestOperators s Hn)
        by (cbn; tauto)
  end.
  reflexivity.
Qed.

(** X13. A "between" or "notBetween" rule whose value yields fewer than
    two items, or whose first two items are not both valid values, is
    rendered as [false]. *)
Theorem between_needs_two_valid_bounds (rule : RuleType) (opts : ProcOptions) :
  operator rule = "between" \/ operator rule = "notBetween" ->
  match Utils.toArray (value rule) with
  | first :: second :: _ =>
      (Utils.isValidValue first && Utils.isValidValue second)%bool = false
  | _ => True
  end ->
  PostgRESTProcessor.defaultRuleProcessorPostgREST rule opts = JBool false.
Proof.
  intros Hop Hb. unfold PostgRESTProcessor.defaultRuleProcessorPostgREST.
  destruct Hop as [-> | ->];
    cbn [String.eqb Ascii.eqb Bool.eqb orb];
    destruct (Utils.toArray (value rule)) as [|a [|b tl]]; try reflexivity;
    rewrite Hb; reflexivity.
Qed.

(** ** Shapes the parser recognises *)

Section ParsedShapes.

Variable options : ParsePostgRESTOptions.
Hypothesis noCustom : PostgRESTOperations options = None.

Lemma inclusive_between_parsed
    (fld : string) (lo hi : json) (outermost : bool) :
  Parse.sameScalarType [lo; hi] = true ->
  listsAsArrays options = true ->
  Parse.processLogic options
    (JObj [("<=", JArr [lo; JObj [("var", JStr fld)]; hi])]) outermost
  = Normal (if fieldIsValid options fld "between" None
            then Some (Parse.wrapOutermost outermost
                         (mkRule None fld "between" (JArr [lo; hi])
                                 None None))
            else None).
Proof.
  intros Hs Hl.
  assert (Hnv : Guards.isRQBPostgRESTVar lo = false).
  { destruct lo; try discriminate; reflexivity. }
  unfold Parse.processLogic.
  cbn [Parse.processLogicWith Parse.firstEntry JS.isPojo negb].
  rewrite Bool.andb_false_r, noCustom.
  cbn [JS.hasKey String.eqb Ascii.eqb Bool.eqb orb].
  unfold Parse.processLeaf.
  replace (Parse.isBasic _) with (Normal false : Completion bool)
    by reflexivity.
  cbn [bindC].
  replace (Guards.isPostgRESTBetweenExclusive _ && _)%bool with false
    by reflexivity.
  replace (Guards.isPostgRESTBetweenInclusive _ && _)%bool with true
    by reflexivity.
  unfold Parse.processBetweenInclusive.
  cbn [JS.index Guards.opArg JS.get String.eqb Ascii.eqb Bool.eqb nth
       forallb].
  rewrite Hnv. cbn [andb]. rewrite Hs.
  unfold Parse.listValue. rewrite Hl.
  change (Guards.varName (JObj [("var", JStr fld)])) with fld.
  destruct (fieldIsValid options fld "between" None); reflexivity.
Qed.

(** X4. A "between" rule over two numbers comes back from the export
    and the parser (lists as arrays, the field accepted) as a "between"
    rule over the same two numbers in ascending order, whatever order
    they were given in. *)
Theorem between_round_trip_orders_bounds
    (fld : string) (a b : json) (opts : ProcOptions) :
  Parse.isNumber a = true ->
  Parse.isNumber b = true ->
  listsAsArrays options = true ->
  fieldIsValid options fld "between" None = true ->
  exists lo hi : json,
    ((lo = a /\ hi = b) \/ (lo = b /\ hi = a))
    /\ JS.lessOrEqual lo hi = true
    /\ Parse.processLogic options
         (PostgRESTProcessor.defaultRuleProcessorPostgREST
            (mkRule None fld "between" (JArr [a; b]) None None) opts)
         false
       = Normal (Some (PRule (mkRule None fld "between" (JArr [lo; hi])
                                     None None))).
Proof.
  intros Ha Hb Hl Hv.
  exists (if JS.lessThan b a then b else a),
         (if JS.lessThan b a then a else b).
  assert (Hout :
    PostgRESTProcessor.defaultRuleProcessorPostgREST
      (mkRule None fld "between" (JArr [a; b]) None None) opts
    = JObj [("<=", JArr [if JS.lessThan b a then b else a;
                         JObj [("var", JStr fld)];
                         if JS.lessThan b a then a else b])]).
  { unfold PostgRESTProcessor.defaultRuleProcessorPostgREST.
    destruct a; try discriminate; destruct b; try discriminate;
      cbn -[JS.lessThan]; destruct (JS.lessThan _ _); reflexivity. }
  split; [|split].
  - destruct (JS.lessThan b a); auto.
  - destruct (JS.lessThan b a) eqn:Hlt;
      rewrite lessOrEqual_not_lessThan by assumption.
    + rewrite (lessThan_asym _ _ Hlt). reflexivity.
    + rewrite Hlt. reflexivity.
  - rewrite Hout, inclusive_between_parsed, Hv; auto.
    unfold Parse.sameScalarType. cbn [forallb].
    destruct (JS.lessThan b a); rewrite Ha, Hb; cbn [andb];
      rewrite Bool.orb_true_r; reflexivity.
Qed.

Lemma membership_parsed
    (fld : string) (items : list json) (outermost : bool) :
  items <> [] ->
  Parse.sameScalarType items = true ->
  listsAsArrays options = true ->
  Parse.processLogic options
    (JObj [("in", JArr [JObj [("var", JStr fld)]; JArr items])]) outermost
  = Normal (Some (Parse.wrapOutermost outermost
                    (mkRule None fld "in" (JArr items) None None))).
Proof.
  intros Hne Hs Hl.
  assert (Hnv : forallb Guards.isRQBPostgRESTVar items = false).
  { destruct items as [|x l]; [congruence|].
    cbn [forallb]. destruct x; try discriminate; reflexivity. }
  unfold Parse.processLogic.
  cbn [Parse.processLogicWith Parse.firstEntry JS.isPojo negb].
  rewrite Bool.andb_false_r, noCustom.
  cbn [JS.hasKey String.eqb Ascii.eqb Bool.eqb orb].
  unfold Parse.processLeaf.
  replace (Parse.isBasic _) with (Normal false : Completion bool)
    by reflexivity.
  cbn [bindC].
  replace (Guards.isPostgRESTBetweenExclusive _ && _)%bool with false
    by reflexivity.
  replace (Guards.isPostgRESTBetweenInclusive _ && _)%bool with false
    by reflexivity.
  replace (andC _ _) with (Normal true : Completion bool) by reflexivity.
  cbn [bindC]. unfold Parse.processInArray.
  cbn [JS.index Guards.opArg JS.get String.eqb Ascii.eqb Bool.eqb nth].
  rewrite Hnv, Hs. unfold Parse.listValue. rewrite Hl.
  destruct items; [congruence | reflexivity].
Qed.

(** X9. A single comparison on a field the field check rejects
    produces no rule, and [parsePostgREST] answers with the empty "and"
    group. *)
Theorem comparison_on_rejected_field_is_dropped
    (JSON_parse : string -> option json) (fld op : string) (v : json) :
  In op ["=="; "!="; "<"; "<="; ">"; ">="] ->
  RoundTrip.isScalar v = true ->
  (forall o sub, fieldIsValid options fld o sub = false) ->
  independentCombinators options = false ->
  Parse.parsePostgREST options JSON_parse
    (JObj [(op, JArr [JObj [("var", JStr fld)]; v])])
  = Normal (PGroup emptyRuleGroup).
Proof.
  intros Hop Hv Hrej Hic. unfold Parse.parsePostgREST. rewrite Hic.
  unfold Parse.processLogic.
  destruct Hop as [<-|[<-|[<-|[<-|[<-|[<-|[]]]]]]]; destruct v;
    try discriminate; cbn; rewrite noCustom; cbn; rewrite Hrej; reflexivity.
Qed.

(** X8. The [in]-array branch of the parser never asks whether the
    rule's own field is valid: a non-empty list of scalars of one type gives
    an "in" rule for any field, whatever the field check answers. *)
Theorem membership_skips_the_field_check
    (JSON_parse : string -> option json) (fld : string) (items : list json) :
  items <> [] ->
  Parse.sameScalarType items = true ->
  listsAsArrays options = true ->
  independentCombinators options = false ->
  Parse.parsePostgREST options JSON_parse
    (JObj [("in", JArr [JObj [("var", JStr fld)]; JArr items])])
  = Normal (PGroup (mkGroup None (Some "and") None
              [RRule (mkRule None fld "in" (JArr items) None None)])).
Proof.
  intros Hne Hs Hl Hic. unfold Parse.parsePostgREST.
  rewrite membership_parsed by assumption. rewrite Hic. reflexivity.
Qed.

(** X5. An "in" rule over a non-empty list of numbers comes back
    unchanged from the export and the parser (lists as arrays); the field
    check is not consulted. *)
Theorem numeric_in_round_trip
    (fld : string) (items : list json) (opts : ProcOptions) :
  items <> [] ->
  forallb Parse.isNumber items = true ->
  listsAsArrays options = true ->
  Parse.processLogic options
    (PostgRESTProcessor.defaultRuleProcessorPostgREST
       (mkRule None fld "in" (JArr items) None None) opts)
    false
  = Normal (Some (PRule (mkRule None fld "in" (JArr items) None None))).
Proof.
  intros Hne Hn Hl.
  assert (Hout :
    PostgRESTProcessor.defaultRuleProcessorPostgREST
      (mkRule None fld "in" (JArr items) None None) opts
    = JObj [("in", JArr [JObj [("var", JStr fld)]; JArr items])]).
  { unfold PostgRESTProcessor.defaultRuleProcessorPostgREST.
    cbn [operator value valueSource field String.eqb Ascii.eqb Bool.eqb orb
         PostgRESTProcessor.negateIfNotOp PostgRESTProcessor.isNotOp
         Utils.toArray].
    replace (PostgRESTProcessor.negateIfNotOp "in") with (fun j : json => j)
      by reflexivity.
    cbv beta. rewrite map_map.
    match goal with
    | |- context [map ?f items] => assert (Hid : map f items = items)
    end.
    { rewrite <- (map_id items) at 2.
      apply map_ext_in. intros x Hx.
      apply (proj1 (forallb_forall _ _) Hn) in Hx.
      destruct x; try discriminate; cbn;
        destruct (PostgRESTProcessor.parseNumbersOf opts); reflexivity. }
    rewrite Hid. reflexivity. }
  rewrite Hout. apply membership_parsed; auto.
  unfold Parse.sameScalarType. rewrite Hn, Bool.orb_true_r. reflexivity.
Qed.

(** X6. A "null" or "notNull" rule is exported as a comparison of the
    field with [null] ([==] for "null", [!=] for "notNull"), whatever
    value and value source it carries.  A parser without custom
    operations reads that object back as a rule with the same field and
    operator, value [null] and no value source, if the field check
    accepts the field for that operator, and as nothing otherwise. *)
Theorem null_rules_come_back_with_null
    (fld : string) (v : json) (vs : option ValueSource) (opts : ProcOptions)
    (op : string) :
  op = "null" \/ op = "notNull" ->
  PostgRESTProcessor.defaultRuleProcessorPostgREST
    (mkRule None fld op v vs None) opts
  = JObj [(if (op =? "notNull")%string then "!=" else "==",
           JArr [JObj [("var", JStr fld)]; JNull])]
  /\ Parse.processLogic options
       (PostgRESTProcessor.defaultRuleProcessorPostgREST
          (mkRule None fld op v vs None) opts)
       false
     = Normal (if fieldIsValid options fld op None
               then Some (PRule (mkRule None fld op JNull None None))
               else None).
Proof.
  intros [-> | ->];
    match goal with
    | |- context [PostgRESTProcessor.defaultRuleProcessorPostgREST ?r ?o] =>
        let x := eval cbv in
                 (PostgRESTProcessor.defaultRuleProcessorPostgREST r o) in
        change (PostgRESTProcessor.defaultRuleProcessorPostgREST r o) with x
    end;
    (split; [reflexivity|]);
    unfold Parse.processLogic; cbn; rewrite noCustom; cbn;
    match goal with
    | |- context [fieldIsValid options ?f ?o ?s] =>
        destruct (fieldIsValid options f o s)
    end; reflexivity.
Qed.

End ParsedShapes.

(** ** Negation *)

Section NegationCases.

Variable options : ParsePostgRESTOptions.
Hypothesis noCustom : PostgRESTOperations options = None.

Lemma negation_entered (operand : json) (outermost : bool) :
  Parse.processLogic options (JObj [("!", operand)]) outermost
  = (rule <- Parse.processLogic options operand false ;;
     Normal (Parse.negate operand outermost rule)).
Proof.
  unfold Parse.processLogic.
  cbn [Parse.processLogicWith Parse.firstEntry JS.isPojo negb].
  rewrite Bool.andb_false_r, noCustom.
  cbn [JS.hasKey String.eqb Ascii.eqb Bool.eqb orb Parse.atKey JS.get].
  reflexivity.
Qed.

(** X10. Negating an operand that parses as a group sets [not] on that
    group and keeps its id, combinator and rules; no group is added around
    it, at the outermost level or below. *)
Theorem negated_group_gets_the_not_flag
    (operand : json) (outermost : bool)
    (i : option string) (c : string) (n : option bool)
    (rs : list RuleOrGroup) :
  Parse.processLogic options operand false
  = Normal (Some (PGroup (mkGroup i (Some c) n rs))) ->
  Parse.processLogic options (JObj [("!", operand)]) outermost
  = Normal (Some (PGroup (mkGroup i (Some c) (Some true) rs))).
Proof.
  intros H. rewrite negation_entered, H. cbn [bindC Parse.negate].
  rewrite Bool.orb_true_r. reflexivity.
Qed.

(** X11. Negating an operand that parses as a rule whose operator has
    no negated form in the parser (and that is not a chained [<]) gives an
    "and" group with [not] set holding that one rule. *)
Theorem negated_plain_rule_is_wrapped
    (operand : json) (outermost : bool) (r : RuleType) :
  Parse.processLogic options operand false = Normal (Some (PRule r)) ->
  Parse.isNegatable (operator r) = false ->
  Guards.isPostgRESTBetweenExclusive operand = false ->
  Parse.processLogic options (JObj [("!", operand)]) outermost
  = Normal (Some (PGroup (mkGroup None (Some "and") (Some true) [RRule r]))).
Proof.
  intros H Hn Hbe. rewrite negation_entered, H. cbn [bindC Parse.negate].
  rewrite Hn, Hbe. reflexivity.
Qed.

(** X7. A "contains" rule whose value is another field is exported as
    [{"in": [{"var": value}, {"var": field}]}].  A parser without custom
    operations takes the first variable of that object as the field: if
    the field check accepts the exchanged pair, the rule comes back with
    field and value exchanged, and otherwise nothing comes back. *)
Theorem field_valued_contains_comes_back_swapped
    (fld other : string) (opts : ProcOptions) :
  PostgRESTProcessor.defaultRuleProcessorPostgREST
    (mkRule None fld "contains" (JStr other) (Some VSField) None) opts
  = JObj [("in", JArr [JObj [("var", JStr other)];
                       JObj [("var", JStr fld)]])]
  /\ Parse.processLogic options
       (PostgRESTProcessor.defaultRuleProcessorPostgREST
          (mkRule None fld "contains" (JStr other) (Some VSField) None)
          opts)
       false
     = Normal (if fieldIsValid options other "contains" (Some fld)
               then Some (PRule (mkRule None other "contains" (JStr fld)
                                        (Some VSField) None))
               else None).
Proof.
  replace (PostgRESTProcessor.defaultRuleProcessorPostgREST _ opts)
    with (JObj [("in", JArr [JObj [("var", JStr other)];
                             JObj [("var", JStr fld)]])])
    by reflexivity.
  split; [reflexivity|].
  unfold Parse.processLogic.
  cbn. rewrite noCustom. cbn.
  destruct (fieldIsValid options other "contains" (Some fld)); reflexivity.
Qed.

End NegationCases.

(** ** Queries with nothing to render *)

Section NothingToRender.

Variable E : Collaborators.

Lemma formatQuery_region (rg : RuleGroup) (arg : FormatArg)
    (vm : ValidationMap) :
  let S := Format.readOptions E arg in
  Format.format S <> json_fmt ->
  Format.format S <> json_without_ids ->
  (Format.validator S rg = QVMap vm
   \/ (Format.validator S rg = QVBool true /\ vm = [])) ->
  Format.formatQuery E rg arg
  = Format.region E S vm (Format.walked E S rg).
Proof.
  intros S Hj Hw Hv.
  unfold Format.formatQuery, Format.region, Format.walked. fold S.
  destruct Hv as [-> | [-> ->]]; destruct (Format.format S);
    try congruence; reflexivity.
Qed.

(** X14. When the validator returns a map that marks the root group
    invalid, every format but the two JSON ones returns its empty result:
    the fallback expression, wrapped as the format wraps it, or [false] for
    "jsonlogic" and "postgrest", or the empty object for
    "elasticsearch".  The root group is the root of the tree the format
    walks: the query itself, or what [convertFromIC] makes of a query
    without a combinator in the four formats that convert. *)
Theorem invalid_root_group_is_fallback (rg : RuleGroup) (arg : FormatArg)
    (vm : ValidationMap) :
  let S := Format.readOptions E arg in
  Format.format S <> json_fmt ->
  Format.format S <> json_without_ids ->
  Format.validator S rg = QVMap vm ->
  Format.groupValid vm (Format.walked E S rg) = false ->
  Format.formatQuery E rg arg = Normal (emptyResult S).
Proof.
  intros S Hj Hw Hv Hg.
  rewrite (formatQuery_region rg arg vm Hj Hw (or_introl Hv)).
  fold S. unfold emptyResult, Format.region, Format.processRuleGroup_cel,
    Format.processRuleGroup_spel, Format.processRuleGroup_jsonata.
  destruct (Format.walked E S rg) as [i c n rs].
  destruct (Format.format S); try congruence;
    cbn [Format.processRuleGroup_sql Format.processRuleGroup_param
         Format.processRuleGroup_mongodb Format.processRuleGroup_expr
         Format.processRuleGroup_logic Format.processRuleGroup_es
         Format.processRuleGroup_nl];
    rewrite Hg; reflexivity.
Qed.

(** X15. A root group without rules is exported as the format's empty
    result by every format but the two JSON ones, when the validator is
    absent, answers [true] or answers with a validation map.  The root
    group is the root of the tree the format walks; the "mongodb" region
    reads its combinator first, so there it must have one. *)
Theorem empty_root_group_is_fallback (rg : RuleGroup) (arg : FormatArg)
    (vm : ValidationMap) :
  let S := Format.readOptions E arg in
  let tree := Format.walked E S rg in
  Format.format S <> json_fmt ->
  Format.format S <> json_without_ids ->
  (Format.validator S rg = QVMap vm
   \/ (Format.validator S rg = QVBool true /\ vm = [])) ->
  (Format.format S = mongodb -> isRuleGroupType tree = true) ->
  rules tree = [] ->
  Format.formatQuery E rg arg = Normal (emptyResult S).
Proof.
  intros S tree Hj Hw Hv Hstd Hr.
  rewrite (formatQuery_region rg arg vm Hj Hw Hv).
  fold S. fold tree. clearbody tree.
  unfold emptyResult, Format.region, Format.processRuleGroup_cel,
    Format.processRuleGroup_spel, Format.processRuleGroup_jsonata.
  destruct tree as [i c n rs]. cbn [rules] in Hr. subst rs.
  destruct n as [[|]|];
  destruct (Format.format S); try congruence;
    try (specialize (Hstd eq_refl); destruct c as [c|];
         [|discriminate Hstd]);
    cbn [Format.processRuleGroup_sql Format.processRuleGroup_param
         Format.processRuleGroup_mongodb Format.processRuleGroup_expr
         Format.processRuleGroup_logic Format.processRuleGroup_es
         Format.processRuleGroup_nl];
    match goal with
    | |- context [Format.groupValid vm ?g] =>
        destruct (Format.groupValid vm g)
    end; reflexivity.
Qed.

Lemma sequence_constant {A B} (f : A -> Completion B) (c : B) (l : list A) :
  Forall (fun x => f x = Normal c) l ->
  sequenceC (map f l) = Normal (map (fun _ => c) l).
Proof.
  induction 1 as [|x l Hx _ IH]; [reflexivity|].
  cbn [map sequenceC]. rewrite Hx, IH. reflexivity.
Qed.

Lemma filterBoolean_falsy {A} (c : json) (l : list A) :
  JS.truthy c = false -> JS.filterBoolean (map (fun _ => c) l) = [].
Proof.
  intros Hc. induction l; [reflexivity|].
  unfold JS.filterBoolean in *. cbn [map filter]. rewrite Hc. exact IHl.
Qed.

(** X16. In the formats that filter before they join ("cel", "spel",
    "jsonata", "mongodb", "jsonlogic", "postgrest", "elasticsearch") a root
    group all of whose rules are skipped is exported as the format's empty
    result, like a group without rules, when the validator is absent,
    answers [true] or answers with a validation map.  The root group is
    the root of the tree the format walks; the "mongodb" region reads its
    combinator first, so there it must have one. *)
Theorem skipped_rules_only_is_fallback (rg : RuleGroup) (arg : FormatArg)
    (vm : ValidationMap) :
  let S := Format.readOptions E arg in
  let tree := Format.walked E S rg in
  fallsBackOnEmptyJoin (Format.format S) = true ->
  (Format.validator S rg = QVMap vm
   \/ (Format.validator S rg = QVBool true /\ vm = [])) ->
  (Format.format S = mongodb -> isRuleGroupType tree = true) ->
  Forall (fun x => exists r, x = RRule r /\ Format.skipRule S vm r = true)
         (rules tree) ->
  Format.formatQuery E rg arg = Normal (emptyResult S).
Proof.
  intros S tree Hf Hv Hstd Hall.
  assert (Hj : Format.format S <> json_fmt)
    by (intros Heq; rewrite Heq in Hf; discriminate).
  assert (Hw : Format.format S <> json_without_ids)
    by (intros Heq; rewrite Heq in Hf; discriminate).
  rewrite (formatQuery_region rg arg vm Hj Hw Hv).
  fold S. fold tree. clearbody tree.
  unfold emptyResult, Format.region, Format.processRuleGroup_cel,
    Format.processRuleGroup_spel, Format.processRuleGroup_jsonata.
  destruct tree as [i c n rs]. cbn [rules] in Hall.
  destruct (Format.format S); try discriminate;
    try (specialize (Hstd eq_refl); destruct c as [c|];
         [|discriminate Hstd]);
    cbn [Format.processRuleGroup_mongodb Format.processRuleGroup_expr
         Format.processRuleGroup_logic Format.processRuleGroup_es];
    (match goal with
     | |- context [Format.groupValid vm ?g] =>
         destruct (Format.groupValid vm g)
     end;
     cbn [negb]; [|reflexivity]).
  - (* mongodb *)
    erewrite (sequence_constant _ (false, JStr "")).
    2:{ eapply Forall_impl; [|exact Hall]. intros x [r [-> Hs]].
        cbv beta iota. rewrite Hs. reflexivity. }
    cbn [bindC]. rewrite map_map. cbn [snd].
    rewrite filterBoolean_falsy by reflexivity. reflexivity.
  - (* cel *)
    erewrite (sequence_constant _ (JStr "")).
    2:{ eapply Forall_impl; [|exact Hall]. intros x [r [-> Hs]].
        cbv beta iota. rewrite Hs. reflexivity. }
    cbn [bindC]. rewrite filterBoolean_falsy by reflexivity.
    cbn. destruct (notFlag _ || false)%bool; reflexivity.
  - (* jsonlogic *)
    erewrite (sequence_constant _ (JBool false)).
    2:{ eapply Forall_impl; [|exact Hall]. intros x [r [-> Hs]].
        cbv beta iota. rewrite Hs. reflexivity. }
    cbn [bindC]. rewrite filterBoolean_falsy by reflexivity. reflexivity.
  - (* spel *)
    erewrite (sequence_constant _ (JStr "")).
    2:{ eapply Forall_impl; [|exact Hall]. intros x [r [-> Hs]].
        cbv beta iota. rewrite Hs. reflexivity. }
    cbn [bindC]. rewrite filterBoolean_falsy by reflexivity.
    cbn. destruct (notFlag _ || false)%bool; reflexivity.
  - (* elasticsearch *)
    erewrite (sequence_constant _ (JBool false)).
    2:{ eapply Forall_impl; [|exact Hall]. intros x [r [-> Hs]].
        cbv beta iota. rewrite Hs. reflexivity. }
    cbn [bindC]. rewrite filterBoolean_falsy by reflexivity. reflexivity.
  - (* jsonata *)
    erewrite (sequence_constant _ (JStr "")).
    2:{ eapply Forall_impl; [|exact Hall]. intros x [r [-> Hs]].
        cbv beta iota. rewrite Hs. reflexivity. }
    cbn [bindC]. rewrite filterBoolean_falsy by reflexivity.
    cbn. destruct (notFlag _ || false)%bool; reflexivity.
  - (* postgrest *)
    erewrite (sequence_constant _ (JBool false)).
    2:{ eapply Forall_impl; [|exact Hall]. intros x [r [-> Hs]].
        cbv beta iota. rewrite Hs. reflexivity. }
    cbn [bindC]. rewrite filterBoolean_falsy by reflexivity. reflexivity.
Qed.

End NothingToRender.


Section EmptyJoin.

Variable E : Collaborators.

(** X17. The parameterized and natural-language regions test the
    number of rules before filtering: a valid, non-empty root group all of
    whose rules are skipped gives a pair of parentheses around nothing, with
    no parameters ("parameterized", "parameterized_named"), or the empty
    string, or [() is not true] for a negated group
    ("natural_language"), not the fallback expression. *)
Theorem sql_family_keeps_the_empty_join
    (rg : RuleGroup) (arg : FormatArg) (vm : ValidationMap) :
  let S := Format.readOptions E arg in
  (Format.validator S rg = QVMap vm
   \/ (Format.validator S rg = QVBool true /\ vm = [])) ->
  Format.groupValid vm rg = true ->
  rules rg <> [] ->
  Forall (fun x => exists r, x = RRule r /\ Format.skipRule S vm r = true)
         (rules rg) ->
  let sqlText := JStr ((if notFlag rg then "NOT " else "") ++ "()") in
  match Format.format S with
  | parameterized =>
      Format.formatQuery E rg arg
      = Normal (JObj [("sql", sqlText); ("params", JArr [])])
  | parameterized_named =>
      Format.formatQuery E rg arg
      = Normal (JObj [("sql", sqlText); ("params", JObj [])])
  | natural_language =>
      Format.formatQuery E rg arg
      = Normal (JStr (if notFlag rg then "() is not true" else ""))
  | _ => True
  end.
Proof.
  intros S Hv Hg Hne Hall sqlText.
  destruct rg as [i c n rs]. cbn [rules] in Hne, Hall.
  assert (Hparam :
    Format.processRuleGroup_param E S vm (mkGroup i c n rs) true
      Format.initialPState
    = Normal (sqlText, Format.initialPState)).
  { cbn [Format.processRuleGroup_param]. rewrite Hg. cbn [negb].
    generalize (Nat.eqb (List.length rs) 1). intros lonely.
    match goal with
    | |- bindC (?each rs ?st) _ = _ => set (walk := each)
    end.
    assert (Heach : forall st,
      walk rs st = Normal (map (fun _ => JStr "") rs, st)).
    { clear Hne Hv Hg sqlText.
      induction Hall as [|x l [r [-> Hs]] _ IH]; intros st;
        [reflexivity|].
      change (walk (RRule r :: l) st)
        with (one <- Format.processRule_param E S vm r st ;;
              rest <- walk l (snd one) ;;
              Normal (fst one :: fst rest, snd rest)).
      unfold Format.processRule_param. rewrite Hs. cbn [bindC snd fst].
      rewrite IH. reflexivity. }
    rewrite Heach. cbn [bindC].
    destruct rs as [|x rs']; [congruence|].
    change (map (fun _ => JStr "") (x :: rs'))
      with (JStr "" :: map (fun _ : RuleOrGroup => JStr "") rs').
    cbv beta iota.
    change (JStr "" :: map (fun _ : RuleOrGroup => JStr "") rs')
      with (map (fun _ : RuleOrGroup => JStr "") (x :: rs')).
    rewrite filterBoolean_falsy by reflexivity. reflexivity. }
  destruct (Format.format S) eqn:Hf; try exact I;
    unfold Format.formatQuery; fold S; rewrite Hf.
  - destruct Hv as [-> | [-> ->]]; rewrite Hparam; reflexivity.
  - destruct Hv as [-> | [-> ->]]; rewrite Hparam; reflexivity.
  - assert (Hnl :
      Format.processRuleGroup_nl E S vm (mkGroup i c n rs) true
      = Normal (JStr (if notFlag (mkGroup i c n rs)
                      then "() is not true" else ""))).
    { cbn [Format.processRuleGroup_nl]. rewrite Hg. cbn [negb].
      erewrite (sequence_constant _ (JStr "")).
      2:{ eapply Forall_impl; [|exact Hall]. intros x [r [-> Hs]].
          cbv beta iota. rewrite Hs. reflexivity. }
      cbn [bindC]. destruct rs as [|x rs']; [congruence|].
      change (map (fun _ => JStr "") (x :: rs'))
        with (JStr "" :: map (fun _ : RuleOrGroup => JStr "") rs').
      cbv beta iota.
      change (JStr "" :: map (fun _ : RuleOrGroup => JStr "") rs')
        with (map (fun _ : RuleOrGroup => JStr "") (x :: rs')).
      rewrite filterBoolean_falsy by reflexivity.
      destruct n as [[|]|]; reflexivity. }
    destruct Hv as [-> | [-> ->]]; rewrite Hnl; reflexivity.
Qed.

End EmptyJoin.

(** ** Ids in the JSON export *)

Lemma withoutIds_rule (r : RuleType) :
  Stringify.withoutIds (Stringify.ofRule (withoutRuleId r))
  = Stringify.withoutIds (Stringify.ofRule r).
Proof.
  destruct r as [[i|] f op v [vs|] [n|]]; reflexivity.
Qed.

Lemma withoutIds_group : forall rg,
  Stringify.withoutIds (Stringify.ofGroup (withoutGroupIds rg))
  = Stringify.withoutIds (Stringify.ofGroup rg).
Proof.
  induction rg as [i c n rs IH] using RuleGroup_nested_ind.
  assert (Hrs :
    map Stringify.withoutIds
      (map (fun r => match r with
                     | RRule r => Stringify.ofRule r
                     | RGroup g => Stringify.ofGroup g
                     | RComb c => JStr c
                     end)
           (map (fun x => match x with
                          | RRule r => RRule (withoutRuleId r)
                          | RGroup g => RGroup (withoutGroupIds g)
                          | RComb t => RComb t
                          end) rs))
    = map Stringify.withoutIds
        (map (fun r => match r with
                       | RRule r => Stringify.ofRule r
                       | RGroup g => Stringify.ofGroup g
                       | RComb c => JStr c
                       end) rs)).
  { rewrite !map_map. apply map_ext_Forall.
    eapply Forall_impl; [|exact IH].
    intros [r|g|t] H; auto using withoutIds_rule. }
  destruct i as [i|], c as [c|], n as [n|];
    cbn [withoutGroupIds Stringify.ofGroup Stringify.optProp option_map app
         Stringify.withoutIds String.eqb Ascii.eqb Bool.eqb orb];
    rewrite Hrs; reflexivity.
Qed.

(** X18. The "json_without_ids" export does not depend on the [id]
    properties of the query: removing them from every group and rule
    beforehand gives the same text (numbers left unparsed). *)
Theorem json_without_ids_ignores_ids
    (E : Collaborators) (rg : RuleGroup) (arg : FormatArg) :
  let S := Format.readOptions E arg in
  Format.format S = json_without_ids ->
  Format.parseNumbers S = false ->
  Format.formatQuery E (withoutGroupIds rg) arg = Format.formatQuery E rg arg.
Proof.
  intros S Hf Hp. unfold Format.formatQuery. fold S. rewrite Hf, Hp.
  rewrite withoutIds_group. reflexivity.
Qed.

(** ** Named parameters *)

Lemma append_inj_l (p a b : string) : p ++ a = p ++ b -> a = b.
Proof.
  induction p as [|c p IH]; cbn; intros H; [exact H|].
  inversion H. auto.
Qed.

Lemma num_toString_inj (a b : nat) :
  JS.num_toString (Z.of_nat (S a)) = JS.num_toString (Z.of_nat (S b)) ->
  a = b.
Proof.
  unfold JS.num_toString, JS.string_of_Z.
  assert (Ha : (Z.of_nat (S a) =? 0) = false) by (apply Z.eqb_neq; lia).
  assert (Hb : (Z.of_nat (S b) =? 0) = false) by (apply Z.eqb_neq; lia).
  rewrite Ha, Hb. intros H.
  assert (Hi : Z.to_int (Z.of_nat (S a)) = Z.to_int (Z.of_nat (S b))).
  { pose proof (NilEmpty.isi (Z.to_int (Z.of_nat (S a)))) as H1.
    pose proof (NilEmpty.isi (Z.to_int (Z.of_nat (S b)))) as H2.
    rewrite H in H1. rewrite H1 in H2. congruence. }
  apply DecimalZ.to_int_inj in Hi. lia.
Qed.

Lemma paramName_inj (f : string) (a b : nat) :
  paramName f (S a) = paramName f (S b) -> a = b.
Proof.
  unfold paramName. intros H. apply append_inj_l in H.
  apply (append_inj_l "_") in H. apply num_toString_inj, H.
Qed.

Lemma paramName_fresh (f : string) (n : nat) :
  ~ In (paramName f (S n)) (map (paramName f) (seq 1 n)).
Proof.
  intros Hin. apply in_map_iff in Hin. destruct Hin as [k [Hk Hin]].
  apply in_seq in Hin. destruct k as [|k]; [lia|].
  apply paramName_inj in Hk. lia.
Qed.

Lemma fp_get_app_new fp f g :
  Format.fp_get fp f = None ->
  Format.fp_get (fp ++ [(f, [])]) g
  = if (f =? g)%string then Some [] else Format.fp_get fp g.
Proof.
  induction fp as [|[k names] fp IH]; cbn [app Format.fp_get]; intros Hn.
  - reflexivity.
  - destruct (k =? f)%string eqn:Hkf; [discriminate|].
    destruct (k =? g)%string eqn:Hkg.
    + apply String.eqb_eq in Hkg. subst g.
      rewrite String.eqb_sym, Hkf. reflexivity.
    + apply IH, Hn.
Qed.

Lemma fp_get_add fp f x g :
  Format.fp_get (Format.fp_add fp f x) g
  = if (f =? g)%string
    then option_map (Format.set_add x) (Format.fp_get fp f)
    else Format.fp_get fp g.
Proof.
  induction fp as [|[k names] fp IH]; cbn [Format.fp_add Format.fp_get].
  - destruct (f =? g)%string; reflexivity.
  - destruct (k =? f)%string eqn:Hkf.
    + apply String.eqb_eq in Hkf. subst k. cbn [Format.fp_get].
      destruct (f =? g)%string; reflexivity.
    + cbn [Format.fp_get]. destruct (k =? g)%string eqn:Hkg.
      * apply String.eqb_eq in Hkg. subst g.
        rewrite String.eqb_sym, Hkf. reflexivity.
      * exact IH.
Qed.

Lemma set_add_fresh x names :
  ~ In x names -> Format.set_add x names = (names ++ [x])%list.
Proof.
  intros Hn. unfold Format.set_add.
  destruct (existsb (String.eqb x) names) eqn:He; [|reflexivity].
  apply existsb_exists in He. destruct He as [y [Hy He]].
  apply String.eqb_eq in He. subst y. contradiction.
Qed.

Lemma getNextNamedParam_spec
    (fp : list (string * list string)) (f : string) :
  generatedOnly fp ->
  let names := Format.orElse (Format.fp_get fp f) [] in
  let '(name, fp') := Format.getNextNamedParam fp f in
  name = paramName f (S (List.length names))
  /\ ~ In name names
  /\ Format.fp_get fp' f = Some (names ++ [name])%list
  /\ (forall g, g <> f -> Format.fp_get fp' g = Format.fp_get fp g)
  /\ generatedOnly fp'.
Proof.
  intros Hinv names. unfold Format.getNextNamedParam.
  set (fp1 := match Format.fp_get fp f with
              | Some _ => fp
              | None => (fp ++ [(f, [])])%list
              end).
  assert (H1 : Format.fp_get fp1 f = Some names
               /\ forall g, g <> f ->
                    Format.fp_get fp1 g = Format.fp_get fp g).
  { unfold fp1, names. destruct (Format.fp_get fp f) as [l|] eqn:Hf.
    - split; [exact Hf | reflexivity].
    - split.
      + rewrite fp_get_app_new, String.eqb_refl by exact Hf. reflexivity.
      + intros g Hg. rewrite fp_get_app_new by exact Hf.
        destruct (f =? g)%string eqn:Hfg; [|reflexivity].
        apply String.eqb_eq in Hfg. congruence. }
  destruct H1 as [H1f H1g].
  assert (Hnames : names = map (paramName f) (seq 1 (List.length names))).
  { unfold names. destruct (Format.fp_get fp f) as [l|] eqn:Hf.
    - apply Hinv, Hf.
    - reflexivity. }
  rewrite H1f. cbn [Format.orElse].
  replace (f ++ "_" ++ JS.num_toString (Z.of_nat (List.length names + 1)))
    with (paramName f (S (List.length names)))
    by (unfold paramName; rewrite Nat.add_1_r; reflexivity).
  assert (Hfresh : ~ In (paramName f (S (List.length names))) names).
  { rewrite Hnames at 2. apply paramName_fresh. }
  split; [reflexivity|]. split; [exact Hfresh|]. split.
  { rewrite fp_get_add, String.eqb_refl, H1f. cbn [option_map].
    rewrite set_add_fresh by exact Hfresh. reflexivity. }
  split.
  { intros g Hg. rewrite fp_get_add.
    destruct (f =? g)%string eqn:Hfg.
    - apply String.eqb_eq in Hfg. congruence.
    - apply H1g, Hg. }
  intros g l Hgl. rewrite fp_get_add in Hgl.
  destruct (f =? g)%string eqn:Hfg.
  - apply String.eqb_eq in Hfg. subst g. rewrite H1f in Hgl.
    cbn [option_map] in Hgl. rewrite set_add_fresh in Hgl by exact Hfresh.
    inversion Hgl. rewrite length_app. cbn [List.length].
    rewrite Nat.add_1_r, seq_S, map_app. cbn [map].
    rewrite <- Hnames. reflexivity.
  - rewrite H1g in Hgl.
    + apply Hinv, Hgl.
    + intros ->. rewrite String.eqb_refl in Hfg. discriminate.
Qed.

(** X19. On a registry built by [getNextNamedParam] alone, the next
    name for a field is not among the names already given for it; it is
    added at the end of the field's names, and the registry remains of that
    kind. *)
Theorem next_named_param_is_fresh
    (fp : list (string * list string)) (f : string) :
  generatedOnly fp ->
  let names := Format.orElse (Format.fp_get fp f) [] in
  ~ In (fst (Format.getNextNamedParam fp f)) names
  /\ Format.fp_get (snd (Format.getNextNamedParam fp f)) f
     = Some (names ++ [fst (Format.getNextNamedParam fp f)])%list
  /\ generatedOnly (snd (Format.getNextNamedParam fp f)).
Proof.
  intros Hinv names. pose proof (getNextNamedParam_spec fp f Hinv) as H.
  cbv zeta in H. destruct (Format.getNextNamedParam fp f) as [name fp'].
  destruct H as [_ [Hfresh [Hget [_ Hgen]]]]. cbn [fst snd]. auto.
Qed.

(** X20. Whatever a rule processor does with [getNextNamedParam], a
    registry built by it alone stays so throughout the run. *)
Theorem registry_stays_generated {A} (m : PM A) :
  forall (fp fp' : list (string * list string)) (a : A),
    generatedOnly fp ->
    Format.runPM m fp = Normal (a, fp') ->
    generatedOnly fp'.
Proof.
  induction m as [a0| |f k IH]; intros fp fp' a Hinv Hrun;
    cbn [Format.runPM] in Hrun.
  - inversion Hrun. subst. exact Hinv.
  - discriminate.
  - pose proof (getNextNamedParam_spec fp f Hinv) as H. cbv zeta in H.
    destruct (Format.getNextNamedParam fp f) as [name fp1].
    destruct H as [_ [_ [_ [_ Hgen]]]].
    exact (IH name fp1 fp' a Hgen Hrun).
Qed.

(** ** Instances *)

Lemma plain_trees_round_trip_witness :
  exists j,
    Format.formatQuery Example.collaborators Samples.nested (ByName postgrest)
    = Normal j
    /\ Parse.parsePostgREST defaultParseOptions Example.JSON_parse j
       = Normal (PGroup Samples.nested).
Proof.
  apply (plain_trees_round_trip Example.collaborators Example.JSON_parse
           defaultParseOptions Samples.nested);
    [reflexivity | reflexivity | reflexivity | reflexivity].
Defined.

Lemma outermost_result_is_a_group_witness :
  Parse.isGroup
    (PGroup (mkGroup None (Some "and") None
               [RRule (mkRule None "a" "=" (JNum 1) None None)])) = true.
Proof.
  apply (outermost_result_is_a_group defaultParseOptions Example.JSON_parse
           (JObj [("==", JArr [Example.var "a"; JNum 1])]));
    [reflexivity | right; split; reflexivity | reflexivity].
Defined.

Lemma exclusive_between_is_split_witness :
  Parse.processLogic defaultParseOptions
    (JObj [("<", JArr [JNum 1; Example.var "a"; JNum 5])]) true
  = Normal (Some (PGroup (mkGroup None (Some "and") None
      [RRule (comparison "a" ">" (JNum 1));
       RRule (comparison "a" "<" (JNum 5))]))).
Proof.
  apply (exclusive_between_is_split defaultParseOptions eq_refl "a"
           (JNum 1) (JNum 5) true).
  reflexivity.
Defined.

Lemma between_round_trip_orders_bounds_witness :
  exists lo hi : json,
    ((lo = JNum 30 /\ hi = JFrac (mkFraction false 1 D5 1))
     \/ (lo = JFrac (mkFraction false 1 D5 1) /\ hi = JNum 30))
    /\ JS.lessOrEqual lo hi = true
    /\ Parse.processLogic Example.listsAsArraysOptions
         (PostgRESTProcessor.defaultRuleProcessorPostgREST
            (mkRule None "age" "between"
                    (JArr [JNum 30; JFrac (mkFraction false 1 D5 1)])
                    None None)
            noProcOptions)
         false
       = Normal (Some (PRule (mkRule None "age" "between" (JArr [lo; hi])
                                     None None))).
Proof.
  apply (between_round_trip_orders_bounds Example.listsAsArraysOptions
           eq_refl "age" (JNum 30) (JFrac (mkFraction false 1 D5 1))
           noProcOptions); reflexivity.
Defined.

Lemma membership_skips_the_field_check_witness :
  Parse.parsePostgREST Samples.rejectingOptions Example.JSON_parse
    (JObj [("in", JArr [Example.var "a"; JArr [JNum 1; JNum 2]])])
  = Normal (PGroup (mkGroup None (Some "and") None
              [RRule (mkRule None "a" "in" (JArr [JNum 1; JNum 2])
                             None None)])).
Proof.
  apply (membership_skips_the_field_check Samples.rejectingOptions eq_refl
           Example.JSON_parse "a" [JNum 1; JNum 2]);
    [discriminate | reflexivity | reflexivity | reflexivity].
Defined.

Lemma comparison_on_rejected_field_is_dropped_witness :
  Parse.parsePostgREST Samples.rejectingOptions Example.JSON_parse
    (JObj [("==", JArr [Example.var "a"; JNum 1])])
  = Normal (PGroup emptyRuleGroup).
Proof.
  apply (comparison_on_rejected_field_is_dropped Samples.rejectingOptions
           eq_refl Example.JSON_parse "a" "==" (JNum 1));
    [left; reflexivity | reflexivity | reflexivity | reflexivity].
Defined.

Lemma unknown_operator_renders_false_witness :
  PostgRESTProcessor.defaultRuleProcessorPostgREST
    (mkRule None "a" "like" (JStr "x") None None) noProcOptions
  = JBool false.
Proof.
  apply (unknown_operator_renders_false
           (mkRule None "a" "like" (JStr "x") None None) noProcOptions).
  cbn. intuition discriminate.
Defined.

Lemma between_needs_two_valid_bounds_witness :
  PostgRESTProcessor.defaultRuleProcessorPostgREST
    (mkRule None "a" "between" (JStr "5") None None) noProcOptions
  = JBool false.
Proof.
  apply (between_needs_two_valid_bounds
           (mkRule None "a" "between" (JStr "5") None None) noProcOptions);
    [left; reflexivity | exact I].
Defined.

Lemma invalid_root_group_is_fallback_witness :
  Format.formatQuery Example.collaborators Samples.marked
    (ByOptions Samples.markInvalid)
  = Normal (JStr "(1 = 1)").
Proof.
  apply (invalid_root_group_is_fallback Example.collaborators Samples.marked
           (ByOptions Samples.markInvalid) [("g", VBool false)]);
    [discriminate | discriminate | reflexivity | reflexivity].
Defined.

Lemma empty_root_group_is_fallback_witness :
  Format.formatQuery Example.collaborators emptyRuleGroup (ByName mongodb)
  = Normal (emptyResult
              (Format.readOptions Example.collaborators (ByName mongodb))).
Proof.
  apply (empty_root_group_is_fallback Example.collaborators emptyRuleGroup
           (ByName mongodb) []);
    [discriminate | discriminate | right; split; reflexivity
    | reflexivity | reflexivity].
Defined.

Lemma skipped_rules_only_is_fallback_witness :
  Format.formatQuery Example.collaborators Example.onlyDraft (ByName cel)
  = Normal (JStr "1 == 1").
Proof.
  apply (skipped_rules_only_is_fallback Example.collaborators
           Example.onlyDraft (ByName cel) []);
    [reflexivity | right; split; reflexivity | discriminate |].
  repeat constructor. exists Example.draft. split; reflexivity.
Defined.

Lemma sql_family_keeps_the_empty_join_witness :
  Format.formatQuery Example.collaborators Example.onlyDraft
    (ByName parameterized)
  = Normal (JObj [("sql", JStr "()"); ("params", JArr [])]).
Proof.
  apply (sql_family_keeps_the_empty_join Example.collaborators
           Example.onlyDraft (ByName parameterized) []).
  - right; split; reflexivity.
  - reflexivity.
  - discriminate.
  - repeat constructor. exists Example.draft. split; reflexivity.
Defined.

Lemma json_without_ids_ignores_ids_witness :
  Format.formatQuery Example.collaborators (withoutGroupIds Samples.marked)
    Samples.withoutIdsByName
  = Format.formatQuery Example.collaborators Samples.marked
      Samples.withoutIdsByName.
Proof.
  apply (json_without_ids_ignores_ids Example.collaborators Samples.marked
           Samples.withoutIdsByName); reflexivity.
Defined.

Lemma next_named_param_is_fresh_witness :
  ~ In (fst (Format.getNextNamedParam [("age", ["age_1"])] "age"))
       ["age_1"]
  /\ Format.fp_get (snd (Format.getNextNamedParam [("age", ["age_1"])] "age"))
       "age"
     = Some ["age_1"; fst (Format.getNextNamedParam [("age", ["age_1"])]
                             "age")]
  /\ generatedOnly (snd (Format.getNextNamedParam [("age", ["age_1"])]
                          "age")).
Proof.
  apply (next_named_param_is_fresh [("age", ["age_1"])] "age").
  intros f names. cbn [Format.fp_get].
  destruct (String.eqb_spec "age" f) as [<-|_]; [|discriminate].
  intros H. inversion H. reflexivity.
Defined.

Lemma registry_stays_generated_witness :
  generatedOnly [("age", ["age_1"; "age_2"])].
Proof.
  apply (registry_stays_generated Samples.twoNames []
           [("age", ["age_1"; "age_2"])]
           (JArr [JStr "age_1"; JStr "age_2"])).
  - intros f names H. discriminate H.
  - reflexivity.
Defined.

Lemma negated_group_gets_the_not_flag_witness :
  Parse.processLogic defaultParseOptions
    (JObj [("!", JObj [("or", JArr [JObj [("==", JArr [Example.var "a";
                                                       JNum 1])]])])])
    true
  = Normal (Some (PGroup (mkGroup None (Some "or") (Some true)
              [RRule (mkRule None "a" "=" (JNum 1) None None)]))).
Proof.
  apply (negated_group_gets_the_not_flag defaultParseOptions eq_refl
           (JObj [("or", JArr [JObj [("==", JArr [Example.var "a";
                                                  JNum 1])]])])
           true None "or" None).
  reflexivity.
Defined.

Lemma negated_plain_rule_is_wrapped_witness :
  Parse.processLogic defaultParseOptions
    (JObj [("!", JObj [("==", JArr [Example.var "a"; JNum 1])])]) true
  = Normal (Some (PGroup (mkGroup None (Some "and") (Some true)
              [RRule (mkRule None "a" "=" (JNum 1) None None)]))).
Proof.
  apply (negated_plain_rule_is_wrapped defaultParseOptions eq_refl
           (JObj [("==", JArr [Example.var "a"; JNum 1])]) true
           (mkRule None "a" "=" (JNum 1) None None));
    reflexivity.
Defined.

Lemma field_valued_contains_comes_back_swapped_witness :
  PostgRESTProcessor.defaultRuleProcessorPostgREST
    (mkRule None "title" "contains" (JStr "keyword") (Some VSField) None)
    noProcOptions
  = JObj [("in", JArr [Example.var "keyword"; Example.var "title"])]
  /\ Parse.processLogic defaultParseOptions
       (PostgRESTProcessor.defaultRuleProcessorPostgREST
          (mkRule None "title" "contains" (JStr "keyword") (Some VSField)
                  None)
          noProcOptions)
       false
     = Normal (Some (PRule (mkRule None "keyword" "contains" (JStr "title")
                                   (Some VSField) None))).
Proof.
  apply (field_valued_contains_comes_back_swapped defaultParseOptions
           eq_refl "title" "keyword" noProcOptions).
Defined.

Lemma null_rules_come_back_with_null_witness :
  PostgRESTProcessor.defaultRuleProcessorPostgREST
    (mkRule None "a" "notNull" (JStr "ignored") None None) noProcOptions
  = JObj [("!=", JArr [Example.var "a"; JNull])]
  /\ Parse.processLogic defaultParseOptions
       (PostgRESTProcessor.defaultRuleProcessorPostgREST
          (mkRule None "a" "notNull" (JStr "ignored") None None)
          noProcOptions)
       false
     = Normal (Some (PRule (mkRule None "a" "notNull" JNull None None))).
Proof.
  apply (null_rules_come_back_with_null defaultParseOptions eq_refl "a"
           (JStr "ignored") None noProcOptions "notNull").
  right; reflexivity.
Defined.

Lemma numeric_in_round_trip_witness :
  Parse.processLogic Example.listsAsArraysOptions
    (PostgRESTProcessor.defaultRuleProcessorPostgREST
       (mkRule None "a" "in"
               (JArr [JNum 1; JFrac (mkFraction false 2 D5 1)]) None None)
       noProcOptions)
    false
  = Normal (Some (PRule (mkRule None "a" "in"
                                (JArr [JNum 1;
                                       JFrac (mkFraction false 2 D5 1)])
                                None None))).
Proof.
  apply (numeric_in_round_trip Example.listsAsArraysOptions eq_refl "a"
           [JNum 1; JFrac (mkFraction false 2 D5 1)] noProcOptions);
    [discriminate | reflexivity | reflexivity].
Defined.
